(** * Verification of the wine-sommelier recommendation pipeline

    A shallow embedding of the request handler of
    [src/app/api/wine-advice/route.ts], of the pagination handlers of the
    chat widget and of the cart store [src/utils/delhaize-cart.ts],
    together with the properties their specification states.

    ECMAScript strings are sequences of 16-bit code units and are modelled
    as [list N]; ECMAScript Numbers are IEEE-754 binary64 values and are
    modelled by the Standard Library's [spec_float] at precision 53 and
    maximal exponent 1024. *)

From Stdlib Require Import ZArith NArith PArith List Bool String Ascii Lia.
From Stdlib Require Import Permutation.
From Stdlib Require Sorted.
From Stdlib Require Import Floats.SpecFloat.
Import ListNotations.

Set Implicit Arguments.

(** ** Strings *)

Module JS.

Definition jsstring := list N.

(** An ASCII literal of the source as a sequence of code units. *)
Definition str (s : string) : jsstring :=
  map N_of_ascii (list_ascii_of_string s).

Fixpoint string_eqb (a b : jsstring) : bool :=
  match a, b with
  | [], [] => true
  | x :: a', y :: b' => N.eqb x y && string_eqb a' b'
  | _, _ => false
  end.

(** [String.prototype.startsWith]. *)
Fixpoint startsWith (s prefix : jsstring) : bool :=
  match prefix, s with
  | [], _ => true
  | p :: prefix', c :: s' => N.eqb c p && startsWith s' prefix'
  | _ :: _, [] => false
  end.

(** [String.prototype.includes]: the needle occurs at some position. *)
Fixpoint includes (s needle : jsstring) : bool :=
  startsWith s needle ||
  match s with
  | [] => false
  | _ :: s' => includes s' needle
  end.

(** [Array.prototype.includes] on an array of strings. *)
Definition array_includes (l : list jsstring) (x : jsstring) : bool :=
  existsb (string_eqb x) l.

(** Character classes of the regular expressions of the source. *)
Definition isDigit (c : N) : bool := (48 <=? c)%N && (c <=? 57)%N.

Definition isUpper (c : N) : bool := (65 <=? c)%N && (c <=? 90)%N.

Definition isLower (c : N) : bool := (97 <=? c)%N && (c <=? 122)%N.

(** [\w] without the unicode flag: [A-Za-z0-9_]. *)
Definition isWordChar (c : N) : bool :=
  isDigit c || isUpper c || isLower c || N.eqb c 95.

(** [\s], also the set removed by [trim]: WhiteSpace and LineTerminator. *)
Definition isWhiteSpace (c : N) : bool :=
  ((9 <=? c)%N && (c <=? 13)%N) || N.eqb c 32 || N.eqb c 160 ||
  N.eqb c 5760 || ((8192 <=? c)%N && (c <=? 8202)%N) ||
  N.eqb c 8232 || N.eqb c 8233 || N.eqb c 8239 || N.eqb c 8287 ||
  N.eqb c 12288 || N.eqb c 65279.

(** Line terminators, which [.] does not match and [$] stops at. *)
Definition isLineTerminator (c : N) : bool :=
  N.eqb c 10 || N.eqb c 13 || N.eqb c 8232 || N.eqb c 8233.

(** Canonicalisation of a code unit under the [i] flag (no [u] flag): the
    ASCII letters fold together, and no code unit above 127 folds onto an
    ASCII one. *)
Definition foldCase (c : N) : N := if isLower c then (c - 32)%N else c.

Definition code_eqb_i (a b : N) : bool := N.eqb (foldCase a) (foldCase b).

(** A literal of a pattern with the [i] flag matched at the head of [s];
    the rest of [s] is returned. *)
Fixpoint matchLiteral_i (lit s : jsstring) : option jsstring :=
  match lit, s with
  | [], _ => Some s
  | p :: lit', c :: s' => if code_eqb_i c p then matchLiteral_i lit' s' else None
  | _ :: _, [] => None
  end.

Fixpoint span (p : N -> bool) (s : jsstring) : jsstring * jsstring :=
  match s with
  | [] => ([], [])
  | c :: s' =>
      if p c then let '(a, b) := span p s' in (c :: a, b) else ([], s)
  end.

Definition dropWhile (p : N -> bool) (s : jsstring) : jsstring := snd (span p s).

Definition trimStart (s : jsstring) : jsstring := dropWhile isWhiteSpace s.

Definition trimEnd (s : jsstring) : jsstring := rev (trimStart (rev s)).

(** [String.prototype.trim]. *)
Definition trim (s : jsstring) : jsstring := trimEnd (trimStart s).

(** [s.replace(/[...]/g, "")] for a character class: the code units of the
    class are deleted. *)
Definition removeAll (cls : N -> bool) (s : jsstring) : jsstring :=
  filter (fun c => negb (cls c)) s.

(** [s.replace(a, b)] with string arguments: only the first occurrence of
    the one-unit pattern is replaced. *)
Fixpoint replaceFirst (a b : N) (s : jsstring) : jsstring :=
  match s with
  | [] => []
  | c :: s' => if N.eqb c a then b :: s' else c :: replaceFirst a b s'
  end.

(** [s.split(/[...]+/)] for a character class: the pieces between the
    maximal runs of separators; a leading or trailing run gives an empty
    first or last piece. *)
Fixpoint splitOn (sep : N -> bool) (s : jsstring) : list jsstring :=
  match s with
  | [] => [[]]
  | c :: s' =>
      let r := splitOn sep s' in
      if sep c then
        match s' with
        | c' :: _ => if sep c' then r else [] :: r
        | [] => [] :: r
        end
      else
        match r with
        | piece :: rest => (c :: piece) :: rest
        | [] => [[c]]
        end
  end.

End JS.

Import JS.

(** ** Numbers *)

Module Num.

Definition number := spec_float.

Definition prec : Z := 53.
Definition emax : Z := 1024.

Definition NaN : number := S754_nan.
Definition zero : number := S754_zero false.

Definition isNaN (x : number) : bool :=
  match x with S754_nan => true | _ => false end.

Definition isFinite (x : number) : bool :=
  match x with S754_zero _ | S754_finite _ _ _ => true | _ => false end.

(** ToBoolean on a Number: [NaN], [+0] and [-0] are falsy. *)
Definition truthy (x : number) : bool :=
  match x with S754_nan | S754_zero _ => false | _ => true end.

(** [x || y] on Numbers. *)
Definition orElse (x y : number) : number := if truthy x then x else y.

(** The comparisons [<], [>], [>=], [<=] of the source; each is false on
    NaN. *)
Definition lt (x y : number) : bool := SFltb x y.
Definition gt (x y : number) : bool := SFltb y x.
Definition ge (x y : number) : bool := SFleb y x.
Definition le (x y : number) : bool := SFleb x y.

(** [x - y] and [x + y], rounded to nearest, ties to even. *)
Definition sub (x y : number) : number := SFsub prec emax x y.
Definition add (x y : number) : number := SFadd prec emax x y.

(** The Number of an integer literal of the source. *)
Definition ofZ (z : Z) : number := binary_normalize prec emax z 0 false.

Definition one : number := ofZ 1.
Definition ten : number := ofZ 10.

(** The values of [spec_float] that are Numbers: mantissa and exponent in
    the canonical form of binary64. *)
Definition valid (x : number) : bool := valid_binary prec emax x.

(** The Number value of the decimal [(-1)^neg * m * 10^e10]: the quotient
    of two integers rounded to nearest, ties to even. *)
Definition ofDecimal (neg : bool) (m : N) (e10 : Z) : number :=
  match m with
  | N0 => S754_zero neg
  | Npos p =>
      match e10 with
      | Zneg k =>
          SFdiv prec emax (S754_finite neg p 0) (S754_finite false (Pos.pow 10 k) 0)
      | Z0 => SFdiv prec emax (S754_finite neg p 0) (S754_finite false 1 0)
      | Zpos k =>
          SFdiv prec emax (S754_finite neg (p * Pos.pow 10 k) 0) (S754_finite false 1 0)
      end
  end.

Definition digitsValue (ds : jsstring) : N :=
  fold_left (fun acc c => (10 * acc + (c - 48))%N) ds 0%N.

(** The exponent part [e(+|-)?digits] of a decimal literal, if one starts
    the string. *)
Definition exponentPart (s : jsstring) : Z :=
  match s with
  | c :: r =>
      if N.eqb c 101 || N.eqb c 69 then
        let '(sg, r') :=
          match r with
          | 43%N :: t => (false, t)
          | 45%N :: t => (true, t)
          | _ => (false, r)
          end in
        match fst (span isDigit r') with
        | [] => 0%Z
        | ds => let v := Z.of_N (digitsValue ds) in if sg then (- v)%Z else v
        end
      else 0%Z
  | [] => 0%Z
  end.

(** [parseFloat]: leading white space is skipped and the longest prefix
    that is a decimal literal is converted; [NaN] when there is none. *)
Definition parseFloat (s : jsstring) : number :=
  let s1 := trimStart s in
  let '(sg, s2) :=
    match s1 with
    | 43%N :: t => (false, t)
    | 45%N :: t => (true, t)
    | _ => (false, s1)
    end in
  if startsWith s2 (str "Infinity") then S754_infinity sg
  else
    let '(ip, s3) := span isDigit s2 in
    let '(fp, s4) :=
      match s3 with
      | 46%N :: t => span isDigit t
      | _ => ([], s3)
      end in
    match ip ++ fp with
    | [] => NaN
    | ds =>
        ofDecimal sg (digitsValue ds)
          (exponentPart s4 - Z.of_nat (List.length fp))
    end.

(** [Math.floor(n * 0.75)] for an array length [n]: the product is exact
    in binary64 for every possible array length, and its floor is the
    integer quotient of [3 * n] by [4]. *)
Definition floorThreeQuarters (n : nat) : nat := (3 * n) / 4.

End Num.

(** ** The values of Numbers

    What the arithmetic on quantities is measured with: the value of a
    positive finite Number in units of 2^-1074, the least positive
    Number. *)

Module Binary64.
Import Num.

(** The value of the positive Number of mantissa [m] and exponent [e]. *)
Definition scaled (m : positive) (e : Z) : Z := (Zpos m * 2 ^ (e + 1074))%Z.

(** The weight of the last place of the largest finite Numbers. *)
Definition top : Z := (2 ^ (971 + 1074))%Z.

(** A positive normal Number, or [+Infinity]. *)
Definition normal (x : number) : Prop :=
  x = S754_infinity false \/
  exists m e, x = S754_finite false m e /\ bounded prec emax m e = true /\
              (2 ^ 52 <= Zpos m)%Z.

(** What a running total is after [k] quantities within 1..10: zero
    before the first, then a positive normal Number between [k] and
    [10 k]. *)
Definition sumInv (k : Z) (c : number) : Prop :=
  (k = 0%Z /\ c = S754_zero false) \/
  ((1 <= k)%Z /\
   exists m e, c = S754_finite false m e /\ bounded prec emax m e = true /\
     (2 ^ 52 <= Zpos m)%Z /\
     (k * 2 ^ 1074 <= scaled m e <= 10 * k * 2 ^ 1074)%Z).

End Binary64.

Import Num.

(** ** The JavaScript engine's Unicode tables

    [String.prototype.toLowerCase] and [String.prototype.normalize("NFD")]
    are given by the Unicode Character Database of the engine.  The
    development is parametric in them; [asciiRuntime] is the instance that
    agrees with every engine on strings of Basic Latin code units. *)

Class Runtime := {
  toLowerCase : jsstring -> jsstring;
  normalizeNFD : jsstring -> jsstring
}.

Definition asciiLower (c : N) : N := if isUpper c then (c + 32)%N else c.

Definition asciiRuntime : Runtime := {|
  toLowerCase := map asciiLower;
  normalizeNFD := fun s => s
|}.

(** ** Data model ([src/types/wine.ts]) *)

Record Wine := mkWine {
  id : jsstring;
  Product_name : jsstring;
  Price : jsstring;
  Color : option jsstring;
  URL : jsstring;
  food_pairing : list jsstring
}.

Inductive Language := en | fr | nl.

(** ** The request handler ([src/app/api/wine-advice/route.ts]) *)

Module Route.

(** [[0-9,.-]], the characters that [parsePrice] keeps. *)
Definition priceChar (c : N) : bool :=
  isDigit c || N.eqb c 44 || N.eqb c 46 || N.eqb c 45.

Definition cleanPrice (priceStr : jsstring) : jsstring :=
  replaceFirst 44 46 (removeAll (fun c => negb (priceChar c)) priceStr).

Definition parsePrice (priceStr : jsstring) : number :=
  orElse (parseFloat (cleanPrice priceStr)) zero.

(** The leftmost position of [s] at which [f] matches. *)
Fixpoint search (A : Type) (f : jsstring -> option A) (s : jsstring) : option A :=
  match f s with
  | Some x => Some x
  | None =>
      match s with
      | [] => None
      | _ :: s' => search f s'
      end
  end.

(** [(?:k1|k2|...)\s*(\d+)] with the [i] flag at the head of [s]: the
    alternatives are tried in order, the white space and the digits are
    taken greedily; the digits are returned. *)
Fixpoint keywordNumberAt (kws : list jsstring) (s : jsstring) : option jsstring :=
  match kws with
  | [] => None
  | kw :: kws' =>
      match
        match matchLiteral_i kw s with
        | Some r =>
            match fst (span isDigit (dropWhile isWhiteSpace r)) with
            | [] => None
            | ds => Some ds
            end
        | None => None
        end
      with
      | Some ds => Some ds
      | None => keywordNumberAt kws' s
      end
  end.

(** [text.match(/(?:above|over|greater than)\s*(\d+)/i)], group 1. *)
Definition matchAbove (text : jsstring) : option jsstring :=
  search (keywordNumberAt [str "above"; str "over"; str "greater than"]) text.

(** [text.match(/(?:under|less than|below)\s*(\d+)/i)], group 1. *)
Definition matchUnder (text : jsstring) : option jsstring :=
  search (keywordNumberAt [str "under"; str "less than"; str "below"]) text.

Definition isWordOpt (c : option N) : bool :=
  match c with Some x => isWordChar x | None => false end.

(** [\b] between the code unit [a] before a position and [b] after it. *)
Definition wordBoundary (a b : option N) : bool :=
  xorb (isWordOpt a) (isWordOpt b).

Definition lastOr (prev : option N) (lit : jsstring) : option N :=
  match rev lit with c :: _ => Some c | [] => prev end.

(** One of the alternatives, between two word boundaries, at the head of
    [s], where [prev] is the code unit before [s]. *)
Definition wordAt (alts : list jsstring) (prev : option N) (s : jsstring) : bool :=
  wordBoundary prev (hd_error s) &&
  existsb
    (fun alt =>
       match matchLiteral_i alt s with
       | Some r =>
           wordBoundary (lastOr prev (firstn (List.length alt) s)) (hd_error r)
       | None => false
       end)
    alts.

Fixpoint testWord (alts : list jsstring) (prev : option N) (s : jsstring) : bool :=
  wordAt alts prev s ||
  match s with
  | [] => false
  | c :: s' => testWord alts (Some c) s'
  end.

(** [/\b(expensive|premium|high[- ]end|luxury)\b/i.test(text)]. *)
Definition testPremium (text : jsstring) : bool :=
  testWord
    [str "expensive"; str "premium"; str "high-end"; str "high end"; str "luxury"]
    None text.

(** [Array.prototype.sort(compareFn)]: the array ordered by a consistent
    comparator, equal elements in their original order. *)
Section Sort.
Variable A : Type.
Variable compareFn : A -> A -> number.

(** [x] sorts after [y] when the comparator's result is positive. *)
Definition after (x y : A) : bool := SFltb zero (compareFn x y).

Fixpoint insert (x : A) (l : list A) : list A :=
  match l with
  | [] => [x]
  | y :: l' => if after x y then y :: insert x l' else x :: l
  end.

Fixpoint sort (l : list A) : list A :=
  match l with
  | [] => []
  | x :: l' => insert x (sort l')
  end.
End Sort.

(** The candidate set of [POST]: the received catalog without the ids
    already shown, then narrowed by at most one price filter. *)
Section Candidates.
Context {rt : Runtime}.

Definition excluded (excludeIds : option (list jsstring)) (wines : list Wine)
  : list Wine :=
  match excludeIds with
  | Some ((_ :: _) as ids) =>
      filter (fun w => negb (array_includes ids (id w))) wines
  | _ => wines
  end.

Definition percentileFilter (candidates : list Wine) : list Wine :=
  let prices :=
    sort (fun a b => sub a b) (map (fun w => parsePrice (Price w)) candidates) in
  match prices with
  | [] => candidates
  | _ :: _ =>
      let idx := floorThreeQuarters (List.length prices) in
      let threshold := nth idx prices NaN in
      filter (fun w => ge (parsePrice (Price w)) threshold) candidates
  end.

Definition priceFilter (text : jsstring) (candidates : list Wine) : list Wine :=
  match matchAbove text with
  | Some ds =>
      let threshold := parseFloat ds in
      filter (fun w => gt (parsePrice (Price w)) threshold) candidates
  | None =>
      match matchUnder text with
      | Some ds =>
          let threshold := parseFloat ds in
          filter (fun w => lt (parsePrice (Price w)) threshold) candidates
      | None =>
          if testPremium text then percentileFilter candidates else candidates
      end
  end.

Definition dataset (message : jsstring) (wines : list Wine)
           (excludeIds : option (list jsstring)) : list Wine :=
  priceFilter (toLowerCase message) (excluded excludeIds wines).
End Candidates.

(** *** Degraded mode *)

Section Fallback.
Context {rt : Runtime}.

(** [w.Color?.toLowerCase() === color]. *)
Definition colorIs (color : jsstring) (w : Wine) : bool :=
  match Color w with
  | Some c => string_eqb (toLowerCase c) color
  | None => false
  end.

(** [getSimpleFallback]: pick wines by a keyword of the message. *)
Definition getSimpleFallback (message : jsstring) (wines : list Wine) : list Wine :=
  let lower := toLowerCase message in
  let filtered :=
    if includes lower (str "red") then filter (colorIs (str "red")) wines
    else if includes lower (str "white") then filter (colorIs (str "white")) wines
    else if includes lower (str "ros") || includes lower (str "rose")
    then filter (colorIs (str "rose")) wines
    else if includes lower (str "sparkling") || includes lower (str "bubbl")
    then filter (colorIs (str "sparkling")) wines
    else [] in
  if (3 <=? List.length filtered)%nat then firstn 3 filtered
  else firstn 3 wines.
End Fallback.

Definition generateFallbackResponse (message : jsstring) (wines : list Wine)
           (language : Language) : jsstring :=
  match language with
  | en =>
      str "Based on your preferences, here are some excellent wine options from our Delhaize selection. These wines would be perfect for your needs!"
  | fr =>
      str "Bas" ++ [233%N] ++ str " sur vos pr" ++ [233%N] ++ str "f" ++ [233%N] ++
      str "rences, voici d'excellentes options de vin de notre s" ++ [233%N] ++
      str "lection Delhaize. Ces vins seraient parfaits pour vos besoins !"
  | nl =>
      str "Op basis van uw voorkeuren zijn hier enkele uitstekende wijnopties uit onze Delhaize selectie. Deze wijnen zouden perfect zijn voor uw behoeften!"
  end.

(** *** Extraction of the recommendations from the reply *)

(** [RECOMMENDED_IDS:?\s*\[([^\]]+)\]] with the [i] flag at the head of
    [s]; group 1 is returned.  Every quantifier is greedy and none can
    give a code unit back to what follows it, so the match is found
    without backtracking. *)
Definition idSectionAt (s : jsstring) : option jsstring :=
  match matchLiteral_i (str "RECOMMENDED_IDS") s with
  | Some r =>
      let r1 := match r with 58%N :: t => t | _ => r end in
      match dropWhile isWhiteSpace r1 with
      | 91%N :: t =>
          match span (fun c => negb (N.eqb c 93)) t with
          | ((_ :: _) as body, 93%N :: _) => Some body
          | _ => None
          end
      | _ => None
      end
  | None => None
  end.

(** [response.match(/RECOMMENDED_IDS:?\s*\[([^\]]+)\]/i)], group 1. *)
Definition idSection (response : jsstring) : option jsstring :=
  search idSectionAt response.

Definition nonEmpty (s : jsstring) : bool :=
  match s with [] => false | _ :: _ => true end.

(** The id list: the section split on runs of commas and white space,
    every piece without its double quotes and trimmed, the empty pieces
    dropped. *)
Definition parseIds (section : jsstring) : list jsstring :=
  filter nonEmpty
    (map (fun s => trim (removeAll (N.eqb 34) s))
       (splitOn (fun c => N.eqb c 44 || isWhiteSpace c) section)).

(** [Map]: keys in insertion order; setting a present key replaces its
    value. *)
Definition Map (V : Type) := list (jsstring * V).

Fixpoint Map_set (V : Type) (k : jsstring) (v : V) (m : Map V) : Map V :=
  match m with
  | [] => [(k, v)]
  | (k', v') :: m' =>
      if string_eqb k' k then (k', v) :: m' else (k', v') :: Map_set k v m'
  end.

Fixpoint Map_get (V : Type) (k : jsstring) (m : Map V) : option V :=
  match m with
  | [] => None
  | (k', v') :: m' => if string_eqb k' k then Some v' else Map_get k m'
  end.

(** [new Map(entries)]. *)
Definition newMap (V : Type) (entries : list (jsstring * V)) : Map V :=
  fold_left (fun m kv => Map_set (fst kv) (snd kv) m) entries [].

(** [.filter(Boolean)] on an array of objects or [undefined]. *)
Fixpoint filterDefined (A : Type) (l : list (option A)) : list A :=
  match l with
  | [] => []
  | Some x :: l' => x :: filterDefined l'
  | None :: l' => filterDefined l'
  end.

(** The wines named by the id list, in the order of the list. *)
Definition foundOrdered (section : jsstring) (wines : list Wine) : list Wine :=
  let ids := parseIds section in
  let wineMap := newMap (map (fun w => (id w, w)) wines) in
  filterDefined (map (fun i => Map_get i wineMap) ids).

(** The title pattern of the source (digits, a dot, white space, then the
    rest of the line as group 1; flags [g] and [m]) at the head of [s], a
    line start: group 1 and the length of the match. *)
Definition titleAt (s : jsstring) : option (jsstring * nat) :=
  match span isDigit s with
  | ((_ :: _) as ds, 46%N :: r2) =>
      match span isWhiteSpace r2 with
      | ((_ :: _) as ws, r3) =>
          let t := fst (span (fun c => negb (isLineTerminator c)) r3) in
          Some (t, (List.length ds + 1 + List.length ws + List.length t)%nat)
      | _ => None
      end
  | _ => None
  end.

Definition lineStart (prev : option N) : bool :=
  match prev with None => true | Some c => isLineTerminator c end.

(** The [exec] loop over the global pattern: the matches from left to
    right, each search resuming where the previous match ended; [skip]
    counts the code units of the current match still to pass. *)
Fixpoint titlesFrom (skip : nat) (prev : option N) (s : jsstring) : list jsstring :=
  match s with
  | [] => []
  | c :: s' =>
      match skip with
      | S k => titlesFrom k (Some c) s'
      | O =>
          if lineStart prev then
            match titleAt s with
            | Some (t, len) => trim t :: titlesFrom (len - 1) (Some c) s'
            | None => titlesFrom 0 (Some c) s'
            end
          else titlesFrom 0 (Some c) s'
      end
  end.

Definition titles (response : jsstring) : list jsstring :=
  titlesFrom 0 None response.

(** Combining diacritical marks, U+0300 to U+036F. *)
Definition isCombining (c : N) : bool := (768 <=? c)%N && (c <=? 879)%N.

(** Every run of white space replaced by one space. *)
Fixpoint collapseWhiteSpace (s : jsstring) : jsstring :=
  match s with
  | [] => []
  | c :: s' =>
      if isWhiteSpace c then
        match s' with
        | c' :: _ =>
            if isWhiteSpace c' then collapseWhiteSpace s'
            else 32%N :: collapseWhiteSpace s'
        | [] => [32%N]
        end
      else c :: collapseWhiteSpace s'
  end.

(** The wines as objects of the heap: [Array.prototype.includes] compares
    objects by identity, and the elements of the parsed request body are
    pairwise distinct objects, identified here by their index. *)
Definition Obj : Type := nat * Wine.

Definition objects (wines : list Wine) : list Obj :=
  combine (seq 0 (List.length wines)) wines.

Definition sameObj (a b : Obj) : bool := Nat.eqb (fst a) (fst b).

Definition includesObj (l : list Obj) (w : Obj) : bool := existsb (sameObj w) l.

Section Extract.
Context {rt : Runtime}.

(** The helper [normalize] of the source. *)
Definition normalize (text : jsstring) : jsstring :=
  trim
    (collapseWhiteSpace
       (removeAll (fun c => negb (isWordChar c || isWhiteSpace c))
          (removeAll isCombining (normalizeNFD (toLowerCase text))))).

Definition matchedByTitle (response : jsstring) (wines : list Wine) : list Wine :=
  filterDefined
    (map
       (fun title =>
          let normTitle := normalize title in
          find (fun w => startsWith (normalize (Product_name w)) normTitle) wines)
       (titles response)).

(** The loop of the third layer, in catalog order. *)
Fixpoint recsByNameLoop (responseText : jsstring) (wines recsByName : list Wine)
  : list Wine :=
  match wines with
  | [] => recsByName
  | wine :: rest =>
      if (8 <=? List.length recsByName)%nat then recsByName
      else if nonEmpty (Product_name wine) &&
              includes responseText (toLowerCase (Product_name wine))
      then recsByNameLoop responseText rest (recsByName ++ [wine])
      else recsByNameLoop responseText rest recsByName
  end.

Definition recsByName (response : jsstring) (wines : list Wine) : list Wine :=
  recsByNameLoop (toLowerCase response) wines [].

Definition nameHas (keys : list jsstring) (w : Obj) : bool :=
  existsb (fun k => includes (toLowerCase (Product_name (snd w))) k) keys.

(** The filling loop of [getIntelligentFallback]; every iteration adds
    one element or leaves the loop, so four iterations are enough. *)
Fixpoint fill (fuel : nat) (wines recommendations : list Obj) : list Obj :=
  match fuel with
  | O => recommendations
  | S fuel' =>
      if (List.length recommendations <? 4)%nat &&
         (List.length recommendations <? List.length wines)%nat
      then
        match filter (fun w => negb (includesObj recommendations w)) wines with
        | w :: _ => fill fuel' wines (recommendations ++ [w])
        | [] => recommendations
        end
      else recommendations
  end.

Definition firstOf (l : list Obj) : list Obj :=
  match l with w :: _ => [w] | [] => [] end.

Definition getIntelligentFallbackObjs (wines : list Obj) : list Obj :=
  let red :=
    filter
      (nameHas [str "rouge"; str "red"; str "merlot"; str "cabernet"; str "syrah"])
      wines in
  let white :=
    filter (nameHas [str "blanc"; str "white"; str "chardonnay"; str "sauvignon"])
      wines in
  let sparkling :=
    filter (nameHas [str "champagne"; str "mousseux"; str "brut"]) wines in
  let rose :=
    filter (nameHas [str "ros" ++ [233%N]; str "rose"; str "gris"]) wines in
  let recommendations :=
    firstOf red ++ firstOf white ++ firstOf sparkling ++ firstOf rose in
  firstn 4 (fill 4 wines recommendations).

Definition getIntelligentFallback (wines : list Wine) : list Wine :=
  map snd (getIntelligentFallbackObjs (objects wines)).

Definition extractRecommendationsFromResponse (response : jsstring)
           (wines : list Wine) : list Wine :=
  let byId :=
    match idSection response with
    | Some section => foundOrdered section wines
    | None => []
    end in
  match byId with
  | _ :: _ => firstn 8 byId
  | [] =>
      match matchedByTitle response wines with
      | (_ :: _) as byTitle => firstn 8 byTitle
      | [] =>
          match recsByName response wines with
          | (_ :: _) as byName => byName
          | [] => getIntelligentFallback wines
          end
      end
  end.
End Extract.

(** *** The handler *)

Record Response := mkResponse {
  message : jsstring;
  recommendations : list Wine
}.

(** A handler run: it ends with a value, or calls the completion service
    and continues with the outcome, [None] when the call throws. *)
Inductive Prog (A : Type) : Type :=
| Ret (a : A)
| GenerateText (k : option jsstring -> Prog A).

Arguments Ret {A} a.
Arguments GenerateText {A} k.

(** The number of completion calls of a run is at most [n], whatever the
    service answers. *)
Fixpoint atMostCalls (A : Type) (n : nat) (p : Prog A) : Prop :=
  match p with
  | Ret _ => True
  | GenerateText k =>
      match n with
      | O => False
      | S n' => forall r, atMostCalls n' (k r)
      end
  end.

(** A run against given outcomes of the calls. *)
Fixpoint run (A : Type) (p : Prog A) (outcomes : list (option jsstring)) : option A :=
  match p with
  | Ret a => Some a
  | GenerateText k =>
      match outcomes with
      | r :: outcomes' => run (k r) outcomes'
      | [] => None
      end
  end.

Section Handler.
Context {rt : Runtime}.

Definition degraded (msg : jsstring) (language : Language) (wines : list Wine)
  : Response :=
  {| message := generateFallbackResponse msg wines language;
     recommendations := getSimpleFallback msg wines |}.

Definition POST (apiKey : bool) (msg : jsstring) (language : Language)
           (wines : list Wine) (excludeIds : option (list jsstring))
  : Prog Response :=
  let dataset := dataset msg wines excludeIds in
  if negb apiKey then Ret (degraded msg language wines)
  else
    GenerateText
      (fun outcome =>
         match outcome with
         | Some text =>
             let recommendations :=
               extractRecommendationsFromResponse text dataset in
             let recs :=
               match recommendations with
               | _ :: _ => recommendations
               | [] => getSimpleFallback msg dataset
               end in
             Ret {| message := text; recommendations := recs |}
         | None => Ret (degraded msg language wines)
         end).
End Handler.

End Route.

Import Route.

(** ** Pagination in the chat widget ([WineChatbot]) *)

Module Chat.

(** The messages of the conversation; the text of the plain messages
    plays no part in pagination and is not kept. *)
Inductive ChatMessage :=
| UserText
| AssistantText
| FoodSuggestions (pairs : list jsstring)
| WineRecommendations (recs : list Wine) (startIndex : nat)
| ShowMore.

Record State := mkState {
  messages : list ChatMessage;
  shownIds : list jsstring;
  lastRecs : list Wine;
  fetches : nat
}.

(** [Array.prototype.slice(start, end)]. *)
Definition slice (A : Type) (l : list A) (start stop : nat) : list A :=
  firstn (stop - start) (skipn start l).

(** [handleShowMore]: the next batch of the prefetched list. *)
Definition handleShowMore (st : State) : State :=
  let start := List.length (shownIds st) in
  let nextBatch := slice (lastRecs st) start (start + 4) in
  match nextBatch with
  | [] => st
  | _ :: _ =>
      let recMsg := WineRecommendations nextBatch start in
      let more :=
        if (start + List.length nextBatch <? List.length (lastRecs st))%nat
        then [ShowMore] else [] in
      {| messages := (messages st ++ [recMsg]) ++ more;
         shownIds := shownIds st ++ map id nextBatch;
         lastRecs := lastRecs st;
         fetches := fetches st |}
  end.

(** [Array.from(new Set(l))]: the first occurrences, in order. *)
Fixpoint unique (seen l : list jsstring) : list jsstring :=
  match l with
  | [] => []
  | x :: l' =>
      if array_includes seen x then unique seen l'
      else x :: unique (x :: seen) l'
  end.

Section Submit.
Context {rt : Runtime}.

Definition colorKey (lowerQuery : jsstring) : option jsstring :=
  if includes lowerQuery (str "red") then Some (str "red")
  else if includes lowerQuery (str "white") then Some (str "white")
  else if includes lowerQuery (str "ros") then Some (str "rose")
  else if includes lowerQuery (str "sparkling") || includes lowerQuery (str "bubbl")
  then Some (str "sparkling")
  else None.

(** The list kept for pagination: the recommendations padded up to 16
    with catalog wines not yet in it, of the colour asked for if any. *)
Definition fullRecs (userQuery : jsstring) (catalog recs : list Wine) : list Wine :=
  if (List.length recs <? 16)%nat then
    let key := colorKey (toLowerCase userQuery) in
    let remaining :=
      filter
        (fun w =>
           negb (existsb (fun r => string_eqb (id r) (id w)) recs) &&
           match key with
           | Some k => colorIs k w
           | None => true
           end)
        catalog in
    recs ++ firstn (16 - List.length recs) remaining
  else recs.

(** [handleSubmit]: a blank input is ignored; otherwise the user message
    is added and the pagination state reset, the endpoint is fetched once,
    and the response, [None] for a failed fetch, is rendered. *)
Definition handleSubmit (catalog : list Wine) (input : jsstring)
           (result : option Response) (st : State) : State :=
  let userQuery := trim input in
  match userQuery with
  | [] => st
  | _ :: _ =>
      let msgs0 := messages st ++ [UserText] in
      match result with
      | None =>
          {| messages := msgs0 ++ [AssistantText];
             shownIds := [];
             lastRecs := lastRecs st;
             fetches := S (fetches st) |}
      | Some res =>
          let msgs1 := msgs0 ++ [AssistantText] in
          match recommendations res with
          | [] =>
              {| messages := msgs1;
                 shownIds := [];
                 lastRecs := lastRecs st;
                 fetches := S (fetches st) |}
          | (_ :: _) as recs =>
              let full := fullRecs userQuery catalog recs in
              let uniquePairs :=
                firstn 4 (unique [] (flat_map food_pairing recs)) in
              let msgs2 :=
                match uniquePairs with
                | [] => msgs1
                | _ :: _ => msgs1 ++ [FoodSuggestions uniquePairs]
                end in
              let initialRecs := slice full 0 4 in
              let msgs3 := msgs2 ++ [WineRecommendations initialRecs 0] in
              let msgs4 :=
                if (List.length initialRecs <? List.length full)%nat
                then msgs3 ++ [ShowMore] else msgs3 in
              {| messages := msgs4;
                 shownIds := map id initialRecs;
                 lastRecs := full;
                 fetches := S (fetches st) |}
          end
      end
  end.
End Submit.

End Chat.

(** ** The cart store ([src/utils/delhaize-cart.ts]) *)

Module Cart.
Import Num.

Record CartItem := mkItem {
  wine : Wine;
  quantity : number;
  addedAt : nat
}.

Definition MAX_CART_ITEMS : nat := 20.

(** [items.findIndex(item => item.wine.URL === url)]. *)
Fixpoint findIndex (url : jsstring) (items : list CartItem) : option nat :=
  match items with
  | [] => None
  | item :: rest =>
      if string_eqb (URL (wine item)) url then Some O
      else option_map S (findIndex url rest)
  end.

(** An update of the entry at a valid index. *)
Fixpoint updateAt (i : nat) (f : CartItem -> CartItem) (items : list CartItem)
  : list CartItem :=
  match items, i with
  | [], _ => []
  | item :: rest, O => f item :: rest
  | item :: rest, S j => item :: updateAt j f rest
  end.

(** [addItem] at time [now]: the new items and the returned flag. The
    quantity of an entry is a Number, and [+=] is the addition of
    Numbers. *)
Definition addItem (now : nat) (w : Wine) (q : number) (items : list CartItem)
  : list CartItem * bool :=
  match findIndex (URL w) items with
  | Some existingIndex =>
      (updateAt existingIndex
         (fun item =>
            {| wine := wine item; quantity := add (quantity item) q;
               addedAt := now |})
         items,
       true)
  | None =>
      if (MAX_CART_ITEMS <=? List.length items)%nat then (items, false)
      else (items ++ [{| wine := w; quantity := q; addedAt := now |}], true)
  end.

Definition removeItem (wineUrl : jsstring) (items : list CartItem) : list CartItem :=
  filter (fun item => negb (string_eqb (URL (wine item)) wineUrl)) items.

(** [quantity <= 0] is the comparison of Numbers: it is false of a
    fraction between 0 and 1 and of NaN, which are stored. *)
Definition updateQuantity (wineUrl : jsstring) (q : number) (items : list CartItem)
  : list CartItem :=
  match findIndex wineUrl items with
  | Some index =>
      if le q zero then removeItem wineUrl items
      else
        updateAt index
          (fun item =>
             {| wine := wine item; quantity := q; addedAt := addedAt item |})
          items
  | None => items
  end.

(** The calls a client makes on the store. *)
Inductive Op :=
| AddItem (now : nat) (w : Wine) (q : number)
| RemoveItem (wineUrl : jsstring)
| UpdateQuantity (wineUrl : jsstring) (q : number).

Definition step (items : list CartItem) (op : Op) : list CartItem :=
  match op with
  | AddItem now w q => fst (addItem now w q items)
  | RemoveItem u => removeItem u items
  | UpdateQuantity u q => updateQuantity u q items
  end.


End Cart.

(** ** The specification's vocabulary

    Definitions written after the words of the specification, to be
    compared with the ones taken from the source, and the predicates the
    statements below are phrased with. *)

Module Spec.

(** The price intent of a query: one class at most, the first that
    matches in the order above, under, premium. *)
Inductive PriceIntent :=
| Above (n : number)
| Under (n : number)
| Premium
| NoIntent.

Definition intent (text : jsstring) : PriceIntent :=
  match matchAbove text with
  | Some ds => Above (parseFloat ds)
  | None =>
      match matchUnder text with
      | Some ds => Under (parseFloat ds)
      | None => if testPremium text then Premium else NoIntent
      end
  end.

Definition price (w : Wine) : number := parsePrice (Price w).

(** The 75th percentile of a price list: the element at index
    floor(0.75 * n) of the list sorted in ascending order. *)
Definition percentile75 (prices : list number) : number :=
  nth (floorThreeQuarters (List.length prices))
    (sort (fun a b => sub a b) prices) NaN.


(** *** The price intent of a query, in the words of the specification *)

(** Two code units that are the same letter without regard to the case of
    the Basic Latin letters. *)
Definition sameLetter (a b : N) : Prop :=
  a = b \/
  (isUpper a = true /\ b = (a + 32)%N) \/
  (isUpper b = true /\ a = (b + 32)%N).

(** [s] reads as [word], letter for letter. *)
Definition readsAs (s word : jsstring) : Prop := Forall2 sameLetter s word.

Definition aboveWords : list jsstring :=
  [str "above"; str "over"; str "greater than"].

Definition underWords : list jsstring :=
  [str "under"; str "less than"; str "below"].

Definition premiumWords : list jsstring :=
  [str "expensive"; str "premium"; str "high-end"; str "high end"; str "luxury"].

(** At offset [i] the text reads one of the words, then white space, if
    any, then the digits [ds], and no further digit. *)
Definition numberAfter (words : list jsstring) (text : jsstring) (i : nat)
           (ds : jsstring) : Prop :=
  exists pre k ws rest word,
    text = pre ++ k ++ ws ++ ds ++ rest /\ List.length pre = i /\
    In word words /\ readsAs k word /\
    Forall (fun c => isWhiteSpace c = true) ws /\
    ds <> [] /\ Forall (fun c => isDigit c = true) ds /\
    match rest with c :: _ => isDigit c = false | [] => True end.

(** The digits of the first place of the text where a word is followed
    by a number. *)
Definition firstNumberAfter (words : list jsstring) (text ds : jsstring) : Prop :=
  exists i, numberAfter words text i ds /\
            forall j ds', (j < i)%nat -> ~ numberAfter words text j ds'.

Definition noNumberAfter (words : list jsstring) (text : jsstring) : Prop :=
  forall i ds, ~ numberAfter words text i ds.

(** No letter, digit or underscore: where a word can begin or end. *)
Definition endOfWord (c : option N) : Prop :=
  match c with Some x => isWordChar x = false | None => True end.

(** The text contains one of the words as a whole word. *)
Definition hasWord (words : list jsstring) (text : jsstring) : Prop :=
  exists pre k rest word,
    text = pre ++ k ++ rest /\ In word words /\ readsAs k word /\
    endOfWord (hd_error (rev pre)) /\ endOfWord (hd_error rest).

(** The natural number that a string of digits writes, and its Number. *)
Definition decimalValue (ds : jsstring) : N :=
  fold_right (fun d acc => (10 * acc + (d - 48))%N) 0%N (rev ds).

Definition numeral (ds : jsstring) : number :=
  Num.ofDecimal false (decimalValue ds) 0.

(** What a query asks of the prices: the first class that applies, in
    the order above, under, premium. *)
Inductive PriceQuery (text : jsstring) : PriceIntent -> Prop :=
| QueryAbove (ds : jsstring) :
    firstNumberAfter aboveWords text ds ->
    PriceQuery text (Above (numeral ds))
| QueryUnder (ds : jsstring) :
    noNumberAfter aboveWords text ->
    firstNumberAfter underWords text ds ->
    PriceQuery text (Under (numeral ds))
| QueryPremium :
    noNumberAfter aboveWords text ->
    noNumberAfter underWords text ->
    hasWord premiumWords text ->
    PriceQuery text Premium
| QueryNone :
    noNumberAfter aboveWords text ->
    noNumberAfter underWords text ->
    ~ hasWord premiumWords text ->
    PriceQuery text NoIntent.

(** [a] may stand before [b] in ascending order: [a] is not greater than
    [b]. *)
Definition inOrder (a b : number) : Prop := Num.gt a b = false.

(** The 75th percentile of a price list: the element at index
    floor(0.75 * n) of an ascending arrangement of the [n] prices. *)
Definition Percentile75 (prices : list number) (t : number) : Prop :=
  exists sorted i,
    Permutation sorted prices /\
    Sorted.Sorted inOrder sorted /\
    (4 * i <= 3 * List.length prices < 4 * (i + 1))%nat /\
    nth_error sorted i = Some t.

(** The ids a request excludes; none when it carries no list. *)
Definition excludedIds (excludeIds : option (list jsstring)) : list jsstring :=
  match excludeIds with Some ids => ids | None => [] end.

(** What is left of the candidates for a price intent. *)
Definition Filtered (candidates : list Wine) (i : PriceIntent)
           (result : list Wine) : Prop :=
  match i with
  | Above n => result = filter (fun w => gt (price w) n) candidates
  | Under n => result = filter (fun w => lt (price w) n) candidates
  | Premium =>
      match candidates with
      | [] => result = []
      | _ :: _ =>
          exists t, Percentile75 (map price candidates) t /\
                    result = filter (fun w => ge (price w) t) candidates
      end
  | NoIntent => result = candidates
  end.



(** A wine is named by the reply: its non-empty lower-cased display name
    occurs in the lower-cased reply. *)
Definition named {rt : Runtime} (response : jsstring) (w : Wine) : bool :=
  nonEmpty (Product_name w) &&
  includes (toLowerCase response) (toLowerCase (Product_name w)).


(** The list separators of the marker line: comma and white space. *)
Definition idSeparator (c : N) : bool := N.eqb c 44 || isWhiteSpace c.

(** An id as the prompt asks for it: not empty, without separator and
    without double quote. *)
Definition plainId (i : jsstring) : Prop :=
  i <> [] /\ Forall (fun c => idSeparator c = false /\ N.eqb 34 c = false) i.

(** The bracketed list the prompt asks for: the ids between double quotes,
    separated by a comma and a space. *)
Fixpoint markerBody (ids : list jsstring) : jsstring :=
  match ids with
  | [] => []
  | [i] => [34%N] ++ i ++ [34%N]
  | i :: rest => [34%N] ++ i ++ [34%N] ++ [44%N; 32%N] ++ markerBody rest
  end.



(** The colour named by the query: the first keyword found, in the order
    red, white, rose, sparkling. *)
Definition keywordColor (lower : jsstring) : option jsstring :=
  if includes lower (str "red") then Some (str "red")
  else if includes lower (str "white") then Some (str "white")
  else if includes lower (str "ros") then Some (str "rose")
  else if includes lower (str "sparkling") || includes lower (str "bubbl")
  then Some (str "sparkling")
  else None.

(** The degraded recommendation set as the specification words it: the
    first three wines of the keyword's colour, or the first three wines
    of the catalog without a keyword. *)
Definition colourFallback {rt : Runtime} (msg : jsstring) (wines : list Wine)
  : list Wine :=
  match keywordColor (toLowerCase msg) with
  | Some c => firstn 3 (filter (colorIs c) wines)
  | None => firstn 3 wines
  end.

(** A state in the middle of a pagination: the list [L] is kept and the
    first [k] of its wines have been shown. *)
Definition paged (L : list Wine) (k : nat) (st : Chat.State) : Prop :=
  Chat.lastRecs st = L /\
  Chat.shownIds st = map id (firstn k L) /\
  (k <= List.length L)%nat.



(** A quantity within 1..10. *)
Definition inRange (q : number) : Prop :=
  Num.le Num.one q = true /\ Num.le q Num.ten = true.



(** A Number that is at least 1. *)
Definition atLeastOne (q : number) : Prop :=
  Num.valid q = true /\ Num.le Num.one q = true.


End Spec.

(** ** Sample data *)

Module Examples.

Definition wine (i name price : string) (color : string) : Wine :=
  {| id := str i; Product_name := str name; Price := str price;
     Color := Some (str color); URL := str ("https://shop.example/" ++ i);
     food_pairing := [] |}.

Definition merlotReserve : Wine := wine "w-01" "Merlot Reserve" "18,00" "Red".
Definition merlot : Wine := wine "w-02" "Merlot" "9,99" "Red".
Definition syrah : Wine := wine "w-03" "Syrah" "12,50" "Red".
Definition chablis : Wine := wine "w-04" "Chablis" "22,00" "White".
Definition riesling : Wine := wine "w-05" "Riesling" "14,00" "White".

Definition cellar : list Wine := [merlotReserve; merlot; syrah; chablis; riesling].

Definition quoted (s : string) : jsstring := [34%N] ++ str s ++ [34%N].

(** A reply that ends with the marker line: three known ids and an
    unknown one. *)
Definition markerReply : jsstring :=
  str "Here is my selection." ++ [10%N] ++
  str "RECOMMENDED_IDS: [" ++ quoted "w-03" ++ str ", " ++ quoted "zz-99" ++
  str ", " ++ quoted "w-01" ++ str ", " ++ quoted "w-05" ++ str "]".

(** A reply whose marker line names no id of the catalog. *)
Definition unknownReply : jsstring :=
  str "RECOMMENDED_IDS: [" ++ quoted "zz-99" ++ str "]".



(** A catalog with two red wines only. *)
Definition twoReds : list Wine := [chablis; merlot; syrah; riesling].

(** Ten wines, and a response that recommends the first three of them. *)
Definition tenWines : list Wine :=
  map
    (fun c =>
       {| id := str "id-" ++ [c]; Product_name := str "Cuvee " ++ [c];
          Price := str "10,00"; Color := Some (str "red");
          URL := str "https://shop.example/" ++ [c]; food_pairing := [] |})
    (str "abcdefghij").

Definition threeRecs : Response :=
  {| message := str "Three wines for you."; recommendations := firstn 3 tenWines |}.


Definition freshChat : Chat.State :=
  {| Chat.messages := []; Chat.shownIds := []; Chat.lastRecs := [];
     Chat.fetches := 0 |}.

End Examples.

(** ** Queries on the cart store ([src/utils/delhaize-cart.ts]) *)

Module CartQueries.
Import Num Cart.

(** [getItemCount]: the quantities summed up from 0, from the first entry
    on, each sum rounded to a Number. *)
Definition getItemCount (items : list CartItem) : number :=
  fold_left (fun total item => add total (quantity item)) items zero.

(** [isInCart]: some entry has the URL. *)
Definition isInCart (wineUrl : jsstring) (items : list CartItem) : bool :=
  existsb (fun item => string_eqb (URL (wine item)) wineUrl) items.

(** [getItemQuantity]: the quantity of the first entry with the URL, 0
    without one. *)
Definition getItemQuantity (wineUrl : jsstring) (items : list CartItem) : number :=
  match find (fun item => string_eqb (URL (wine item)) wineUrl) items with
  | Some item => quantity item
  | None => zero
  end.

Definition clearCart (items : list CartItem) : list CartItem := [].

End CartQueries.

(** ** The product popup ([src/components/wine-popup.tsx])

    The popup keeps a flag and a quantity selector of its own beside the
    shared cart store; its handlers are the functions of the component,
    and a click reaches a handler only through a control that is rendered
    and enabled. *)

Module WinePopup.
Import Num Cart CartQueries.

Record State := mkState {
  items : list CartItem;
  wine : Wine;
  isAddedToCart : bool;
  quantity : number
}.

(** The effect that runs when the popup opens for [w]:
    [setIsAddedToCart(isInCart(w.URL))] and
    [setQuantity(getItemQuantity(w.URL) || 1)]. *)
Definition openEffect (w : Wine) (st : State) : State :=
  {| items := items st;
     wine := w;
     isAddedToCart := isInCart (URL w) (items st);
     quantity := orElse (getItemQuantity (URL w) (items st)) one |}.

Definition handleAddToCart (now : nat) (st : State) : State :=
  let '(items', success) := addItem now (wine st) (quantity st) (items st) in
  {| items := items';
     wine := wine st;
     isAddedToCart := if success then true else isAddedToCart st;
     quantity := quantity st |}.

Definition handleQuantityChange (newQuantity : number) (st : State) : State :=
  if (ge newQuantity one && le newQuantity ten)%bool then
    {| items :=
         if isAddedToCart st
         then updateQuantity (URL (wine st)) newQuantity (items st)
         else items st;
       wine := wine st;
       isAddedToCart := isAddedToCart st;
       quantity := newQuantity |}
  else st.

Definition handleRemoveFromCart (st : State) : State :=
  {| items := removeItem (URL (wine st)) (items st);
     wine := wine st;
     isAddedToCart := false;
     quantity := one |}.

(** What happens to an open popup: it is opened for a wine, or one of its
    controls is clicked. *)
Inductive Event :=
| Open (w : Wine)
| ClickAdd (now : nat)
| ClickMinus
| ClickPlus
| ClickRemove.

(** The add button is rendered while the flag is off and the remove
    button while it is on; the minus button is disabled while
    [quantity <= 1], the plus button while [quantity >= 10]. *)
Definition step (st : State) (ev : Event) : State :=
  match ev with
  | Open w => openEffect w st
  | ClickAdd now => if isAddedToCart st then st else handleAddToCart now st
  | ClickMinus =>
      if le (quantity st) one then st
      else handleQuantityChange (sub (quantity st) one) st
  | ClickPlus =>
      if ge (quantity st) ten then st
      else handleQuantityChange (add (quantity st) one) st
  | ClickRemove => if isAddedToCart st then handleRemoveFromCart st else st
  end.

(** The popup before it is opened for the first time, over the cart
    [cart]. *)
Definition closed (cart : list CartItem) (w : Wine) : State :=
  {| items := cart; wine := w; isAddedToCart := false; quantity := one |}.

(** The popup agrees with the cart: the flag tells whether the wine is in
    the cart, the selector shows its quantity there when it is, the
    selector is at least 1, and so is every quantity of the cart. *)
Definition inSync (st : State) : Prop :=
  isAddedToCart st = isInCart (URL (wine st)) (items st) /\
  (isAddedToCart st = true ->
   getItemQuantity (URL (wine st)) (items st) = quantity st) /\
  le one (quantity st) = true /\
  Forall (fun item => le one (Cart.quantity item) = true) (items st).

(** The selector and every quantity of the cart are at most 10. *)
Definition inRange (st : State) : Prop :=
  le (quantity st) ten = true /\
  Forall (fun item => le (Cart.quantity item) ten = true) (items st).

End WinePopup.

(** ** The comparison table ([src/components/compare-popup.tsx])

    The cart button of a row calls [addItem(wine)], with the default
    quantity 1, and ignores the returned flag. *)

Module ComparePopup.
Import Num Cart.

Definition handleAddClick (w : Wine) (items : list CartItem) (now : nat)
  : list CartItem :=
  fst (addItem now w one items).

(** The clicks on the button of one row, at the times [clicks]. *)
Definition handleAddClicks (w : Wine) (clicks : list nat) (items : list CartItem)
  : list CartItem :=
  fold_left (handleAddClick w) clicks items.

End ComparePopup.

(** ** The suggestion chips of the chat widget ([updateSuggestions])

    [topSuggestions] and [fallbackSuggestions] are what the suggestion
    store returns for the language. *)

Module Suggestions.
Section Suggestions.
Context {rt : Runtime}.

(** [stored.toLowerCase().trim() === fallback.toLowerCase().trim()]. *)
Definition sameSuggestion (stored fallback : jsstring) : bool :=
  string_eqb (trim (toLowerCase stored)) (trim (toLowerCase fallback)).

(** The padding loop: the first [remaining] fallbacks are visited, and
    each one the list does not include yet is pushed. *)
Fixpoint pad (remaining : nat) (allFallbacks finalSuggestions : list jsstring)
  : list jsstring :=
  match remaining, allFallbacks with
  | S remaining', fallback :: rest =>
      pad remaining' rest
        (if array_includes finalSuggestions fallback then finalSuggestions
         else finalSuggestions ++ [fallback])
  | _, _ => finalSuggestions
  end.

(** [updateSuggestions]: the list handed to [setDynamicSuggestions]. *)
Definition updateSuggestions (topSuggestions fallbackSuggestions : list jsstring)
  : list jsstring :=
  let finalSuggestions :=
    if (6 <=? List.length topSuggestions)%nat then Chat.slice topSuggestions 0 6
    else
      let needed := (6 - List.length topSuggestions)%nat in
      let availableFallbacks :=
        filter
          (fun fallback =>
             negb (existsb (fun stored => sameSuggestion stored fallback)
                     topSuggestions))
          fallbackSuggestions in
      topSuggestions ++ Chat.slice availableFallbacks 0 needed in
  let finalSuggestions :=
    if (List.length finalSuggestions <? 6)%nat
    then pad (6 - List.length finalSuggestions) fallbackSuggestions finalSuggestions
    else finalSuggestions in
  Chat.slice finalSuggestions 0 6.

End Suggestions.
End Suggestions.

(** ** A query of the chat widget answered by the endpoint

    [handleSubmit] posts the trimmed input, the catalog and the ids shown
    so far to the endpoint; [outcomes] are the answers of the completion
    service to the endpoint. *)

Module Session.
Section Session.
Context {rt : Runtime}.

Definition ask (apiKey : bool) (language : Language) (catalog : list Wine)
           (outcomes : list (option jsstring)) (input : jsstring)
           (st : Chat.State) : Chat.State :=
  Chat.handleSubmit catalog input
    (run (POST apiKey (trim input) language catalog (Some (Chat.shownIds st)))
       outcomes)
    st.

End Session.
End Session.

(** ** A session of the chat widget

    What the user does with an open chat: a query is submitted, with the
    outcome of its fetch, or a show-more button is clicked, which takes a
    show-more message to carry the button. *)

Module ChatSession.
Import Chat.

Inductive Event :=
| Submit (input : jsstring) (result : option Response)
| ClickShowMore.

Definition isShowMore (m : ChatMessage) : bool :=
  match m with ShowMore => true | _ => false end.

Definition step {rt : Runtime} (catalog : list Wine) (st : State) (ev : Event)
  : State :=
  match ev with
  | Submit input result => handleSubmit catalog input result st
  | ClickShowMore =>
      if existsb isShowMore (messages st) then handleShowMore st else st
  end.




End ChatSession.

(** ** The numbered list of a reply

    The lines [n. title] of a reply, each closed by a line feed, as the
    titles layer of the extractor expects them. *)

Module ReplyFormat.

Definition numberedLine (line : jsstring * jsstring) : jsstring :=
  fst line ++ str ". " ++ snd line ++ [10%N].

Definition numberedLines (lines : list (jsstring * jsstring)) : jsstring :=
  flat_map numberedLine lines.

(** A line number is a non-empty run of digits; a title starts with a
    code unit that is not white space and holds no line terminator. *)
Definition wellFormedLine (line : jsstring * jsstring) : Prop :=
  fst line <> [] /\
  Forall (fun c => isDigit c = true) (fst line) /\
  (exists c t, snd line = c :: t /\ isWhiteSpace c = false) /\
  Forall (fun c => isLineTerminator c = false) (snd line).

End ReplyFormat.

(** ** More sample data *)

Module MoreExamples.

(** The English fallback suggestions of the suggestion store. *)
Definition fallbacksEn : list jsstring :=
  [str "I need a red wine under " ++ [8364%N] ++ str "15";
   str "What wine pairs well with seafood?";
   str "Could you recommend a Champagne for celebration?";
   str "I'm looking for a budget-friendly white wine for dinner";
   str "What would be the best wine for a romantic evening?";
   str "Which wine pairs well with cheese?"].

(** An entry with a whole number of bottles. *)
Definition item (w : Wine) (q : Z) : Cart.CartItem :=
  {| Cart.wine := w; Cart.quantity := Num.ofZ q; Cart.addedAt := 0 |}.



(** The chat after a first query answered with [Examples.threeRecs]. *)
Definition afterFirstQuery : Chat.State :=
  Chat.handleSubmit (rt := asciiRuntime) Examples.tenWines (str "something nice")
    (Some Examples.threeRecs) Examples.freshChat.

End MoreExamples.
(** * Properties *)

Import Num Route.

(** ** Arithmetic of Numbers

    Rounding to nearest is monotone: a sum or a difference that is at
    least [2^53] units of its last place is rounded to a neighbour on the
    grid of that place, and no Number lies strictly between two
    neighbours. *)

Unset Implicit Arguments.
Import Binary64.
Local Open Scope Z_scope.

   
Lemma fexp_eq (e : Z) : fexp prec emax e = Z.max (e - 53) (-1074).
Proof. reflexivity. Qed.

Lemma digits2_size (p : positive) : digits2_pos p = Pos.size p.
Proof. induction p; simpl; congruence. Qed.

Lemma digits_log2 (p : positive) : Zpos (digits2_pos p) = Z.log2 (Zpos p) + 1.
Proof.
  rewrite digits2_size.
  assert (H1 := Pos.size_gt p). assert (H2 := Pos.size_le p).
  apply Pos2Z.pos_lt_pos in H1. apply Pos2Z.pos_le_pos in H2.
  rewrite Pos2Z.inj_pow in H1, H2.
  symmetry. apply Z.add_move_r. apply Z.log2_unique; [lia|].
  replace (Z.succ (Z.pos (Pos.size p) - 1)) with (Z.pos (Pos.size p)) by lia.
  split; [|exact H1].
  assert (E : 2 ^ Z.pos (Pos.size p) = 2 * 2 ^ (Z.pos (Pos.size p) - 1)).
  { rewrite <- Z.pow_succ_r by lia. f_equal. lia. }
  rewrite E in H2. change (Z.pos p~0) with (2 * Z.pos p) in H2. lia.
Qed.

Lemma Zdigits2_log2 (z : Z) : 0 < z -> Zdigits2 z = Z.log2 z + 1.
Proof. destruct z; try lia. intros _. apply digits_log2. Qed.

Lemma iter_pos_nat {A : Type} (f : A -> A) (n : positive) (x : A) :
  iter_pos f n x = Nat.iter (Pos.to_nat n) f x.
Proof.
  revert x. induction n as [n IH|n IH|]; intros x; cbn [iter_pos].
  - rewrite !IH, Pos2Nat.inj_xI, <- Nat.iter_add, <- Nat.iter_succ_r. f_equal. lia.
  - rewrite !IH, Pos2Nat.inj_xO, <- Nat.iter_add. f_equal. lia.
  - reflexivity.
Qed.

Lemma shr_1_spec (m : Z) (r s : bool) : 0 <= m ->
  shr_1 (Build_shr_record m r s) = Build_shr_record (m / 2) (Z.odd m) (r || s).
Proof.
  intros Hm. rewrite <- Z.div2_div.
  destruct m as [|[p|p|]|p]; try reflexivity. lia.
Qed.

Lemma iter_shr (k : nat) (M : Z) (r s : bool) : 0 <= M ->
  exists r' s',
    Nat.iter k shr_1 (Build_shr_record M r s) = Build_shr_record (M / 2 ^ Z.of_nat k) r' s' /\
    (M mod 2 ^ Z.of_nat k = 0 -> r || s = false -> r' = false /\ s' = false).
Proof.
  intros HM. induction k as [|k IH].
  - exists r, s. change (Nat.iter 0 shr_1 ?x) with x. change (2 ^ Z.of_nat 0) with 1.
    rewrite Z.div_1_r. split; [reflexivity|].
    intros _ H. now apply orb_false_iff in H.
  - destruct IH as (r' & s' & E & H). rewrite Nat.iter_succ, E.
    assert (Hp : 0 < 2 ^ Z.of_nat k) by (apply Z.pow_pos_nonneg; lia).
    rewrite shr_1_spec by (apply Z.div_pos; lia).
    assert (E2 : 2 ^ Z.of_nat (S k) = 2 ^ Z.of_nat k * 2).
    { rewrite Nat2Z.inj_succ, Z.pow_succ_r by lia. lia. }
    exists (Z.odd (M / 2 ^ Z.of_nat k)), (r' || s'). split.
    + rewrite E2, Z.div_div by lia. reflexivity.
    + intros H0 Hrs. rewrite E2, Z.rem_mul_r in H0 by lia.
      assert (H1 := Z.mod_pos_bound M (2 ^ Z.of_nat k) Hp).
      assert (H2 := Z.mod_pos_bound (M / 2 ^ Z.of_nat k) 2 ltac:(lia)).
      assert (M mod 2 ^ Z.of_nat k = 0) by nia.
      assert ((M / 2 ^ Z.of_nat k) mod 2 = 0) by nia.
      destruct (H ltac:(assumption) Hrs) as [-> ->]. split; [|reflexivity].
      rewrite Zmod_odd in *. destruct (Z.odd (M / 2 ^ Z.of_nat k)); [lia|reflexivity].
Qed.

Lemma shr_spec (M : Z) (e : Z) (n : positive) : 0 <= M ->
  exists r s,
    shr (Build_shr_record M false false) e (Zpos n) =
      (Build_shr_record (M / 2 ^ Zpos n) r s, e + Zpos n) /\
    (M mod 2 ^ Zpos n = 0 -> r = false /\ s = false).
Proof.
  intros HM. unfold shr. rewrite iter_pos_nat.
  destruct (iter_shr (Pos.to_nat n) M false false HM) as (r & s & E & H).
  rewrite positive_nat_Z in E, H. exists r, s. rewrite E. split; [reflexivity|].
  intros H0. now apply H.
Qed.

Lemma round_nearest_even_spec (q : Z) (r s : bool) :
  let m1 := round_nearest_even q (loc_of_shr_record (Build_shr_record q r s)) in
  (m1 = q \/ m1 = q + 1) /\ (r = false /\ s = false -> m1 = q).
Proof.
  cbv zeta. unfold round_nearest_even, loc_of_shr_record.
  destruct r, s; cbn; try destruct (Z.even q); split; auto; intros [? ?]; discriminate.
Qed.

Lemma log2_big (M : Z) (k : Z) : 0 <= k -> 2 ^ k <= M -> k <= Z.log2 M.
Proof.
  intros Hk H. rewrite <- (Z.log2_pow2 k Hk). now apply Z.log2_le_mono.
Qed.

Lemma binary_round_big (M : positive) (E : Z) :
  2 ^ 53 <= Zpos M -> -1074 <= E ->
  let n := Z.log2 (Zpos M) - 52 in
  let q := Zpos M / 2 ^ n in
  exists m1, (m1 = q \/ m1 = q + 1) /\ (Zpos M mod 2 ^ n = 0 -> m1 = q) /\
    binary_round prec emax false M E =
      if m1 =? 2 ^ 53
      then (if E + n + 1 <=? 971 then S754_finite false (2 ^ 52)%positive (E + n + 1)
            else S754_infinity false)
      else (if E + n <=? 971 then S754_finite false (Z.to_pos m1) (E + n)
            else S754_infinity false).
Proof.
  intros HM HE n q.
  assert (Hlog : 53 <= Z.log2 (Zpos M)) by (apply log2_big; [lia|exact HM]).
  assert (Hn : 0 < n) by (unfold n; lia).
  unfold binary_round. rewrite digits_log2, fexp_eq.
  replace (Z.max (Z.log2 (Z.pos M) + 1 + E - 53) (-1074)) with (E + n) by (unfold n; lia).
  unfold shl_align. replace (E + n - E) with n by lia.
  destruct n as [|pn|pn] eqn:En; try lia.
  unfold binary_round_aux, shr_fexp.
  rewrite Zdigits2_log2 by lia. rewrite fexp_eq.
  replace (Z.max (Z.log2 (Z.pos M) + 1 + E - 53) (-1074) - E) with (Zpos pn) by lia.
  unfold shr_record_of_loc.
  destruct (shr_spec (Zpos M) E pn ltac:(lia)) as (r & s & Es & Hex).
  rewrite Es. fold q.
  destruct (round_nearest_even_spec q r s) as [Hm1 Hexact].
  set (m1 := round_nearest_even q _) in *.
  exists m1. split; [exact Hm1|]. split; [intros H0; apply Hexact, Hex, H0|].
  assert (Hq : 2 ^ 52 <= q < 2 ^ 53).
  { destruct (Z.log2_spec (Zpos M) ltac:(lia)) as [L1 L2].
    assert (Ep : forall k, 0 <= k -> 2 ^ (k + Zpos pn) = 2 ^ Zpos pn * 2 ^ k).
    { intros k Hk. rewrite Z.pow_add_r by lia. lia. }
    replace (Z.log2 (Z.pos M)) with (52 + Zpos pn) in L1 by lia.
    replace (Z.succ (Z.log2 (Z.pos M))) with (53 + Zpos pn) in L2 by lia.
    rewrite Ep in L1, L2 by lia.
    assert (0 < 2 ^ Zpos pn) by (apply Z.pow_pos_nonneg; lia).
    unfold q. split.
    - apply Z.div_le_lower_bound; lia.
    - apply Z.div_lt_upper_bound; lia. }
  change (shr_m {| shr_m := q; shr_r := r; shr_s := s |}) with q. fold m1.
  assert (Hm1r : 2 ^ 52 <= m1 <= 2 ^ 53) by lia.
  clearbody m1. clear Es Hex Hexact Hm1.
  rewrite Zdigits2_log2, fexp_eq by lia.
  destruct (Z.eqb_spec m1 (2 ^ 53)) as [->|Hne].
  - rewrite Z.log2_pow2 by lia.
    replace (Z.max (53 + 1 + (E + Z.pos pn) - 53) (-1074) - (E + Z.pos pn)) with 1 by lia.
    change (emax - prec) with 971. reflexivity.
  - assert (Z.log2 m1 = 52).
    { apply Z.log2_unique; [lia|]. change (2 ^ (52 + 1)) with (2 ^ 53). lia. }
    replace (Z.max (Z.log2 m1 + 1 + (E + Z.pos pn) - 53) (-1074) - (E + Z.pos pn)) with 0 by lia.
    change (emax - prec) with 971. cbn [shr shr_m].
    destruct m1 as [|p|p]; try lia. reflexivity.
Qed.

 
Lemma bounded_spec (m : positive) (e : Z) :
  bounded prec emax m e = true <->
  Z.max (Z.log2 (Zpos m) + 1 + e - 53) (-1074) = e /\ e <= 971.
Proof.
  unfold bounded, canonical_mantissa. rewrite digits_log2, fexp_eq.
  change (emax - prec) with 971.
  rewrite andb_true_iff, Z.eqb_eq, Z.leb_le. reflexivity.
Qed.

Lemma bounded_facts (m : positive) (e : Z) : bounded prec emax m e = true ->
  -1074 <= e <= 971 /\ Zpos m < 2 ^ 53 /\ (-1074 < e -> 2 ^ 52 <= Zpos m).
Proof.
  intros H. apply bounded_spec in H. destruct H as [H1 H2].
  destruct (Z.log2_spec (Zpos m) ltac:(lia)) as [L1 L2].
  assert (Hl : Z.log2 (Zpos m) <= 52) by lia.
  assert (0 <= Z.log2 (Zpos m)) by apply Z.log2_nonneg.
  split; [lia|]. split.
  - apply Z.lt_le_trans with (1 := L2). apply Z.pow_le_mono_r; lia.
  - intros He. replace (Z.log2 (Zpos m)) with 52 in L1 by lia. exact L1.
Qed.

Lemma pow_split (a b : Z) : 0 <= a -> 0 <= b -> 2 ^ (a + b) = 2 ^ a * 2 ^ b.
Proof. intros. now apply Z.pow_add_r. Qed.

Lemma pow_pos (a : Z) : 0 <= a -> 0 < 2 ^ a.
Proof. intros. apply Z.pow_pos_nonneg; lia. Qed.

Lemma W_lt_exp (m1 m2 : positive) (e1 e2 : Z) :
  bounded prec emax m1 e1 = true -> bounded prec emax m2 e2 = true ->
  e1 < e2 -> scaled m1 e1 < scaled m2 e2.
Proof.
  intros B1 B2 He. apply bounded_facts in B1, B2.
  destruct B1 as (R1 & U1 & _), B2 as (R2 & _ & L2).
  specialize (L2 ltac:(lia)). unfold scaled.
  replace (e2 + 1074) with ((e1 + 1074) + 1 + (e2 - e1 - 1)) by lia.
  rewrite (pow_split (e1 + 1074 + 1)), (pow_split (e1 + 1074) 1) by lia.
  assert (0 < 2 ^ (e1 + 1074)) by (apply pow_pos; lia).
  assert (0 < 2 ^ (e2 - e1 - 1)) by (apply pow_pos; lia).
  change (2 ^ 1) with 2. change (2 ^ 53) with (2 * 2 ^ 52) in U1.
  set (a := 2 ^ (e1 + 1074)) in *. set (b := 2 ^ (e2 - e1 - 1)) in *.
  set (c := 2 ^ 52) in *.
  assert (Z.pos m1 * a < 2 * c * a) by nia.
  assert (c * a <= Z.pos m2 * a) by nia.
  assert (Z.pos m2 * a * 2 * 1 <= Z.pos m2 * a * 2 * b) by nia.
  nia.
Qed.

Lemma SFcompare_W (m1 m2 : positive) (e1 e2 : Z) :
  bounded prec emax m1 e1 = true -> bounded prec emax m2 e2 = true ->
  SFcompare (S754_finite false m1 e1) (S754_finite false m2 e2) = Some (scaled m1 e1 ?= scaled m2 e2).
Proof.
  intros B1 B2. cbn [SFcompare]. f_equal.
  destruct (Z.compare_spec e1 e2) as [->|H|H].
  - unfold scaled. assert (H := bounded_facts _ _ B2).
    assert (0 < 2 ^ (e2 + 1074)) by (apply pow_pos; lia).
    rewrite <- Zmult_compare_compat_r by lia. reflexivity.
  - symmetry. apply Z.compare_lt_iff. now apply W_lt_exp.
  - symmetry. apply Z.compare_gt_iff. now apply W_lt_exp.
Qed.

Lemma SFleb_W (m1 m2 : positive) (e1 e2 : Z) :
  bounded prec emax m1 e1 = true -> bounded prec emax m2 e2 = true ->
  SFleb (S754_finite false m1 e1) (S754_finite false m2 e2) = (scaled m1 e1 <=? scaled m2 e2).
Proof.
  intros B1 B2. unfold SFleb. rewrite SFcompare_W by assumption.
  unfold Z.leb. now destruct (scaled m1 e1 ?= scaled m2 e2).
Qed.

Lemma SFltb_W (m1 m2 : positive) (e1 e2 : Z) :
  bounded prec emax m1 e1 = true -> bounded prec emax m2 e2 = true ->
  SFltb (S754_finite false m1 e1) (S754_finite false m2 e2) = (scaled m1 e1 <? scaled m2 e2).
Proof.
  intros B1 B2. unfold SFltb. rewrite SFcompare_W by assumption.
  unfold Z.ltb. now destruct (scaled m1 e1 ?= scaled m2 e2).
Qed.

(* no representable value lies strictly between two neighbours of the grid *)
Lemma grid (mB : positive) (eB k q : Z) :
  bounded prec emax mB eB = true -> 0 <= k -> 2 ^ 52 <= q ->
  (scaled mB eB < (q + 1) * 2 ^ k -> scaled mB eB <= q * 2 ^ k) /\
  (q * 2 ^ k < scaled mB eB -> (q + 1) * 2 ^ k <= scaled mB eB).
Proof.
  intros B Hk Hq. apply bounded_facts in B. destruct B as (R & U & _).
  assert (Hu : 0 < 2 ^ k) by now apply pow_pos.
  unfold scaled. destruct (Z.le_gt_cases k (eB + 1074)) as [Hc|Hc].
  - replace (eB + 1074) with ((eB + 1074 - k) + k) by lia.
    rewrite pow_split by lia.
    assert (0 < 2 ^ (eB + 1074 - k)) by (apply pow_pos; lia).
    rewrite Z.mul_assoc. set (c := Z.pos mB * 2 ^ (eB + 1074 - k)).
    split; intros H0.
    + apply Z.mul_lt_mono_pos_r in H0; [|exact Hu].
      apply Z.mul_le_mono_nonneg_r; lia.
    + apply Z.mul_lt_mono_pos_r in H0; [|exact Hu].
      apply Z.mul_le_mono_nonneg_r; lia.
  - assert (Z.pos mB * 2 ^ (eB + 1074) < q * 2 ^ k).
    { replace k with ((eB + 1074) + 1 + (k - (eB + 1074) - 1)) by lia.
      rewrite (pow_split (eB + 1074 + 1)), (pow_split (eB + 1074) 1) by lia.
      change (2 ^ 1) with 2.
      assert (0 < 2 ^ (eB + 1074)) by (apply pow_pos; lia).
      assert (0 < 2 ^ (k - (eB + 1074) - 1)) by (apply pow_pos; lia).
      change (2 ^ 53) with (2 * 2 ^ 52) in U.
      set (a := 2 ^ (eB + 1074)) in *. set (b := 2 ^ (k - (eB + 1074) - 1)) in *.
      set (c := 2 ^ 52) in *.
      assert (Z.pos mB * a < 2 * c * a) by nia.
      assert (2 * c * a <= 2 * q * a) by nia.
      assert (2 * q * a * 1 <= 2 * q * a * b) by nia.
      nia. }
    split; intros H0; nia.
Qed.

Lemma bounded_normal (m : Z) (e : Z) :
  2 ^ 52 <= m < 2 ^ 53 -> -1074 <= e <= 971 -> bounded prec emax (Z.to_pos m) e = true.
Proof.
  intros Hm He. apply bounded_spec. rewrite Z2Pos.id by lia.
  assert (Z.log2 m = 52).
  { apply Z.log2_unique; [lia|]. change (2 ^ (52 + 1)) with (2 ^ 53). lia. }
  lia.
Qed.

Lemma SFleb_infinity (m : positive) (e : Z) :
  SFleb (S754_finite false m e) (S754_infinity false) = true.
Proof. reflexivity. Qed.

 
Lemma top_pos : 0 < top.
Proof. apply pow_pos. lia. Qed.

Lemma top_succ : 2 ^ (972 + 1074) = 2 * top.
Proof. unfold top. rewrite <- Z.pow_succ_r by lia. reflexivity. Qed.

Lemma top_upper (e : Z) : e <= 971 + 1074 -> 2 ^ e <= top.
Proof. intros H. destruct (Z.le_gt_cases 0 e).
  - apply Z.pow_le_mono_r; lia.
  - rewrite Z.pow_neg_r by lia. apply Z.lt_le_incl, pow_pos. lia.
Qed.

Lemma top_lower (e : Z) : 971 + 1074 <= e -> top <= 2 ^ e.
Proof. intros H. apply Z.pow_le_mono_r; lia. Qed.

Lemma top_lower2 (e : Z) : 972 + 1074 <= e -> 2 * top <= 2 ^ e.
Proof. intros H. rewrite <- top_succ. apply Z.pow_le_mono_r; lia. Qed.

Opaque top.

Lemma arith_scale_lt (m a b c : Z) : 0 <= m < c -> 0 < a <= b -> m * a < c * b.
Proof. intros. nia. Qed.

Lemma no_overflow (b w m u c v : Z) :
  w < 2 ^ 53 * b -> m * u <= w -> 0 <= c <= m -> 0 <= v <= u -> 2 ^ 53 * b = c * v -> False.
Proof.
  intros H1 H2 H3 H4 H5.
  assert (c * v <= m * u) by (apply Z.mul_le_mono_nonneg; lia). lia.
Qed.

Lemma round_mono (M : positive) (E : Z) :
  2 ^ 53 <= Zpos M -> -1074 <= E ->
  let r := binary_round prec emax false M E in
  valid_binary prec emax r = true /\
  (r = S754_infinity false \/ exists m e, r = S754_finite false m e /\ 2 ^ 52 <= Zpos m) /\
  (forall mB eB, bounded prec emax mB eB = true ->
     scaled mB eB <= Zpos M * 2 ^ (E + 1074) -> SFleb (S754_finite false mB eB) r = true) /\
  (forall mB eB, bounded prec emax mB eB = true ->
     Zpos M * 2 ^ (E + 1074) <= scaled mB eB -> SFleb r (S754_finite false mB eB) = true).
Proof.
  intros HM HE r.
  destruct (binary_round_big M E HM HE) as (m1 & Hm1 & Hexact & Er).
  fold r in Er.
  assert (Hlog : 53 <= Z.log2 (Zpos M)) by (apply log2_big; [lia|exact HM]).
  set (n := Z.log2 (Zpos M) - 52) in *.
  set (q := Zpos M / 2 ^ n) in *.
  assert (Hn : 0 < n) by (unfold n; lia).
  assert (Hq : 2 ^ 52 <= q < 2 ^ 53).
  { destruct (Z.log2_spec (Zpos M) ltac:(lia)) as [L1 L2].
    replace (Z.log2 (Z.pos M)) with (n + 52) in L1 by (unfold n; lia).
    replace (Z.succ (Z.log2 (Z.pos M))) with (n + 53) in L2 by (unfold n; lia).
    rewrite pow_split in L1, L2 by lia.
    assert (0 < 2 ^ n) by (apply pow_pos; lia).
    unfold q. split.
    - apply Z.div_le_lower_bound; lia.
    - apply Z.div_lt_upper_bound; lia. }
  set (k := E + n + 1074).
  assert (Hk : 0 <= k) by (unfold k; lia).
  set (u := 2 ^ k).
  assert (Hu : 0 < u) by (apply pow_pos; exact Hk).
  set (X := Zpos M * 2 ^ (E + 1074)).
  assert (HX : q * u <= X < (q + 1) * u /\ (m1 = q + 1 -> q * u < X)).
  { assert (Eu : u = 2 ^ n * 2 ^ (E + 1074)).
    { unfold u, k. replace (E + n + 1074) with (n + (E + 1074)) by lia.
      apply pow_split; lia. }
    assert (Hp : 0 < 2 ^ n) by (apply pow_pos; lia).
    assert (Hp' : 0 < 2 ^ (E + 1074)) by (apply pow_pos; lia).
    assert (Hd := Z.div_mod (Zpos M) (2 ^ n) ltac:(lia)). fold q in Hd.
    assert (Hr := Z.mod_pos_bound (Zpos M) (2 ^ n) Hp).
    set (rem := Zpos M mod 2 ^ n) in *.
    unfold X. rewrite Eu. set (a := 2 ^ n) in *. set (b := 2 ^ (E + 1074)) in *.
    rewrite Hd. split; [split; nia|].
    intros H1. assert (rem <> 0) by (intros H0; specialize (Hexact H0); lia). nia. }
  destruct HX as [HX HX'].
  assert (Wr : forall m e, r = S754_finite false m e ->
             scaled m e = m1 * u /\ bounded prec emax m e = true /\ 2 ^ 52 <= Zpos m).
  { intros m e Hr. rewrite Er in Hr.
    destruct (Z.eqb_spec m1 (2 ^ 53)) as [E1|E1].
    - destruct (Z.leb_spec (E + n + 1) 971); [|discriminate].
      injection Hr as <- <-. split; [|split].
      + unfold scaled, u, k. rewrite E1.
        replace (E + n + 1 + 1074) with (1 + (E + n + 1074)) by lia.
        rewrite pow_split by lia. change (2 ^ 53) with (2 ^ 52 * 2 ^ 1).
        rewrite Pos2Z.inj_pow. lia.
      + apply bounded_spec. rewrite Pos2Z.inj_pow, Z.log2_pow2 by lia. lia.
      + rewrite Pos2Z.inj_pow. lia.
    - destruct (Z.leb_spec (E + n) 971); [|discriminate].
      injection Hr as <- <-. split; [|split].
      + unfold scaled, u, k. rewrite Z2Pos.id by lia. reflexivity.
      + apply bounded_normal; lia.
      + rewrite Z2Pos.id by lia. lia. }
  assert (Shape : r = S754_infinity false \/ exists m e, r = S754_finite false m e).
  { rewrite Er. destruct (m1 =? 2 ^ 53).
    - destruct (E + n + 1 <=? 971); [right|left]; eauto.
    - destruct (E + n <=? 971); [right|left]; eauto. }
  split; [|split; [|split]].
  - destruct Shape as [->|(m & e & Hr)]; [reflexivity|].
    rewrite Hr. exact (proj1 (proj2 (Wr m e Hr))).
  - destruct Shape as [->|(m & e & Hr)]; [now left|right].
    exists m, e. split; [exact Hr|exact (proj2 (proj2 (Wr m e Hr)))].
  - intros mB eB HB Hle.
    destruct Shape as [->|(m & e & Hr)]; [reflexivity|].
    destruct (Wr m e Hr) as (Ew & Hb & _). rewrite Hr, SFleb_W by assumption.
    apply Z.leb_le. rewrite Ew.
    destruct (grid mB eB k q HB Hk ltac:(lia)) as [G _].
    fold u in G. specialize (G ltac:(lia)). nia.
  - intros mB eB HB Hle.
    assert (Hv : m1 * u <= scaled mB eB).
    { destruct (grid mB eB k q HB Hk ltac:(lia)) as [_ G]. fold u in G.
      destruct Hm1 as [->| ->]; [lia|].
      specialize (HX' eq_refl). apply G. lia. }
    assert (Hfin : exists m e, r = S754_finite false m e).
    { destruct (bounded_facts _ _ HB) as (Re & Um & _).
      assert (HWB : scaled mB eB < 2 ^ 53 * top).
      { unfold scaled. apply arith_scale_lt; [lia|]. split; [apply pow_pos; lia|].
        apply top_upper; lia. }
      rewrite Er. destruct (Z.eqb_spec m1 (2 ^ 53)) as [E1|E1].
      + destruct (Z.leb_spec (E + n + 1) 971); [eauto|exfalso].
        apply (no_overflow top (scaled mB eB) m1 u (2 ^ 53) top); try assumption;
          [lia| |reflexivity].
        split; [apply Z.lt_le_incl, top_pos|].
        apply top_lower; unfold k; lia.
      + destruct (Z.leb_spec (E + n) 971); [eauto|exfalso].
        apply (no_overflow top (scaled mB eB) m1 u (2 ^ 52) (2 * top)); try assumption;
          [lia| |lia].
        split; [assert (H1 := top_pos); lia|].
        apply top_lower2; unfold k; lia. }
    destruct Hfin as (m & e & Hr).
    destruct (Wr m e Hr) as (Ew & Hb & _). rewrite Hr, SFleb_W by assumption.
    apply Z.leb_le. rewrite Ew. exact Hv.
Qed.

Lemma shl_align_spec (m : positive) (e e' : Z) : e' <= e ->
  Zpos (fst (shl_align m e e')) = Zpos m * 2 ^ (e - e') /\ snd (shl_align m e e') = e'.
Proof.
  intros H. unfold shl_align. destruct (e' - e) as [|d|d] eqn:Ed; try lia.
  - replace (e - e') with 0 by lia. cbn [fst snd]. split; lia.
  - cbn [fst snd]. split; [|reflexivity].
    change (Pos.iter xO m d) with (shift_pos d m). rewrite shift_pos_correct.
    replace (e - e') with (Zpos d) by lia. rewrite Z.mul_comm. reflexivity.
Qed.


Lemma W_shift (m : positive) (e ez : Z) : -1074 <= ez <= e ->
  Zpos m * 2 ^ (e - ez) * 2 ^ (ez + 1074) = scaled m e.
Proof.
  intros H. unfold scaled. rewrite <- Z.mul_assoc, <- pow_split by lia.
  do 2 f_equal. lia.
Qed.

 
Lemma SFadd_mono (ma mb : positive) (ea eb : Z) :
  bounded prec emax ma ea = true -> bounded prec emax mb eb = true ->
  2 ^ 52 <= Zpos ma -> 2 ^ 52 <= Zpos mb ->
  let r := SFadd prec emax (S754_finite false ma ea) (S754_finite false mb eb) in
  normal r /\
  (forall mB eB, bounded prec emax mB eB = true ->
     scaled mB eB <= scaled ma ea + scaled mb eb -> SFleb (S754_finite false mB eB) r = true) /\
  (forall mB eB, bounded prec emax mB eB = true ->
     scaled ma ea + scaled mb eb <= scaled mB eB -> SFleb r (S754_finite false mB eB) = true).
Proof.
  intros Ba Bb Na Nb r.
  destruct (bounded_facts _ _ Ba) as (Ra & _ & _).
  destruct (bounded_facts _ _ Bb) as (Rb & _ & _).
  unfold r, SFadd. cbv zeta. cbn [cond_Zopp].
  set (ez := Z.min ea eb).
  destruct (shl_align_spec ma ea ez ltac:(unfold ez; lia)) as [Ea _].
  destruct (shl_align_spec mb eb ez ltac:(unfold ez; lia)) as [Eb _].
  assert (Pa : 1 <= 2 ^ (ea - ez)) by (assert (0 < 2 ^ (ea - ez)) by (apply pow_pos; unfold ez; lia); lia).
  assert (Pb : 1 <= 2 ^ (eb - ez)) by (assert (0 < 2 ^ (eb - ez)) by (apply pow_pos; unfold ez; lia); lia).
  assert (EX : (Zpos (fst (shl_align ma ea ez)) + Zpos (fst (shl_align mb eb ez))) * 2 ^ (ez + 1074)
               = scaled ma ea + scaled mb eb).
  { rewrite Ea, Eb, Z.mul_add_distr_r, !W_shift by (unfold ez; lia). reflexivity. }
  assert (HM : 2 ^ 53 <= Zpos (fst (shl_align ma ea ez)) + Zpos (fst (shl_align mb eb ez))).
  { rewrite Ea, Eb. change (2 ^ 53) with (2 ^ 52 + 2 ^ 52).
    apply Z.add_le_mono.
    - rewrite <- (Z.mul_1_r (2 ^ 52)). apply Z.mul_le_mono_nonneg; lia.
    - rewrite <- (Z.mul_1_r (2 ^ 52)). apply Z.mul_le_mono_nonneg; lia. }
  change (Zpos (fst (shl_align ma ea ez)) + Zpos (fst (shl_align mb eb ez)))
    with (Zpos (fst (shl_align ma ea ez) + fst (shl_align mb eb ez))) in *.
  set (M := (fst (shl_align ma ea ez) + fst (shl_align mb eb ez))%positive) in *.
  cbn [binary_normalize].
  destruct (round_mono M ez HM ltac:(unfold ez; lia)) as (V & S & Lo & Hi).
  rewrite EX in Lo, Hi. split; [|split; assumption].
  destruct S as [S|(m & e & S & Hm)]; [now left|right].
  exists m, e. rewrite S in V. auto.
Qed.

 
Lemma binary_round_small (M : positive) :
  Zpos M < 2 ^ 53 ->
  exists m e, binary_round prec emax false M 0 = S754_finite false m e /\
    bounded prec emax m e = true /\ 2 ^ 52 <= Zpos m /\ scaled m e = Zpos M * 2 ^ 1074.
Proof.
  intros HM.
  assert (Hl : 0 <= Z.log2 (Zpos M) <= 52).
  { split; [apply Z.log2_nonneg|]. apply Z.lt_succ_r, Z.log2_lt_pow2; [lia|exact HM]. }
  set (e0 := Z.log2 (Zpos M) - 52).
  destruct (shl_align_spec M 0 e0 ltac:(unfold e0; lia)) as [Em Ee].
  set (M' := fst (shl_align M 0 e0)) in *.
  assert (Hlog : Z.log2 (Zpos M') = 52).
  { rewrite Em, Z.log2_mul_pow2 by (unfold e0; lia). unfold e0. lia. }
  assert (HM' : 2 ^ 52 <= Zpos M' < 2 ^ 53).
  { destruct (Z.log2_spec (Zpos M') ltac:(lia)) as [L1 L2]. rewrite Hlog in L1, L2.
    exact (conj L1 L2). }
  exists M', e0. split; [|split; [|split]].
  - unfold binary_round. rewrite digits_log2, fexp_eq.
    replace (Z.max (Z.log2 (Z.pos M) + 1 + 0 - 53) (-1074)) with e0 by (unfold e0; lia).
    rewrite (surjective_pairing (shl_align M 0 e0)). fold M'. rewrite Ee.
    unfold binary_round_aux, shr_fexp. rewrite Zdigits2_log2, fexp_eq, Hlog by lia.
    replace (Z.max (52 + 1 + e0 - 53) (-1074) - e0) with 0 by (unfold e0; lia).
    cbn [shr shr_record_of_loc shr_m loc_of_shr_record shr_r shr_s round_nearest_even].
    rewrite Zdigits2_log2, fexp_eq, Hlog by lia.
    replace (Z.max (52 + 1 + e0 - 53) (-1074) - e0) with 0 by (unfold e0; lia).
    cbn [shr shr_m]. change (emax - prec) with 971.
    destruct (Z.leb_spec e0 971); [reflexivity|unfold e0 in *; lia].
  - replace M' with (Z.to_pos (Zpos M')) by apply Pos2Z.id.
    apply bounded_normal; [exact HM'|unfold e0; lia].
  - apply HM'.
  - unfold scaled. rewrite Em. rewrite <- Z.mul_assoc, <- pow_split by (unfold e0; lia).
    do 2 f_equal. lia.
Qed.

Lemma ofZ_spec (k : Z) : 1 <= k <= 2 ^ 53 ->
  exists m e, ofZ k = S754_finite false m e /\
    bounded prec emax m e = true /\ 2 ^ 52 <= Zpos m /\ scaled m e = k * 2 ^ 1074.
Proof.
  intros Hk. destruct (Z.eq_dec k (2 ^ 53)) as [->|Hne].
  - exists (2 ^ 52)%positive, 1. split; [reflexivity|]. split; [reflexivity|].
    split; [rewrite Pos2Z.inj_pow; lia|].
    unfold scaled. rewrite Pos2Z.inj_pow. rewrite (pow_split 1 1074) by lia.
    change (2 ^ 53) with (2 ^ 52 * 2 ^ 1). lia.
  - destruct k as [|p|p]; try lia. apply binary_round_small. lia.
Qed.

  



Lemma atLeastOne_cases (x : number) : Spec.atLeastOne x ->
  x = S754_infinity false \/
  exists m e, x = S754_finite false m e /\ bounded prec emax m e = true /\
              2 ^ 52 <= Zpos m /\ 2 ^ 1074 <= scaled m e.
Proof.
  intros [V L]. unfold valid, le, one in V, L.
  destruct x as [s|s| |s m e]; try discriminate.
  - destruct s; [discriminate|now left].
  - destruct s; [discriminate|]. right. exists m, e. cbn [valid_binary] in V.
    destruct (ofZ_spec 1 ltac:(lia)) as (m1 & e1 & E1 & B1 & N1 & W1).
    rewrite E1, SFleb_W in L by assumption. apply Z.leb_le in L.
    rewrite W1, Z.mul_1_l in L.
    split; [reflexivity|]. split; [exact V|]. split; [|exact L].
    destruct (bounded_facts _ _ V) as (R & U & N). apply N.
    destruct (Z.le_gt_cases e (-1074)); [exfalso|lia].
    unfold scaled in L. replace (e + 1074) with 0 in L by lia.
    change (2 ^ 0) with 1 in L. rewrite Z.mul_1_r in L.
    assert (2 ^ 53 < 2 ^ 1074) by (apply Z.pow_lt_mono_r; lia). lia.
Qed.


Lemma SFsub_mono (ma mb : positive) (ea eb : Z) :
  bounded prec emax ma ea = true -> bounded prec emax mb eb = true ->
  2 ^ 53 * 2 ^ (Z.min ea eb + 1074) <= scaled ma ea - scaled mb eb ->
  let r := SFsub prec emax (S754_finite false ma ea) (S754_finite false mb eb) in
  normal r /\
  (forall mB eB, bounded prec emax mB eB = true ->
     scaled mB eB <= scaled ma ea - scaled mb eb -> SFleb (S754_finite false mB eB) r = true) /\
  (forall mB eB, bounded prec emax mB eB = true ->
     scaled ma ea - scaled mb eb <= scaled mB eB -> SFleb r (S754_finite false mB eB) = true).
Proof.
  intros Ba Bb Hd r.
  destruct (bounded_facts _ _ Ba) as (Ra & _ & _).
  destruct (bounded_facts _ _ Bb) as (Rb & _ & _).
  unfold r, SFsub. cbv zeta. cbn [cond_Zopp].
  set (ez := Z.min ea eb) in *.
  destruct (shl_align_spec ma ea ez ltac:(unfold ez; lia)) as [Ea _].
  destruct (shl_align_spec mb eb ez ltac:(unfold ez; lia)) as [Eb _].
  assert (Hp : 0 < 2 ^ (ez + 1074)) by (apply pow_pos; unfold ez; lia).
  assert (EX : (Zpos (fst (shl_align ma ea ez)) - Zpos (fst (shl_align mb eb ez))) * 2 ^ (ez + 1074)
               = scaled ma ea - scaled mb eb).
  { rewrite Ea, Eb, Z.mul_sub_distr_r, !W_shift by (unfold ez; lia). reflexivity. }
  assert (HM : 2 ^ 53 <= Zpos (fst (shl_align ma ea ez)) - Zpos (fst (shl_align mb eb ez))).
  { rewrite <- EX in Hd. apply Z.mul_le_mono_pos_r in Hd; assumption. }
  destruct (Zpos (fst (shl_align ma ea ez)) - Zpos (fst (shl_align mb eb ez))) as [|M|M] eqn:EM;
    try lia.
  cbn [binary_normalize].
  destruct (round_mono M ez HM ltac:(unfold ez; lia)) as (V & S & Lo & Hi).
  rewrite EX in Lo, Hi. split; [|split; assumption].
  destruct S as [S|(m & e & S & Hm)]; [now left|right].
  exists m, e. rewrite S in V. auto.
Qed.

Lemma sub_one_above (q : number) :
  valid_binary prec emax q = true -> SFleb (ofZ 12) q = true ->
  SFleb (sub q (ofZ 1)) (ofZ 10) = false.
Proof.
  intros V L. destruct q as [[|]|[|]| |[|] m e]; try discriminate; try reflexivity.
  cbn [valid_binary] in V.
  destruct (ofZ_spec 12 ltac:(lia)) as (m12 & e12 & E12 & B12 & N12 & W12).
  destruct (ofZ_spec 11 ltac:(lia)) as (m11 & e11 & E11 & B11 & N11 & W11).
  destruct (ofZ_spec 10 ltac:(lia)) as (m10 & e10 & E10 & B10 & N10 & W10).
  rewrite E12, SFleb_W in L by assumption. apply Z.leb_le in L. rewrite W12 in L.
  assert (E1 : ofZ 1 = S754_finite false (2 ^ 52) (-52)) by reflexivity.
  assert (B1 : bounded prec emax (2 ^ 52) (-52) = true) by reflexivity.
  assert (W1 : scaled (2 ^ 52) (-52) = 2 ^ 1074).
  { unfold scaled. rewrite Pos2Z.inj_pow, <- pow_split by lia. reflexivity. }
  assert (P : 0 < 2 ^ 1074) by (apply pow_pos; lia).
  assert (He : -52 <= e).
  { destruct (Z.le_gt_cases (-52) e) as [H|H]; [exact H|exfalso].
    destruct (bounded_facts _ _ V) as (R & U & _).
    assert (scaled m e < 2 ^ 53 * 2 ^ 1022).
    { unfold scaled. apply arith_scale_lt; [lia|]. split; [apply pow_pos; lia|].
      apply Z.pow_le_mono_r; lia. }
    replace 1074 with (52 + 1022) in L by lia. rewrite pow_split in L by lia.
    assert (0 < 2 ^ 1022) by (apply pow_pos; lia).
    set (a := 2 ^ 1022) in *. clearbody a. lia. }
  rewrite E1, E10. unfold sub.
  destruct (SFsub_mono m (2 ^ 52) e (-52) V B1) as (S & Lo & _).
  { rewrite W1, Z.min_r by lia. replace (-52 + 1074) with 1022 by lia.
    replace 1074 with (52 + 1022) in L |- * by lia. rewrite pow_split in L |- * by lia.
    assert (0 < 2 ^ 1022) by (apply pow_pos; lia).
    set (a := 2 ^ 1022) in *. clearbody a. lia. }
  specialize (Lo m11 e11 B11 ltac:(rewrite W1, W11; set (a := 2 ^ 1074) in *; clearbody a; lia)).
  destruct S as [->|(m' & e' & S & B' & _)]; [reflexivity|].
  rewrite S in Lo |- *. rewrite SFleb_W in Lo |- * by assumption.
  apply Z.leb_le in Lo. apply Z.leb_gt. rewrite W10. rewrite W11 in Lo.
  set (a := 2 ^ 1074) in *. clearbody a. lia.
Qed.

 
 
Lemma inRange_cases (q : number) :
  Spec.atLeastOne q -> SFleb q (ofZ 10) = true ->
  exists m e, q = S754_finite false m e /\ bounded prec emax m e = true /\
    2 ^ 52 <= Zpos m /\ 2 ^ 1074 <= scaled m e <= 10 * 2 ^ 1074.
Proof.
  intros H1 U.
  destruct (atLeastOne_cases q H1) as [->|(m & e & -> & B & N & Lo)];
    [discriminate|].
  exists m, e. repeat split; try assumption.
  destruct (ofZ_spec 10 ltac:(lia)) as (m10 & e10 & E10 & B10 & N10 & W10).
  rewrite E10, SFleb_W in U by assumption. apply Z.leb_le in U. now rewrite W10 in U.
Qed.

Lemma sum_step (k : Z) (c q : number) :
  0 <= k -> k + 1 <= 2 ^ 49 -> sumInv k c ->
  Spec.atLeastOne q -> SFleb q (ofZ 10) = true -> sumInv (k + 1) (add c q).
Proof.
  intros Hk Hb Hc Hq Hq'. right. split; [lia|].
  destruct (inRange_cases q Hq Hq') as (mq & eq & -> & Bq & Nq & Wq).
  assert (P : 0 < 2 ^ 1074) by (apply pow_pos; lia).
  destruct Hc as [[-> ->]|(H1 & mc & ec & -> & Bc & Nc & Wc)].
  - exists mq, eq. cbn [add SFadd]. repeat split; try assumption; lia.
  - destruct (SFadd_mono mc mq ec eq Bc Bq Nc Nq) as (S & Lo & Hi).
    destruct (ofZ_spec (k + 1) ltac:(lia)) as (ml & el & El & Bl & Nl & Wl).
    destruct (ofZ_spec (10 * (k + 1)) ltac:(lia)) as (mh & eh & Eh & Bh & Nh & Wh).
    set (a := 2 ^ 1074) in *. clearbody a.
    specialize (Lo ml el Bl ltac:(lia)). specialize (Hi mh eh Bh ltac:(lia)).
    unfold add. destruct S as [S|(m & e & S & B & N)]; [rewrite S in Hi; discriminate|].
    rewrite S in *. rewrite SFleb_W in Lo, Hi by assumption.
    apply Z.leb_le in Lo, Hi. exists m, e. repeat split; try assumption; lia.
Qed.

Lemma sum_bounds (qs : list number) :
  Forall (fun q => Spec.atLeastOne q /\ SFleb q (ofZ 10) = true) qs ->
  Z.of_nat (List.length qs) <= 2 ^ 49 ->
  sumInv (Z.of_nat (List.length qs)) (fold_left add qs (S754_zero false)).
Proof.
  induction qs as [|q qs IH] using rev_ind; intros HF Hl.
  - left. split; reflexivity.
  - rewrite fold_left_app. cbn [fold_left]. rewrite length_app in *. cbn [List.length] in *.
    apply Forall_app in HF. destruct HF as [HF Hq]. inversion Hq; subst.
    replace (Z.of_nat (List.length qs + 1)) with (Z.of_nat (List.length qs) + 1) in * by lia.
    destruct H1 as [H1 H1']. apply sum_step; [lia|lia| |assumption|assumption].
    apply IH; [assumption|lia].
Qed.

Lemma sumInv_le (k : Z) (c : number) : 0 <= k -> 10 * k <= 2 ^ 53 -> sumInv k c ->
  SFleb (ofZ k) c = true /\ SFleb c (ofZ (10 * k)) = true /\ (c = S754_zero false <-> k = 0).
Proof.
  intros Hk Hb [[-> ->]|(H1 & m & e & -> & B & N & Wc)].
  - repeat split; reflexivity.
  - destruct (ofZ_spec k ltac:(lia)) as (ml & el & El & Bl & Nl & Wl).
    destruct (ofZ_spec (10 * k) ltac:(lia)) as (mh & eh & Eh & Bh & Nh & Wh).
    rewrite El, Eh, !SFleb_W by assumption. rewrite !Z.leb_le.
    split; [lia|]. split; [lia|]. split; [discriminate|lia].
Qed.

Local Close Scope Z_scope.
Set Implicit Arguments.

(** ** Strings and numbers *)

Lemma string_eqb_eq (a b : jsstring) : string_eqb a b = true <-> a = b.
Proof.
  revert b; induction a as [|x a IH]; intros [|y b]; simpl; split;
    try congruence; try reflexivity.
  - intros H. apply andb_true_iff in H as [Hx Hab].
    apply N.eqb_eq in Hx. apply IH in Hab. congruence.
  - intros H. injection H as -> ->. rewrite N.eqb_refl. simpl. now apply IH.
Qed.

Lemma string_eqb_refl (a : jsstring) : string_eqb a a = true.
Proof. now apply string_eqb_eq. Qed.


Lemma array_includes_In (l : list jsstring) (x : jsstring) :
  array_includes l x = true <-> In x l.
Proof.
  unfold array_includes. rewrite existsb_exists. split.
  - intros (y & Hy & E). apply string_eqb_eq in E. now subst.
  - intros H. exists x. split; [assumption | apply string_eqb_refl].
Qed.

Lemma orElse_not_nan (x y : number) : isNaN y = false -> isNaN (orElse x y) = false.
Proof. unfold orElse. destruct x; simpl; auto. Qed.

Lemma parsePrice_not_nan (s : jsstring) : isNaN (parsePrice s) = false.
Proof. unfold parsePrice. now apply orElse_not_nan. Qed.

Lemma SFleb_refl (x : number) : isNaN x = false -> SFleb x x = true.
Proof.
  unfold SFleb. destruct x as [s|s| |s m e]; simpl; try congruence;
    intros _; destruct s; try reflexivity;
    rewrite Z.compare_refl;
    change (Pos.compare_cont Eq m m) with (Pos.compare m m);
    now rewrite Pos.compare_refl.
Qed.

(** ** Sorting *)

Section SortFacts.
Variable A : Type.
Variable compareFn : A -> A -> number.

Lemma insert_perm (x : A) (l : list A) :
  Permutation (insert compareFn x l) (x :: l).
Proof.
  induction l as [|y l IH]; simpl.
  - apply Permutation_refl.
  - destruct (after compareFn x y).
    + eapply Permutation_trans; [apply perm_skip, IH | apply perm_swap].
    + apply Permutation_refl.
Qed.

Lemma sort_perm (l : list A) : Permutation (sort compareFn l) l.
Proof.
  induction l as [|x l IH]; simpl.
  - apply perm_nil.
  - eapply Permutation_trans; [apply insert_perm | now apply perm_skip].
Qed.

Lemma sort_length (l : list A) : List.length (sort compareFn l) = List.length l.
Proof. apply Permutation_length, sort_perm. Qed.
End SortFacts.

(** A comparator that never puts each of two values after the other
    leaves no element of the sorted array after its successor. *)
Section SortOrder.
Variable A : Type.
Variable compareFn : A -> A -> number.
Hypothesis after_asym :
  forall x y, after compareFn x y = true -> after compareFn y x = false.

Let inOrder (x y : A) : Prop := after compareFn x y = false.


End SortOrder.





Lemma floorThreeQuarters_lt (n : nat) : (0 < n)%nat -> (floorThreeQuarters n < n)%nat.
Proof.
  intros H. unfold floorThreeQuarters.
  apply Nat.Div0.div_lt_upper_bound. lia.
Qed.

(** ** The premium branch of the pre-filter *)

Lemma threshold_attained (candidates : list Wine) :
  candidates <> [] ->
  let prices := sort (fun a b => sub a b)
                  (map (fun w => parsePrice (Price w)) candidates) in
  exists w, In w candidates /\
    parsePrice (Price w) = nth (floorThreeQuarters (List.length prices)) prices NaN.
Proof.
  intros Hne prices.
  assert (Hlen : List.length prices = List.length candidates).
  { unfold prices. now rewrite sort_length, length_map. }
  assert (Hpos : (0 < List.length candidates)%nat).
  { destruct candidates; [contradiction | simpl; lia]. }
  assert (Hin : In (nth (floorThreeQuarters (List.length prices)) prices NaN) prices).
  { apply nth_In. rewrite Hlen. now apply floorThreeQuarters_lt. }
  unfold prices in Hin at 3.
  apply (Permutation_in _ (sort_perm _ _)) in Hin.
  apply in_map_iff in Hin as (w & Hw & Hi). now exists w.
Qed.

(** C10: on a non-empty candidate list the premium branch keeps at least
    one wine: index floor(0.75 * n) is in range, the threshold read there
    is the price of a candidate, and that candidate passes the
    at-or-above comparison. *)
Theorem premium_branch_nonempty (text : jsstring) (candidates : list Wine) :
  matchAbove text = None ->
  matchUnder text = None ->
  testPremium text = true ->
  candidates <> [] ->
  let prices := sort (fun a b => sub a b)
                  (map (fun w => parsePrice (Price w)) candidates) in
  let idx := floorThreeQuarters (List.length prices) in
  (idx < List.length prices)%nat /\
  (exists w, In w candidates /\
             parsePrice (Price w) = nth idx prices NaN /\
             In w (priceFilter text candidates)) /\
  priceFilter text candidates <> [].
Proof.
  intros Ha Hu Hp Hne prices idx.
  assert (Hlen : List.length prices = List.length candidates).
  { unfold prices. now rewrite sort_length, length_map. }
  assert (Hidx : (idx < List.length prices)%nat).
  { unfold idx. apply floorThreeQuarters_lt. rewrite Hlen.
    destruct candidates; [contradiction | simpl; lia]. }
  destruct (threshold_attained Hne) as (w & Hw & Hprice).
  fold prices in Hprice. fold idx in Hprice.
  assert (Hkeep : In w (priceFilter text candidates)).
  { unfold priceFilter. rewrite Ha, Hu, Hp. unfold percentileFilter.
    fold prices. fold idx.
    destruct prices as [|p ps] eqn:Es.
    - simpl in Hidx. lia.
    - apply filter_In. split; [assumption|].
      rewrite Hprice. unfold ge. apply SFleb_refl.
      rewrite <- Hprice. apply parsePrice_not_nan. }
  split; [assumption|]. split.
  - exists w. now repeat split.
  - intros E. rewrite E in Hkeep. contradiction.
Qed.

Lemma premium_branch_nonempty_witness :
  priceFilter (str "something premium") Examples.cellar <> [].
Proof.
  apply (@premium_branch_nonempty (str "something premium") Examples.cellar);
    try reflexivity.
  discriminate.
Defined.

(** ** Matching at the head of a text *)

Ltac decide_cmp :=
  repeat match goal with
    | |- context [N.eqb ?a ?b] =>
        first [ replace (N.eqb a b) with false by (symmetry; apply N.eqb_neq; lia)
              | replace (N.eqb a b) with true by (symmetry; apply N.eqb_eq; lia) ]
    | |- context [N.leb ?a ?b] =>
        first [ replace (N.leb a b) with false by (symmetry; apply N.leb_gt; lia)
              | replace (N.leb a b) with true by (symmetry; apply N.leb_le; lia) ]
    end.

Lemma letter_plain (c : N) :
  (65 <= c <= 122)%N -> isWhiteSpace c = false /\ isDigit c = false.
Proof.
  intros H. unfold isWhiteSpace, isDigit. split; decide_cmp; reflexivity.
Qed.

Lemma isLower_range (c : N) : isLower c = true -> (97 <= c <= 122)%N.
Proof.
  unfold isLower. intros H. apply andb_true_iff in H as [H1 H2].
  apply N.leb_le in H1, H2. lia.
Qed.

(** Code units that fold together are both digits, or both white space,
    or neither. *)
Lemma foldCase_plain (c p : N) :
  foldCase c = foldCase p ->
  (isDigit p = false -> isDigit c = false) /\
  (isWhiteSpace p = false -> isWhiteSpace c = false).
Proof.
  unfold foldCase. destruct (isLower c) eqn:Lc, (isLower p) eqn:Lp; intros E.
  - apply isLower_range in Lc. split; intros _; apply letter_plain; lia.
  - apply isLower_range in Lc. split; intros _; apply letter_plain; lia.
  - apply isLower_range in Lp. split; intros _; apply letter_plain; lia.
  - subst c. tauto.
Qed.

Lemma span_split (p : N -> bool) (s : jsstring) :
  s = fst (span p s) ++ snd (span p s) /\
  Forall (fun c => p c = true) (fst (span p s)) /\
  match snd (span p s) with [] => True | c :: _ => p c = false end.
Proof.
  induction s as [|c s (IH1 & IH2 & IH3)]; cbn [span]; [now repeat split|].
  destruct (p c) eqn:E.
  - destruct (span p s) as [a b]. cbn [fst snd] in *. split; [|split].
    + cbn [app]. now f_equal.
    + now constructor.
    + assumption.
  - cbn [fst snd]. split; [reflexivity|]. split; [constructor | assumption].
Qed.

Lemma span_stop (p : N -> bool) (a b : jsstring) (c : N) :
  Forall (fun x => p x = true) a -> p c = false ->
  span p (a ++ c :: b) = (a, c :: b).
Proof.
  intros Ha Hc. induction Ha as [|x a Hx _ IH]; cbn [span app].
  - now rewrite Hc.
  - now rewrite Hx, IH.
Qed.

Lemma span_all (p : N -> bool) (a : jsstring) :
  Forall (fun x => p x = true) a -> span p a = (a, []).
Proof.
  induction 1 as [|x a Hx _ IH]; cbn [span]; [reflexivity|]. now rewrite Hx, IH.
Qed.

Lemma digit_not_ws (c : N) : isDigit c = true -> isWhiteSpace c = false.
Proof.
  unfold isDigit. intros H. apply andb_true_iff in H as [H1 H2].
  apply N.leb_le in H1, H2. unfold isWhiteSpace. decide_cmp. reflexivity.
Qed.

Lemma ws_not_digit (c : N) : isWhiteSpace c = true -> isDigit c = false.
Proof.
  intros H. destruct (isDigit c) eqn:E; [|reflexivity].
  apply digit_not_ws in E. congruence.
Qed.

Lemma digits_after (ws ds rest : jsstring) :
  Forall (fun c => isWhiteSpace c = true) ws ->
  ds <> [] ->
  Forall (fun c => isDigit c = true) ds ->
  match rest with [] => True | c :: _ => isDigit c = false end ->
  fst (span isDigit (dropWhile isWhiteSpace (ws ++ ds ++ rest))) = ds.
Proof.
  intros Hws Hne Hds Hrest. destruct ds as [|d0 ds']; [contradiction|].
  unfold dropWhile. cbn [app]. rewrite span_stop; try assumption.
  - cbn [snd]. change (d0 :: ds' ++ rest) with ((d0 :: ds') ++ rest).
    destruct rest as [|c rest].
    + rewrite app_nil_r, span_all by assumption. reflexivity.
    + rewrite span_stop by assumption. reflexivity.
  - apply digit_not_ws. now inversion Hds.
Qed.

Lemma matchLiteral_i_split (lit s r : jsstring) :
  matchLiteral_i lit s = Some r ->
  exists m, s = m ++ r /\ map foldCase m = map foldCase lit.
Proof.
  revert s; induction lit as [|p lit IH]; intros s H.
  - cbn in H. injection H as <-. now exists [].
  - destruct s as [|c s]; [discriminate|]. cbn [matchLiteral_i] in H.
    destruct (code_eqb_i c p) eqn:E; [|discriminate].
    destruct (IH _ H) as (m & -> & Hm). exists (c :: m). split; [reflexivity|].
    cbn [map]. unfold code_eqb_i in E. apply N.eqb_eq in E. now rewrite E, Hm.
Qed.

Lemma matchLiteral_i_self (lit r : jsstring) : matchLiteral_i lit (lit ++ r) = Some r.
Proof.
  induction lit as [|p lit IH]; cbn [matchLiteral_i app]; [reflexivity|].
  unfold code_eqb_i. now rewrite N.eqb_refl.
Qed.

Lemma search_skip (A : Type) (f : jsstring -> option A) (a b : jsstring) :
  (forall t1 t2, a = t1 ++ t2 -> t2 <> [] -> f (t2 ++ b) = None) ->
  search f (a ++ b) = search f b.
Proof.
  induction a as [|c a IH]; intros H; [reflexivity|].
  assert (H0 : f ((c :: a) ++ b) = None) by (apply (H [] (c :: a)); [reflexivity | discriminate]).
  cbn [app] in H0 |- *. cbn [search]. rewrite H0.
  apply IH. intros t1 t2 -> Hne. now apply (H (c :: t1) t2).
Qed.

Lemma search_here (A : Type) (f : jsstring -> option A) (s : jsstring) (x : A) :
  f s = Some x -> search f s = Some x.
Proof. intros H. destruct s; cbn [search]; now rewrite H. Qed.

(** ** The pre-filter *)

Lemma excluded_filter (ids : list jsstring) (wines : list Wine) :
  excluded (Some ids) wines =
  filter (fun w => negb (array_includes ids (id w))) wines.
Proof.
  destruct ids as [|i ids]; [|reflexivity]. simpl.
  induction wines as [|w ws IH]; simpl; congruence.
Qed.


Lemma percentileFilter_spec (candidates : list Wine) :
  percentileFilter candidates =
  filter (fun w => ge (Spec.price w) (Spec.percentile75 (map Spec.price candidates)))
    candidates.
Proof.
  unfold percentileFilter, Spec.percentile75.
  rewrite sort_length.
  destruct (sort _ _) as [|p ps] eqn:E; [|reflexivity].
  assert (H : List.length (sort (fun a b => sub a b)
                             (map (fun w => parsePrice (Price w)) candidates)) = 0%nat)
    by now rewrite E.
  rewrite sort_length, length_map in H.
  destruct candidates; [reflexivity | discriminate].
Qed.

Lemma priceFilter_spec (text : jsstring) (candidates : list Wine) :
  priceFilter text candidates =
  match Spec.intent text with
  | Spec.Above n => filter (fun w => gt (Spec.price w) n) candidates
  | Spec.Under n => filter (fun w => lt (Spec.price w) n) candidates
  | Spec.Premium =>
      filter (fun w => ge (Spec.price w) (Spec.percentile75 (map Spec.price candidates)))
        candidates
  | Spec.NoIntent => candidates
  end.
Proof.
  unfold priceFilter, Spec.intent.
  destruct (matchAbove text); [reflexivity|].
  destruct (matchUnder text); [reflexivity|].
  destruct (testPremium text); [apply percentileFilter_spec | reflexivity].
Qed.



(** The first class that matches wins: a query with both an upper and a
    lower bound is filtered by the lower bound only. *)
Example dataset_above_wins :
  dataset (rt := asciiRuntime) (str "Over 10 but under 15, premium") Examples.cellar None =
  [Examples.merlotReserve; Examples.syrah; Examples.chablis; Examples.riesling].
Proof. vm_compute. reflexivity. Qed.

Example dataset_under_15 :
  dataset (rt := asciiRuntime) (str "I need a red wine under 15") Examples.cellar
    (Some [str "w-05"]) =
  [Examples.merlot; Examples.syrah].
Proof. vm_compute. reflexivity. Qed.

(** Five prices: the threshold is the fourth smallest, 18. *)
Example dataset_premium :
  dataset (rt := asciiRuntime) (str "something high-end") Examples.cellar (Some []) =
  [Examples.merlotReserve; Examples.chablis].
Proof. vm_compute. reflexivity. Qed.

(** ** The price normalizer *)

Lemma cleanPrice_keeps (s : jsstring) :
  cleanPrice s = replaceFirst 44 46 (filter priceChar s).
Proof.
  unfold cleanPrice, removeAll. f_equal.
  apply filter_ext. intros c. apply negb_involutive.
Qed.

(** C7, as stated, fails: a price string of 310 digits is parsed to
    [Infinity], which is not a finite number. *)
Lemma parsePrice_overflow :
  parsePrice (repeat 57%N 310) = S754_infinity false /\
  isFinite (parsePrice (repeat 57%N 310)) = false.
Proof. split; vm_compute; reflexivity. Qed.

(** C7, amended: [parsePrice] is total and never returns [NaN] (its result
    is finite or an infinity): it keeps the digits, commas, dots and minus
    signs, turns the first comma into a dot, parses the result as a
    floating-point literal and returns [0] when that gives [NaN] or a
    zero; [parsePrice("13,99 EUR-sign")] is the double nearest to 13.99 and
    [parsePrice("n/a")] is [0]. *)
Theorem parsePrice_total :
  (forall s : jsstring,
      isNaN (parsePrice s) = false /\
      (isFinite (parsePrice s) = true \/
       parsePrice s = S754_infinity false \/ parsePrice s = S754_infinity true) /\
      parsePrice s =
        match parseFloat (replaceFirst 44 46 (filter priceChar s)) with
        | S754_nan | S754_zero _ => zero
        | x => x
        end) /\
  parsePrice (str "13,99 " ++ [8364%N]) = ofDecimal false 1399 (-2) /\
  parsePrice (str "13,99 " ++ [8364%N]) = S754_finite false 7875669848364155 (-49) /\
  parsePrice (str "n/a") = zero.
Proof.
  split; [|repeat split; vm_compute; reflexivity].
  intros s. rewrite <- cleanPrice_keeps. unfold parsePrice, orElse.
  destruct (parseFloat (cleanPrice s)) as [b|b| |b m e]; simpl;
    repeat split; auto; destruct b; auto.
Qed.

(** ** The category fallback never comes back empty *)

Section FallbackFacts.
Context {rt : Runtime}.

Lemma fill_length (fuel : nat) (wines recs : list Obj) :
  (List.length recs <= List.length (fill fuel wines recs))%nat.
Proof.
  revert recs; induction fuel as [|fuel IH]; intros recs; simpl; [lia|].
  destruct (_ && _); [|lia].
  destruct (filter _ wines) as [|w ws]; [lia|].
  specialize (IH (recs ++ [w])). rewrite length_app in IH. simpl in IH. lia.
Qed.

(** Four iterations exhaust the loop: more fuel changes nothing. *)
Lemma fill_fuel (fuel : nat) (wines recs : list Obj) :
  (4 - List.length recs <= fuel)%nat ->
  fill (S fuel) wines recs = fill fuel wines recs.
Proof.
  revert recs; induction fuel as [|fuel IH]; intros recs Hf.
  - simpl. assert (H : (List.length recs <? 4)%nat = false)
      by (apply Nat.ltb_ge; lia).
    now rewrite H.
  - change (fill (S (S fuel)) wines recs) with
      (if (List.length recs <? 4)%nat && (List.length recs <? List.length wines)%nat
       then match filter (fun w => negb (includesObj recs w)) wines with
            | w :: _ => fill (S fuel) wines (recs ++ [w])
            | [] => recs
            end
       else recs).
    change (fill (S fuel) wines recs) with
      (if (List.length recs <? 4)%nat && (List.length recs <? List.length wines)%nat
       then match filter (fun w => negb (includesObj recs w)) wines with
            | w :: _ => fill fuel wines (recs ++ [w])
            | [] => recs
            end
       else recs).
    destruct (_ && _) eqn:E; [|reflexivity].
    apply andb_true_iff in E as [E _]. apply Nat.ltb_lt in E.
    destruct (filter _ wines) as [|w ws]; [reflexivity|].
    apply IH. rewrite length_app. cbn [List.length]. lia.
Qed.

Lemma objects_nonempty (wines : list Wine) : wines <> [] -> objects wines <> [].
Proof. destruct wines; [contradiction | discriminate]. Qed.

Lemma getIntelligentFallbackObjs_nonempty (objs : list Obj) :
  objs <> [] -> getIntelligentFallbackObjs objs <> [].
Proof.
  intros Hne. unfold getIntelligentFallbackObjs.
  set (recs := _ ++ _ ++ _ ++ _).
  assert (Hlen : (1 <= List.length (fill 4 objs recs))%nat).
  { destruct recs as [|r recs'] eqn:Er.
    - destruct objs as [|o objs']; [contradiction|].
      change (fill 4 (o :: objs') []) with (fill 3 (o :: objs') [o]).
      apply (fill_length 3 (o :: objs') [o]).
    - pose proof (fill_length 4 objs (r :: recs')) as H.
      cbn [List.length] in H. lia. }
  destruct (fill 4 objs recs); simpl in *; [lia | discriminate].
Qed.

Lemma getIntelligentFallback_nonempty (wines : list Wine) :
  wines <> [] -> getIntelligentFallback wines <> [].
Proof.
  intros Hne. unfold getIntelligentFallback.
  pose proof (getIntelligentFallbackObjs_nonempty (objects_nonempty Hne)) as H.
  destruct (getIntelligentFallbackObjs (objects wines)); [contradiction | discriminate].
Qed.

Lemma filterDefined_none (A B : Type) (l : list B) :
  filterDefined (map (fun _ => @None A) l) = [].
Proof. induction l; simpl; auto. Qed.

Lemma foundOrdered_nil (section : jsstring) : foundOrdered section [] = [].
Proof. unfold foundOrdered. simpl. apply filterDefined_none. Qed.

Lemma matchedByTitle_nil (response : jsstring) : matchedByTitle response [] = [].
Proof. unfold matchedByTitle. simpl. apply filterDefined_none. Qed.

(** C2: the extractor returns the empty sequence on an empty candidate
    list and a non-empty one on every non-empty candidate list, whatever
    the reply; so does the category fallback, the last resort when the
    earlier layers yield nothing. *)
Theorem extract_empty_iff (response : jsstring) (wines : list Wine) :
  (extractRecommendationsFromResponse response wines = [] <-> wines = []) /\
  (getIntelligentFallback wines = [] <-> wines = []).
Proof.
  assert (Hf : getIntelligentFallback wines = [] <-> wines = []).
  { split.
    - intros H. destruct wines as [|w ws]; [reflexivity|]. exfalso.
      revert H. apply getIntelligentFallback_nonempty. discriminate.
    - intros ->. reflexivity. }
  split; [|exact Hf]. split.
  - intros H. destruct wines as [|w ws]; [reflexivity|]. exfalso.
    revert H. unfold extractRecommendationsFromResponse.
    destruct (match idSection response with
              | Some section => foundOrdered section (w :: ws)
              | None => []
              end) as [|a l]; [|discriminate].
    destruct (matchedByTitle response (w :: ws)); [|discriminate].
    destruct (recsByName response (w :: ws)); [|discriminate].
    apply getIntelligentFallback_nonempty. discriminate.
  - intros ->. unfold extractRecommendationsFromResponse.
    rewrite matchedByTitle_nil.
    destruct (idSection response); [rewrite foundOrdered_nil|]; reflexivity.
Qed.
End FallbackFacts.

(** ** Structured-id extraction *)

Section MapFacts.
Variable V : Type.

Lemma Map_get_set (k k' : jsstring) (v : V) (m : Map V) :
  Map_get k (Map_set k' v m) = if string_eqb k' k then Some v else Map_get k m.
Proof.
  induction m as [|[k0 v0] m IH]; simpl.
  - reflexivity.
  - destruct (string_eqb k0 k') eqn:E0; simpl.
    + apply string_eqb_eq in E0. subst k0.
      destruct (string_eqb k' k); reflexivity.
    + destruct (string_eqb k0 k) eqn:E1; [|exact IH].
      apply string_eqb_eq in E1. subst k0.
      destruct (string_eqb k' k) eqn:E2; [|reflexivity].
      apply string_eqb_eq in E2. subst k'.
      rewrite string_eqb_refl in E0. discriminate.
Qed.
End MapFacts.

Lemma find_app (A : Type) (p : A -> bool) (l1 l2 : list A) :
  find p (l1 ++ l2) = match find p l1 with Some x => Some x | None => find p l2 end.
Proof. induction l1 as [|x l1 IH]; simpl; [|destruct (p x)]; auto. Qed.

(** A key of the map built from the candidates resolves to the last
    candidate that carries it. *)
Lemma wineMap_get (i : jsstring) (wines : list Wine) :
  Map_get i (newMap (map (fun w => (id w, w)) wines)) =
  find (fun w => string_eqb (id w) i) (rev wines).
Proof.
  unfold newMap.
  assert (H : forall m,
             Map_get i (fold_left (fun m kv => Map_set (fst kv) (snd kv) m)
                          (map (fun w => (id w, w)) wines) m) =
             match find (fun w => string_eqb (id w) i) (rev wines) with
             | Some w => Some w
             | None => Map_get i m
             end).
  { induction wines as [|w ws IH]; intros m; simpl; [reflexivity|].
    rewrite IH, find_app. simpl.
    destruct (find _ (rev ws)); [reflexivity|].
    rewrite Map_get_set. destruct (string_eqb (id w) i); reflexivity. }
  rewrite H. destruct (find _ (rev wines)); reflexivity.
Qed.

Lemma find_by_id_unique (wines : list Wine) (w : Wine) :
  NoDup (map id wines) -> In w wines ->
  find (fun v => string_eqb (id v) (id w)) wines = Some w.
Proof.
  induction wines as [|x l IH]; intros Hnd Hin; [contradiction|].
  simpl in *. inversion Hnd as [|? ? Hx Hl]; subst.
  destruct Hin as [->|Hin].
  - now rewrite string_eqb_refl.
  - destruct (string_eqb (id x) (id w)) eqn:E.
    + apply string_eqb_eq in E. exfalso. apply Hx. rewrite E.
      now apply in_map.
    + now apply IH.
Qed.

Lemma find_by_id_none (wines : list Wine) (i : jsstring) :
  ~ In i (map id wines) -> find (fun v => string_eqb (id v) i) wines = None.
Proof.
  induction wines as [|x l IH]; intros Hn; [reflexivity|]. simpl in *.
  destruct (string_eqb (id x) i) eqn:E.
  - apply string_eqb_eq in E. exfalso. apply Hn. now left.
  - apply IH. intros H. apply Hn. now right.
Qed.

(** With unique ids the lookup does not depend on the catalog order. *)
Lemma find_by_id_perm (wines wines' : list Wine) (i : jsstring) :
  NoDup (map id wines) -> Permutation wines wines' ->
  find (fun v => string_eqb (id v) i) wines' =
  find (fun v => string_eqb (id v) i) wines.
Proof.
  intros Hnd Hp.
  assert (Hnd' : NoDup (map id wines')).
  { eapply Permutation_NoDup; [apply Permutation_map, Hp | assumption]. }
  destruct (find (fun v => string_eqb (id v) i) wines) as [w|] eqn:E.
  - apply find_some in E as [Hin Hid]. apply string_eqb_eq in Hid. subst i.
    apply find_by_id_unique; [assumption|].
    eapply Permutation_in; eassumption.
  - apply find_by_id_none. intros Hin.
    apply in_map_iff in Hin as (w & Hid & Hin).
    apply (Permutation_in _ (Permutation_sym Hp)) in Hin.
    eapply find_none in E; [|exact Hin]. simpl in E.
    rewrite Hid, string_eqb_refl in E. discriminate.
Qed.

Lemma foundOrdered_lookup (section : jsstring) (wines wines' : list Wine) :
  NoDup (map id wines) -> Permutation wines wines' ->
  foundOrdered section wines' =
  filterDefined
    (map (fun i => find (fun w => string_eqb (id w) i) wines) (parseIds section)).
Proof.
  intros Hnd Hp. unfold foundOrdered. f_equal.
  apply map_ext. intros i. rewrite wineMap_get.
  apply find_by_id_perm; [assumption|].
  eapply Permutation_trans; [exact Hp | apply Permutation_rev].
Qed.

(** *** The id list of a well-formed marker line *)

Lemma splitOn_nonempty (sep : N -> bool) (s : jsstring) : splitOn sep s <> [].
Proof.
  induction s as [|c s IH]; cbn [splitOn]; [discriminate|].
  destruct (sep c).
  - destruct s as [|c' s]; [discriminate|]. destruct (sep c'); [exact IH | discriminate].
  - destruct (splitOn sep s); discriminate.
Qed.

Lemma splitOn_plain (sep : N -> bool) (t s : jsstring) :
  Forall (fun c => sep c = false) t ->
  splitOn sep (t ++ s) =
  (t ++ hd [] (splitOn sep s)) :: tl (splitOn sep s).
Proof.
  induction 1 as [|c t Hc _ IH]; cbn [app].
  - pose proof (splitOn_nonempty sep s) as Hne.
    destruct (splitOn sep s); [contradiction | reflexivity].
  - cbn [splitOn]. rewrite Hc, IH. reflexivity.
Qed.

Lemma trimStart_plain (c : N) (s : jsstring) :
  isWhiteSpace c = false -> trimStart (c :: s) = c :: s.
Proof. intros H. unfold trimStart, dropWhile. simpl. now rewrite H. Qed.

Lemma idSeparator_ws (c : N) :
  Spec.idSeparator c = false -> isWhiteSpace c = false.
Proof. unfold Spec.idSeparator. now intros H%orb_false_iff. Qed.

Lemma trim_plain (i : jsstring) :
  Forall (fun c => isWhiteSpace c = false) i -> trim i = i.
Proof.
  intros H. unfold trim, trimEnd.
  assert (E : forall s, Forall (fun c => isWhiteSpace c = false) s -> trimStart s = s).
  { intros [|c s] Hs; [reflexivity|]. inversion Hs; subst. now apply trimStart_plain. }
  rewrite (E i H), E, rev_involutive; [reflexivity|].
  apply Forall_rev, H.
Qed.

Lemma unquote_plain (i : jsstring) :
  Forall (fun c => N.eqb 34 c = false) i ->
  removeAll (N.eqb 34) ([34%N] ++ i ++ [34%N]) = i.
Proof.
  intros H. unfold removeAll. rewrite !filter_app.
  change (filter (fun c => negb (N.eqb 34 c)) [34%N]) with (@nil N).
  rewrite app_nil_r. cbn [app].
  induction H as [|c i Hc _ IH]; cbn [filter]; [reflexivity|].
  rewrite Hc. cbn [negb]. now rewrite IH.
Qed.

Lemma quoted_plain (i : jsstring) :
  Spec.plainId i ->
  Forall (fun c => Spec.idSeparator c = false) ([34%N] ++ i ++ [34%N]).
Proof.
  intros [_ H]. apply Forall_app. split; [now repeat constructor|].
  apply Forall_app. split; [|now repeat constructor].
  eapply Forall_impl; [|exact H]. now intros c [Hc _].
Qed.

Lemma split_markerBody (ids : list jsstring) :
  Forall Spec.plainId ids -> ids <> [] ->
  splitOn Spec.idSeparator (Spec.markerBody ids) =
  map (fun i => [34%N] ++ i ++ [34%N]) ids.
Proof.
  induction 1 as [|i ids Hi Hids IH]; intros Hne; [contradiction|].
  destruct ids as [|j ids].
  - cbn [Spec.markerBody map].
    rewrite <- (app_nil_r ([34%N] ++ i ++ [34%N])) at 1.
    rewrite (@splitOn_plain Spec.idSeparator _ [] (quoted_plain Hi)).
    cbn [splitOn hd tl]. now rewrite !app_nil_r.
  - assert (Em : Spec.markerBody (i :: j :: ids) =
                 ([34%N] ++ i ++ [34%N]) ++ [44%N; 32%N] ++ Spec.markerBody (j :: ids)).
    { change (Spec.markerBody (i :: j :: ids))
        with ([34%N] ++ i ++ [34%N] ++ [44%N; 32%N] ++ Spec.markerBody (j :: ids)).
      now rewrite <- !app_assoc. }
    rewrite Em. rewrite (@splitOn_plain Spec.idSeparator _ _ (quoted_plain Hi)).
    assert (E : splitOn Spec.idSeparator ([44%N; 32%N] ++ Spec.markerBody (j :: ids)) =
                [] :: splitOn Spec.idSeparator (Spec.markerBody (j :: ids))).
    { destruct ids; reflexivity. }
    rewrite E. cbn [hd tl map]. rewrite app_nil_r, IH; [reflexivity | discriminate].
Qed.

(** The id list read from a marker line in the format of the prompt is
    the list of the ids it names. *)
Lemma parseIds_markerBody (ids : list jsstring) :
  Forall Spec.plainId ids -> parseIds (Spec.markerBody ids) = ids.
Proof.
  intros H. unfold parseIds.
  destruct ids as [|i0 ids0] eqn:E; [reflexivity|]. rewrite <- E in *.
  change (fun c => N.eqb c 44 || isWhiteSpace c) with Spec.idSeparator.
  rewrite split_markerBody; [|assumption | subst; discriminate].
  clear E. induction H as [|i ids Hi _ IH]; [reflexivity|].
  cbn [map]. rewrite unquote_plain.
  - rewrite trim_plain.
    + destruct Hi as [Hne _]. cbn [filter].
      destruct i; [contradiction|]. cbn [nonEmpty]. now rewrite IH.
    + destruct Hi as [_ Hi]. eapply Forall_impl; [|exact Hi].
      intros c [Hc _]. now apply idSeparator_ws.
  - destruct Hi as [_ Hi]. eapply Forall_impl; [|exact Hi]. now intros c [_ Hc].
Qed.

(** C1, amended: when the reply carries a marker line, the ids of its
    bracketed list (split on commas and white space, quotes stripped) are
    looked up among the candidates and, when at least one of them
    resolves, the resolved wines are returned in the order of the list,
    unknown ids dropped, at most 8 of them; with unique candidate ids the
    result is the same for every ordering of the candidate list.  For a
    list in the format of the prompt the ids are the ones it names. *)
Theorem extract_by_ids {rt : Runtime} (response section : jsstring)
        (wines wines' : list Wine) :
  idSection response = Some section ->
  NoDup (map id wines) ->
  Permutation wines wines' ->
  let lookup := fun i => find (fun w => string_eqb (id w) i) wines in
  let resolved := filterDefined (map lookup (parseIds section)) in
  resolved <> [] ->
  extractRecommendationsFromResponse response wines' = firstn 8 resolved /\
  extractRecommendationsFromResponse response wines = firstn 8 resolved /\
  (forall ids, Forall Spec.plainId ids -> section = Spec.markerBody ids ->
               resolved = filterDefined (map lookup ids)).
Proof.
  intros Hs Hnd Hp lookup resolved Hne.
  unfold extractRecommendationsFromResponse. rewrite Hs.
  rewrite (foundOrdered_lookup section Hnd Hp).
  rewrite (foundOrdered_lookup section Hnd (Permutation_refl wines)).
  fold lookup. fold resolved. destruct resolved eqn:E; [contradiction|].
  repeat split. intros ids Hids ->. rewrite <- E. unfold resolved.
  now rewrite parseIds_markerBody.
Qed.

Lemma cellar_ids_unique : NoDup (map id Examples.cellar).
Proof.
  vm_compute.
  repeat (constructor; [simpl; intuition discriminate|]). constructor.
Qed.

Lemma extract_by_ids_witness :
  extractRecommendationsFromResponse (rt := asciiRuntime)
    Examples.markerReply (rev Examples.cellar) =
  [Examples.syrah; Examples.merlotReserve; Examples.riesling].
Proof.
  refine (proj1 (@extract_by_ids asciiRuntime Examples.markerReply _
                   Examples.cellar (rev Examples.cellar)
                   eq_refl cellar_ids_unique (Permutation_rev _) _)).
  vm_compute. discriminate.
Defined.

(** C1, as stated, fails: the marker line names one id, unknown to the
    candidates; no wine is resolved, and the extractor does not return the
    empty list of resolved wines but the answer of a later layer. *)
Lemma marker_without_known_id :
  idSection Examples.unknownReply = Some (Examples.quoted "zz-99") /\
  parseIds (Examples.quoted "zz-99") = [str "zz-99"] /\
  foundOrdered (Examples.quoted "zz-99") Examples.cellar = [] /\
  extractRecommendationsFromResponse (rt := asciiRuntime) Examples.unknownReply
    Examples.cellar =
  [Examples.merlotReserve; Examples.merlot; Examples.syrah; Examples.chablis] /\
  extractRecommendationsFromResponse (rt := asciiRuntime) Examples.unknownReply
    Examples.cellar <>
  firstn 8 (foundOrdered (Examples.quoted "zz-99") Examples.cellar).
Proof.
  repeat split; try (vm_compute; reflexivity). vm_compute. discriminate.
Qed.

(** ** Substring fallback *)

Section SubstringFacts.
Context {rt : Runtime}.

Lemma recsByNameLoop_spec (text : jsstring) (wines acc : list Wine) :
  recsByNameLoop text wines acc =
  acc ++ firstn (8 - List.length acc)
           (filter
              (fun w => nonEmpty (Product_name w) &&
                        includes text (toLowerCase (Product_name w)))
              wines).
Proof.
  revert acc; induction wines as [|w rest IH]; intros acc;
    cbn [recsByNameLoop filter].
  - now rewrite firstn_nil, app_nil_r.
  - destruct (8 <=? List.length acc)%nat eqn:E.
    + apply Nat.leb_le in E.
      replace (8 - List.length acc)%nat with 0%nat by lia.
      cbn [firstn]. now rewrite app_nil_r.
    + apply Nat.leb_gt in E.
      destruct (nonEmpty (Product_name w) && _); [|apply IH].
      rewrite IH, length_app. cbn [List.length].
      replace (8 - List.length acc)%nat
        with (S (8 - (List.length acc + 1)))%nat by lia.
      cbn [firstn]. now rewrite <- app_assoc.
Qed.

Lemma recsByName_spec (response : jsstring) (wines : list Wine) :
  recsByName response wines = firstn 8 (filter (Spec.named response) wines).
Proof. unfold recsByName. now rewrite recsByNameLoop_spec. Qed.

End SubstringFacts.



(** ** Numbered-title extraction *)


Section TitleFacts.
Context {rt : Runtime}.




End TitleFacts.



(** ** Degraded mode *)

Lemma startsWith_app (s a b : jsstring) :
  startsWith s (a ++ b) = true -> startsWith s a = true.
Proof.
  revert s; induction a as [|x a IH]; intros s H; [now destruct s|].
  destruct s as [|c s]; simpl in *; [discriminate|].
  apply andb_true_iff in H as [Hc H]. rewrite Hc. simpl. now apply IH.
Qed.

Lemma includes_app (s a b : jsstring) :
  includes s (a ++ b) = true -> includes s a = true.
Proof.
  induction s as [|c s IH]; cbn [includes]; intros H.
  - apply orb_true_iff in H as [H|H]; [|discriminate].
    apply startsWith_app in H. now rewrite H.
  - apply orb_true_iff in H as [H|H].
    + apply startsWith_app in H. now rewrite H.
    + rewrite (IH H). apply orb_true_r.
Qed.

Lemma includes_ros (s : jsstring) :
  includes s (str "ros") || includes s (str "rose") = includes s (str "ros").
Proof.
  destruct (includes s (str "ros")) eqn:E; [reflexivity|]. simpl.
  destruct (includes s (str "rose")) eqn:E'; [|reflexivity].
  change (str "rose") with (str "ros" ++ str "e") in E'.
  apply includes_app in E'. congruence.
Qed.

Section DegradedFacts.
Context {rt : Runtime}.

(** The recommendation set of the degraded mode. *)
Lemma getSimpleFallback_spec (msg : jsstring) (wines : list Wine) :
  getSimpleFallback msg wines =
  match Spec.keywordColor (toLowerCase msg) with
  | Some c =>
      if (3 <=? List.length (filter (colorIs c) wines))%nat
      then firstn 3 (filter (colorIs c) wines)
      else firstn 3 wines
  | None => firstn 3 wines
  end.
Proof.
  unfold getSimpleFallback, Spec.keywordColor. rewrite includes_ros.
  destruct (includes _ (str "red")); [reflexivity|].
  destruct (includes _ (str "white")); [reflexivity|].
  destruct (includes _ (str "ros")); [reflexivity|].
  destruct (_ || _); reflexivity.
Qed.

(** C6, amended: without API credential, or when the completion call
    fails, the endpoint answers the canned message of the language and a
    deterministic recommendation set: the first 3 wines of the colour of
    the first keyword found in the query (red, white, rose, sparkling, in
    this order) when the catalog has at least 3 wines of that colour, and
    the first 3 wines of the catalog otherwise (no keyword, or fewer than
    3 wines of the colour); the completion service is called at most
    once, and not at all without credential. *)
Theorem degraded_mode (msg : jsstring) (language : Language)
        (wines : list Wine) (excludeIds : option (list jsstring)) :
  let recs :=
    match Spec.keywordColor (toLowerCase msg) with
    | Some c =>
        if (3 <=? List.length (filter (colorIs c) wines))%nat
        then firstn 3 (filter (colorIs c) wines)
        else firstn 3 wines
    | None => firstn 3 wines
    end in
  let answer :=
    {| message := generateFallbackResponse [] [] language;
       recommendations := recs |} in
  POST false msg language wines excludeIds = Ret answer /\
  run (POST true msg language wines excludeIds) [None] = Some answer /\
  atMostCalls 0 (POST false msg language wines excludeIds) /\
  (forall apiKey, atMostCalls 1 (POST apiKey msg language wines excludeIds)).
Proof.
  intros recs answer.
  assert (E : degraded msg language wines = answer).
  { unfold degraded, answer, recs. rewrite getSimpleFallback_spec.
    destruct language; reflexivity. }
  unfold POST. simpl. rewrite E. repeat split.
  intros [|]; simpl; [|exact I].
  intros [text|]; exact I.
Qed.
End DegradedFacts.

(** C6, as stated, fails: the query names the colour red and the catalog
    holds two red wines; the degraded answer is the first three wines of
    the catalog, a white one among them, not the wines of that colour. *)
Lemma degraded_mode_ignores_colour :
  run (POST (rt := asciiRuntime) false (str "a red wine") en Examples.twoReds None) [] =
    Some {| message := generateFallbackResponse [] [] en;
            recommendations := [Examples.chablis; Examples.merlot; Examples.syrah] |} /\
  Spec.colourFallback (rt := asciiRuntime) (str "a red wine") Examples.twoReds =
    [Examples.merlot; Examples.syrah] /\
  colorIs (rt := asciiRuntime) (str "red") Examples.chablis = false /\
  getSimpleFallback (rt := asciiRuntime) (str "a red wine") Examples.twoReds <>
    Spec.colourFallback (rt := asciiRuntime) (str "a red wine") Examples.twoReds.
Proof.
  repeat split; try (vm_compute; reflexivity). vm_compute. discriminate.
Qed.

(** ** Pagination *)

Import Chat.

Lemma firstn_plus (A : Type) (k m : nat) (l : list A) :
  firstn (k + m) l = firstn k l ++ firstn m (skipn k l).
Proof.
  revert l; induction k as [|k IH]; intros l; simpl; [reflexivity|].
  destruct l as [|x l]; simpl.
  - now rewrite firstn_nil.
  - now rewrite IH.
Qed.

Lemma slice_next (A : Type) (l : list A) (k : nat) :
  slice l k (k + 4) = firstn 4 (skipn k l).
Proof. unfold slice. now replace (k + 4 - k)%nat with 4%nat by lia. Qed.

Lemma paged_start (L : list Wine) (k : nat) (st : State) :
  Spec.paged L k st -> List.length (shownIds st) = k.
Proof.
  intros (_ & Hs & Hk). rewrite Hs, length_map, length_firstn. lia.
Qed.

Lemma handleShowMore_paged (L : list Wine) (k : nat) (st : State) :
  Spec.paged L k st ->
  let batch := firstn 4 (skipn k L) in
  handleShowMore st =
    match batch with
    | [] => st
    | _ :: _ =>
        {| messages :=
             (messages st ++ [WineRecommendations batch k]) ++
             (if (k + List.length batch <? List.length L)%nat then [ShowMore] else []);
           shownIds := shownIds st ++ map id batch;
           lastRecs := L;
           fetches := fetches st |}
    end /\
  Spec.paged L (k + List.length batch) (handleShowMore st).
Proof.
  intros Hp batch. pose proof (paged_start Hp) as Hstart.
  destruct Hp as (HL & Hs & Hk).
  assert (E : handleShowMore st =
              match batch with
              | [] => st
              | _ :: _ =>
                  {| messages :=
                       (messages st ++ [WineRecommendations batch k]) ++
                       (if (k + List.length batch <? List.length L)%nat
                        then [ShowMore] else []);
                     shownIds := shownIds st ++ map id batch;
                     lastRecs := L;
                     fetches := fetches st |}
              end).
  { unfold handleShowMore. rewrite Hstart, HL, slice_next. fold batch.
    destruct batch; reflexivity. }
  split; [exact E|]. rewrite E.
  assert (Hb : (List.length batch <= List.length L - k)%nat).
  { unfold batch. rewrite length_firstn, length_skipn. lia. }
  destruct batch as [|b bs] eqn:Eb.
  - simpl. rewrite Nat.add_0_r. now repeat split.
  - rewrite <- Eb in *. clear Eb. repeat split; cbn [shownIds lastRecs].
    + rewrite Hs, <- map_app. f_equal.
      unfold batch. rewrite length_firstn, length_skipn.
      destruct (Nat.le_ge_cases 4 (List.length L - k)) as [H4|H4].
      * rewrite (Nat.min_l _ _ H4). symmetry. apply firstn_plus.
      * rewrite (Nat.min_r _ _ H4). symmetry. rewrite firstn_plus. f_equal.
        unfold batch. rewrite !firstn_all2; [reflexivity| |];
          rewrite length_skipn; lia.
    + lia.
Qed.

Lemma NoDup_app_disjoint (A : Type) (l1 l2 : list A) (x : A) :
  NoDup (l1 ++ l2) -> In x l1 -> In x l2 -> False.
Proof.
  induction l1 as [|y l1 IH]; intros Hnd H1 H2; [contradiction|].
  simpl in Hnd. inversion Hnd as [|? ? Hy Hnd']; subst.
  destruct H1 as [->|H1].
  - apply Hy, in_or_app. now right.
  - now apply IH.
Qed.

Lemma firstn_incl_in (A : Type) (n : nat) (l : list A) (x : A) :
  In x (firstn n l) -> In x l.
Proof.
  intros H. rewrite <- (firstn_skipn n l). apply in_or_app. now left.
Qed.

Lemma NoDup_prefix_ids (L : list Wine) (k : nat) :
  NoDup (map id L) -> NoDup (map id (firstn k L)).
Proof.
  intros H. rewrite <- (firstn_skipn k L), map_app in H.
  now apply NoDup_app_remove_r in H.
Qed.

Lemma batch_fresh (L : list Wine) (k : nat) (w : Wine) :
  NoDup (map id L) ->
  In w (firstn 4 (skipn k L)) -> ~ In (id w) (map id (firstn k L)).
Proof.
  intros Hnd Hw Hin.
  rewrite <- (firstn_skipn k L), map_app in Hnd.
  apply (NoDup_app_disjoint _ _ (id w) Hnd Hin).
  apply in_map. eapply firstn_incl_in. exact Hw.
Qed.

Lemma handleShowMore_fetches (st : State) : fetches (handleShowMore st) = fetches st.
Proof. unfold handleShowMore. destruct (slice _ _ _); reflexivity. Qed.

Lemma iter_fetches (n : nat) (st : State) :
  fetches (Nat.iter n handleShowMore st) = fetches st.
Proof.
  induction n as [|n IH]; simpl; [reflexivity|].
  now rewrite handleShowMore_fetches.
Qed.

Lemma paged_next (L : list Wine) (k : nat) (st : State) :
  Spec.paged L k st ->
  Spec.paged L (Nat.min (k + 4) (List.length L)) (handleShowMore st).
Proof.
  intros Hp. pose proof (proj2 (handleShowMore_paged Hp)) as H.
  destruct Hp as (_ & _ & Hk).
  rewrite length_firstn, length_skipn in H.
  replace (Nat.min (k + 4) (List.length L))
    with (k + Nat.min 4 (List.length L - k))%nat by lia.
  exact H.
Qed.

Lemma paged_iter (L : list Wine) (k n : nat) (st : State) :
  Spec.paged L k st ->
  Spec.paged L (Nat.min (k + 4 * n) (List.length L)) (Nat.iter n handleShowMore st).
Proof.
  intros Hp. induction n as [|n IH]; cbn [Nat.iter].
  - destruct Hp as (H1 & H2 & H3).
    replace (Nat.min (k + 4 * 0) (List.length L)) with k by lia.
    now repeat split.
  - apply paged_next in IH.
    replace (Nat.min (k + 4 * S n) (List.length L))
      with (Nat.min (Nat.min (k + 4 * n) (List.length L) + 4) (List.length L))
      by lia.
    exact IH.
Qed.

Section SessionFacts.
Context {rt : Runtime}.

Lemma handleSubmit_paged (catalog : list Wine) (input : jsstring)
      (res : Response) (st0 : State) :
  trim input <> [] ->
  recommendations res <> [] ->
  let L := fullRecs (trim input) catalog (recommendations res) in
  let st := handleSubmit catalog input (Some res) st0 in
  Spec.paged L (Nat.min 4 (List.length L)) st /\ fetches st = S (fetches st0).
Proof.
  intros Hi Hr L st. unfold st, handleSubmit.
  destruct (trim input) as [|c cs] eqn:Et; [contradiction|].
  destruct (recommendations res) as [|r rs] eqn:Er; [contradiction|].
  fold L. unfold Spec.paged. cbn [lastRecs shownIds fetches].
  repeat split; [|lia].
  unfold slice. rewrite skipn_O. f_equal. cbn [Nat.sub].
  destruct (Nat.le_ge_cases 4 (List.length L)) as [H|H].
  - now rewrite (Nat.min_l _ _ H).
  - rewrite (Nat.min_r _ _ H). now rewrite !firstn_all2 by lia.
Qed.

Lemma NoDup_ids_filter (p : Wine -> bool) (l : list Wine) :
  NoDup (map id l) -> NoDup (map id (filter p l)).
Proof.
  induction l as [|w l IH]; simpl; intros H; [constructor|].
  inversion H as [|? ? Hn Hr]; subst.
  destruct (p w); simpl; [|now apply IH].
  constructor; [|now apply IH].
  intros Hin. apply Hn.
  apply in_map_iff in Hin as (x & Hx & Hf). apply filter_In in Hf as [Hf _].
  apply in_map_iff. now exists x.
Qed.

(** The padded list has distinct ids when the recommendations and the
    catalog have. *)
Lemma fullRecs_ids_unique (userQuery : jsstring) (catalog recs : list Wine) :
  NoDup (map id recs) -> NoDup (map id catalog) ->
  NoDup (map id (fullRecs userQuery catalog recs)).
Proof.
  intros Hr Hc. unfold fullRecs.
  destruct (List.length recs <? 16)%nat; [|assumption].
  rewrite map_app. apply NoDup_app; [assumption | |].
  - apply NoDup_prefix_ids. now apply NoDup_ids_filter.
  - intros i Hi Hin.
    apply in_map_iff in Hin as (w & Hw & Hin). subst i.
    apply firstn_incl_in, filter_In in Hin as [_ Hkeep].
    apply andb_true_iff in Hkeep as [Hfresh _].
    apply negb_true_iff in Hfresh.
    apply in_map_iff in Hi as (r & Hid & Hr').
    assert (Hex : existsb (fun r => string_eqb (id r) (id w)) recs = true).
    { apply existsb_exists. exists r. split; [assumption|].
      now apply string_eqb_eq. }
    congruence.
Qed.

(** C8: after a submitted query whose padded list [L] has distinct ids,
    the [n]-th show-more action finds the first [4 * (n + 1)] wines of
    [L] shown (all of [L] if it is shorter) and shows the next at most 4
    wines of [L], starting at the count of the ids already shown; none
    of their ids was shown before, the ids shown stay distinct, no fetch
    is issued, the show-more affordance is offered again only while wines
    remain, and an action on the exhausted list changes nothing. *)
Theorem pagination_session (catalog : list Wine) (input : jsstring)
        (res : Response) (st0 : State) (n : nat) :
  trim input <> [] ->
  recommendations res <> [] ->
  let L := fullRecs (trim input) catalog (recommendations res) in
  NoDup (map id L) ->
  let st := Nat.iter n handleShowMore (handleSubmit catalog input (Some res) st0) in
  let k := Nat.min (4 * (n + 1)) (List.length L) in
  let batch := firstn 4 (skipn k L) in
  lastRecs st = L /\
  shownIds st = map id (firstn k L) /\
  List.length (shownIds st) = k /\
  List.length batch = Nat.min 4 (List.length L - k) /\
  shownIds (handleShowMore st) = shownIds st ++ map id batch /\
  (forall w, In w batch -> ~ In (id w) (shownIds st)) /\
  NoDup (shownIds (handleShowMore st)) /\
  fetches st = S (fetches st0) /\
  fetches (handleShowMore st) = fetches st /\
  messages (handleShowMore st) =
    match batch with
    | [] => messages st
    | _ :: _ =>
        (messages st ++ [WineRecommendations batch k]) ++
        (if (k + List.length batch <? List.length L)%nat then [ShowMore] else [])
    end /\
  (batch = [] -> handleShowMore st = st).
Proof.
  intros Hi Hr L Hnd st k batch.
  destruct (@handleSubmit_paged catalog input res st0 Hi Hr) as [Hp0 Hf0].
  fold L in Hp0.
  assert (Hp : Spec.paged L k st).
  { pose proof (@paged_iter L _ n _ Hp0) as H.
    replace (Nat.min (Nat.min 4 (List.length L) + 4 * n) (List.length L))
      with k in H by (unfold k; lia).
    exact H. }
  destruct (handleShowMore_paged Hp) as [E Hp']. fold batch in E, Hp'.
  pose proof (paged_start Hp) as Hstart.
  destruct Hp as (HL & Hs & Hk).
  repeat split.
  - exact HL.
  - exact Hs.
  - exact Hstart.
  - unfold batch. now rewrite length_firstn, length_skipn.
  - rewrite E. destruct batch; [|reflexivity].
    simpl. now rewrite app_nil_r.
  - intros w Hw. rewrite Hs. now apply batch_fresh.
  - destruct Hp' as (_ & Hs' & _). rewrite Hs'. now apply NoDup_prefix_ids.
  - unfold st. now rewrite iter_fetches.
  - apply handleShowMore_fetches.
  - rewrite E. destruct batch; reflexivity.
  - intros Eb. rewrite E, Eb. reflexivity.
Qed.
End SessionFacts.

Ltac distinct_ids :=
  vm_compute; repeat (constructor; [simpl; intuition discriminate|]); constructor.

Lemma pagination_session_witness :
  let st1 :=
    handleSubmit (rt := asciiRuntime) Examples.tenWines (str "something nice")
      (Some Examples.threeRecs) Examples.freshChat in
  let st2 := handleShowMore st1 in
  let st3 := handleShowMore st2 in
  List.length (lastRecs st1) = 10%nat /\
  map (fun st => List.length (shownIds st)) [st1; st2; st3] = [4; 8; 10]%nat /\
  messages st2 =
    messages st1 ++
    [WineRecommendations (firstn 4 (skipn 4 Examples.tenWines)) 4; ShowMore] /\
  messages st3 =
    messages st2 ++ [WineRecommendations (skipn 8 Examples.tenWines) 8] /\
  handleShowMore st3 = st3 /\
  map fetches [st1; st2; st3] = [1; 1; 1]%nat.
Proof.
  intros st1 st2 st3.
  assert (H : messages st3 =
              messages st2 ++ [WineRecommendations (skipn 8 Examples.tenWines) 8]).
  { pose proof (@pagination_session asciiRuntime Examples.tenWines
                  (str "something nice") Examples.threeRecs Examples.freshChat 1) as P.
    cbv zeta in P.
    destruct P as (_ & _ & _ & _ & _ & _ & _ & _ & _ & Hm & _).
    - discriminate.
    - discriminate.
    - distinct_ids.
    - vm_compute in Hm. vm_compute. exact Hm. }
  repeat split; try exact H; vm_compute; reflexivity.
Defined.

(** ** The cart store *)

Import Cart.




Lemma updateAt_Forall (P : CartItem -> Prop) (i : nat) (f : CartItem -> CartItem)
      (items : list CartItem) :
  (forall item, P item -> P (f item)) ->
  Forall P items -> Forall P (updateAt i f items).
Proof.
  intros Hf H. revert i; induction H as [|item rest Hi Hr IH]; intros [|i]; simpl;
    constructor; auto.
Qed.



Lemma removeItem_Forall (P : CartItem -> Prop) (u : jsstring) (items : list CartItem) :
  Forall P items -> Forall P (removeItem u items).
Proof.
  intros H. apply Forall_forall. intros x Hx.
  apply filter_In in Hx as [Hx _]. revert x Hx. now apply Forall_forall.
Qed.

Lemma le_one_positive (q : number) : le one q = true -> le q zero = false.
Proof.
  destruct q as [[|]|[|]| |[|] m e]; intros H; try discriminate H; reflexivity.
Qed.











(** * Further properties of the code *)

(** ** The extractor only returns candidates *)

Lemma filterDefined_In (A : Type) (l : list (option A)) (x : A) :
  In x (filterDefined l) -> In (Some x) l.
Proof.
  induction l as [|o l IH]; simpl; [tauto|].
  destruct o as [y|]; simpl.
  - intros [->|H]; [now left | right; now apply IH].
  - intros H. right. now apply IH.
Qed.

Lemma foundOrdered_incl (section : jsstring) (wines : list Wine) (w : Wine) :
  In w (foundOrdered section wines) -> In w wines.
Proof.
  unfold foundOrdered. intros H. apply filterDefined_In in H.
  apply in_map_iff in H as (i & Hi & _). rewrite wineMap_get in Hi.
  apply find_some in Hi as [Hi _]. now apply in_rev.
Qed.

Lemma firstn_le_8 (A : Type) (l : list A) : (List.length (firstn 8 l) <= 8)%nat.
Proof. rewrite length_firstn. lia. Qed.

Lemma fill_incl (fuel : nat) (objs recs : list Obj) (o : Obj) :
  In o (fill fuel objs recs) -> In o recs \/ In o objs.
Proof.
  revert recs; induction fuel as [|fuel IH]; intros recs; cbn [fill]; [tauto|].
  destruct (_ && _); [|tauto].
  destruct (filter _ objs) as [|x xs] eqn:E; [tauto|].
  intros H. apply IH in H as [H|H]; [|tauto].
  apply in_app_or in H as [H|[->|[]]]; [tauto|].
  right. eapply proj1, filter_In. rewrite E. now left.
Qed.

Lemma objects_snd (wines : list Wine) (o : Obj) :
  In o (objects wines) -> In (snd o) wines.
Proof. destruct o as [i w]. unfold objects. apply in_combine_r. Qed.

Section ExtractorFacts.
Context {rt : Runtime}.

Lemma matchedByTitle_incl (response : jsstring) (wines : list Wine) (w : Wine) :
  In w (matchedByTitle response wines) -> In w wines.
Proof.
  unfold matchedByTitle. intros H. apply filterDefined_In in H.
  apply in_map_iff in H as (t & Ht & _). now apply find_some in Ht.
Qed.

Lemma recsByName_incl (response : jsstring) (wines : list Wine) (w : Wine) :
  In w (recsByName response wines) -> In w wines.
Proof.
  rewrite recsByName_spec. intros H. apply firstn_incl_in in H.
  now apply filter_In in H.
Qed.

Lemma firstOf_incl (l : list Obj) (o : Obj) : In o (firstOf l) -> In o l.
Proof. destruct l; simpl; tauto. Qed.

Lemma getIntelligentFallback_incl (wines : list Wine) (w : Wine) :
  In w (getIntelligentFallback wines) -> In w wines.
Proof.
  unfold getIntelligentFallback. intros H.
  apply in_map_iff in H as (o & <- & Ho). apply objects_snd.
  unfold getIntelligentFallbackObjs in Ho. apply firstn_incl_in in Ho.
  apply fill_incl in Ho as [Ho|Ho]; [|assumption].
  repeat (apply in_app_or in Ho as [Ho|Ho];
          [apply firstOf_incl in Ho; now apply filter_In in Ho|]).
  apply firstOf_incl in Ho. now apply filter_In in Ho.
Qed.

Lemma getIntelligentFallback_le_4 (wines : list Wine) :
  (List.length (getIntelligentFallback wines) <= 4)%nat.
Proof.
  unfold getIntelligentFallback, getIntelligentFallbackObjs.
  rewrite length_map, length_firstn. lia.
Qed.

Lemma extract_bounds (response : jsstring) (wines : list Wine) :
  (forall w, In w (extractRecommendationsFromResponse response wines) -> In w wines) /\
  (List.length (extractRecommendationsFromResponse response wines) <= 8)%nat.
Proof.
  unfold extractRecommendationsFromResponse.
  set (byId := match idSection response with
               | Some section => foundOrdered section wines
               | None => []
               end).
  assert (Hid : forall w, In w byId -> In w wines).
  { unfold byId. destruct (idSection response); [|contradiction].
    intros w. apply foundOrdered_incl. }
  destruct byId as [|a l] eqn:E.
  - destruct (matchedByTitle response wines) as [|b l'] eqn:Et.
    + destruct (recsByName response wines) as [|c l''] eqn:En.
      * split; [apply getIntelligentFallback_incl|].
        pose proof (getIntelligentFallback_le_4 wines). lia.
      * rewrite <- En. split; [apply recsByName_incl|].
        rewrite recsByName_spec. apply firstn_le_8.
    + rewrite <- Et. split; [|apply firstn_le_8].
      intros w H. apply firstn_incl_in in H. revert H. apply matchedByTitle_incl.
  - split; [|apply firstn_le_8].
    intros w H. apply firstn_incl_in in H. now apply Hid.
Qed.

(** X1: whatever the reply, the extractor returns candidates only, and at
    most 8 of them. *)
Theorem extract_within_candidates (response : jsstring) (wines : list Wine) :
  (forall w, In w (extractRecommendationsFromResponse response wines) -> In w wines) /\
  (List.length (extractRecommendationsFromResponse response wines) <= 8)%nat.
Proof.
  split; [intros w; apply extract_bounds | apply extract_bounds].
Qed.
End ExtractorFacts.

(** ** The successful path of the handler *)

Lemma excluded_incl (excludeIds : list jsstring) (wines : list Wine) (w : Wine) :
  In w (excluded (Some excludeIds) wines) -> In w wines /\ ~ In (id w) excludeIds.
Proof.
  rewrite excluded_filter. intros H. apply filter_In in H as [H Hx].
  split; [assumption|]. intros Hin. apply array_includes_In in Hin.
  rewrite Hin in Hx. discriminate.
Qed.

Lemma percentileFilter_incl (candidates : list Wine) (w : Wine) :
  In w (percentileFilter candidates) -> In w candidates.
Proof.
  rewrite percentileFilter_spec. intros H. now apply filter_In in H.
Qed.

Lemma priceFilter_incl (text : jsstring) (candidates : list Wine) (w : Wine) :
  In w (priceFilter text candidates) -> In w candidates.
Proof.
  unfold priceFilter.
  destruct (matchAbove text); [intros H; now apply filter_In in H|].
  destruct (matchUnder text); [intros H; now apply filter_In in H|].
  destruct (testPremium text); [apply percentileFilter_incl | tauto].
Qed.

Section SuccessFacts.
Context {rt : Runtime}.

Lemma getSimpleFallback_incl (msg : jsstring) (wines : list Wine) (w : Wine) :
  In w (getSimpleFallback msg wines) -> In w wines.
Proof.
  rewrite getSimpleFallback_spec.
  destruct (Spec.keywordColor _) as [c|]; [|apply firstn_incl_in].
  destruct (3 <=? _)%nat; [|apply firstn_incl_in].
  intros H. apply firstn_incl_in in H. now apply filter_In in H.
Qed.

Lemma getSimpleFallback_le_3 (msg : jsstring) (wines : list Wine) :
  (List.length (getSimpleFallback msg wines) <= 3)%nat.
Proof.
  rewrite getSimpleFallback_spec.
  destruct (Spec.keywordColor _) as [c|]; [destruct (3 <=? _)%nat|];
    rewrite length_firstn; lia.
Qed.

Lemma extract_nonempty (response : jsstring) (wines : list Wine) :
  wines <> [] -> extractRecommendationsFromResponse response wines <> [].
Proof.
  intros Hne. unfold extractRecommendationsFromResponse.
  destruct (match idSection response with
            | Some section => foundOrdered section wines
            | None => []
            end); [|discriminate].
  destruct (matchedByTitle response wines); [|discriminate].
  destruct (recsByName response wines); [|discriminate].
  now apply getIntelligentFallback_nonempty.
Qed.

Lemma post_answer (msg : jsstring) (language : Language) (wines : list Wine)
        (excludeIds : list jsstring) (text : jsstring) :
  exists res,
    run (POST true msg language wines (Some excludeIds)) [Some text] = Some res /\
    message res = text /\
    (forall w, In w (recommendations res) -> In w wines /\ ~ In (id w) excludeIds) /\
    (List.length (recommendations res) <= 8)%nat /\
    (recommendations res = [] <-> dataset msg wines (Some excludeIds) = []).
Proof.
  set (candidates := dataset msg wines (Some excludeIds)).
  assert (Hc : forall w, In w candidates -> In w wines /\ ~ In (id w) excludeIds).
  { intros w H. unfold candidates, dataset in H.
    apply priceFilter_incl in H. now apply excluded_incl. }
  cbn [POST negb run]. fold candidates.
  destruct (extract_bounds text candidates) as [Hin Hlen].
  destruct (extractRecommendationsFromResponse text candidates) as [|r rs] eqn:E.
  - eexists. split; [reflexivity|]. cbn [message recommendations].
    assert (Hnil : candidates = []).
    { destruct candidates as [|c cs] eqn:Ec; [reflexivity|]. exfalso.
      revert E. apply extract_nonempty. discriminate. }
    rewrite Hnil.
    assert (Hf : getSimpleFallback msg [] = []).
    { destruct (getSimpleFallback msg []) as [|x xs] eqn:Ef; [reflexivity|].
      assert (Hx : In x []).
      { apply (@getSimpleFallback_incl msg []). rewrite Ef. now left. }
      contradiction. }
    rewrite Hf. split; [reflexivity|]. split; [intros w []|].
    split; [simpl; lia | tauto].
  - eexists. split; [reflexivity|]. cbn [message recommendations].
    split; [reflexivity|]. split; [|split; [exact Hlen|]].
    + intros w Hw. apply Hc. now apply Hin.
    + split; [discriminate|].
      intros Hnil. exfalso. assert (Hr : In r candidates) by (apply Hin; now left).
      rewrite Hnil in Hr. contradiction.
Qed.

(** X2: when the completion call succeeds, the endpoint answers the
    model's text; every recommended wine belongs to the received catalog
    and none has an excluded id; at most 8 wines are recommended, and none
    only when the pre-filter leaves no candidate. *)
Theorem post_success (msg : jsstring) (language : Language) (wines : list Wine)
        (excludeIds : list jsstring) (text : jsstring) :
  exists res,
    run (POST true msg language wines (Some excludeIds)) [Some text] = Some res /\
    message res = text /\
    (forall w, In w (recommendations res) -> In w wines /\ ~ In (id w) excludeIds) /\
    (List.length (recommendations res) <= 8)%nat /\
    (recommendations res = [] <-> dataset msg wines (Some excludeIds) = []).
Proof. apply post_answer. Qed.
End SuccessFacts.

(** ** The category fallback *)

Lemma objects_refs (wines : list Wine) :
  map fst (objects wines) = seq 0 (List.length wines).
Proof.
  unfold objects. generalize 0%nat.
  induction wines as [|w ws IH]; intros n; simpl; [reflexivity|].
  now rewrite IH.
Qed.

Lemma objects_wines (wines : list Wine) : map snd (objects wines) = wines.
Proof.
  unfold objects. generalize 0%nat.
  induction wines as [|w ws IH]; intros n; simpl; [reflexivity|].
  now rewrite IH.
Qed.

Lemma objects_distinct (wines : list Wine) : NoDup (map fst (objects wines)).
Proof. rewrite objects_refs. apply seq_NoDup. Qed.

Lemma includesObj_In (l : list Obj) (o : Obj) :
  includesObj l o = true <-> In (fst o) (map fst l).
Proof.
  unfold includesObj, sameObj. rewrite existsb_exists, in_map_iff. split.
  - intros (x & Hx & E). apply Nat.eqb_eq in E. now exists x.
  - intros (x & E & Hx). exists x. split; [assumption|]. now apply Nat.eqb_eq.
Qed.

(** While fewer objects are chosen than the catalog holds, one is left to
    choose. *)
Lemma remaining_nonempty (objs recs : list Obj) :
  NoDup (map fst objs) ->
  (List.length recs < List.length objs)%nat ->
  filter (fun o => negb (includesObj recs o)) objs <> [].
Proof.
  intros Hnd Hlt E.
  assert (Hincl : incl (map fst objs) (map fst recs)).
  { intros r Hr. apply in_map_iff in Hr as (o & <- & Ho).
    apply includesObj_In.
    destruct (includesObj recs o) eqn:Ei; [reflexivity|]. exfalso.
    assert (Hin : In o (filter (fun o => negb (includesObj recs o)) objs)).
    { apply filter_In. split; [assumption|]. now rewrite Ei. }
    rewrite E in Hin. contradiction. }
  apply (NoDup_incl_length Hnd) in Hincl. rewrite !length_map in Hincl.
  unfold Obj in *. lia.
Qed.

Lemma fill_reaches (fuel : nat) (objs recs : list Obj) :
  NoDup (map fst objs) ->
  (Nat.min (Nat.min 4 (List.length objs)) (List.length recs + fuel) <=
   List.length (fill fuel objs recs))%nat.
Proof.
  intros Hnd. revert recs; induction fuel as [|fuel IH]; intros recs; cbn [fill].
  - lia.
  - destruct (_ && _) eqn:E.
    + apply andb_true_iff in E as [E4 En].
      apply Nat.ltb_lt in E4. apply Nat.ltb_lt in En.
      pose proof (@remaining_nonempty objs recs Hnd En) as Hne.
      destruct (filter _ objs) as [|x xs]; [contradiction|].
      specialize (IH (recs ++ [x])). rewrite length_app in IH.
      cbn [List.length] in IH. unfold Obj in *. lia.
    + unfold Obj in *.
      apply andb_false_iff in E as [E|E]; apply Nat.ltb_ge in E; lia.
Qed.

(** X3: the category fallback returns between min(4, n) and 4 wines of a
    catalog of n wines, all of them wines of the catalog. *)
Theorem getIntelligentFallback_size {rt : Runtime} (wines : list Wine) :
  (Nat.min 4 (List.length wines) <= List.length (getIntelligentFallback wines))%nat /\
  (List.length (getIntelligentFallback wines) <= 4)%nat /\
  (forall w, In w (getIntelligentFallback wines) -> In w wines).
Proof.
  split; [|split; [apply getIntelligentFallback_le_4 | apply getIntelligentFallback_incl]].
  unfold getIntelligentFallback, getIntelligentFallbackObjs.
  set (recs := _ ++ _ ++ _ ++ _).
  pose proof (@fill_reaches 4 (objects wines) recs (objects_distinct wines)) as H.
  rewrite length_map, length_firstn.
  assert (Hn : List.length (objects wines) = List.length wines).
  { transitivity (List.length (map fst (objects wines)));
      [symmetry; apply length_map | rewrite objects_refs; apply length_seq]. }
  rewrite Hn in H. unfold Obj in *. lia.
Qed.

Lemma includesObj_prefix (o : Obj) (j : nat) (rest : list Obj) (x : Obj) :
  fst x <> fst o ->
  includesObj (o :: firstn j rest) x = includesObj (firstn j rest) x.
Proof.
  intros Hx. unfold includesObj. cbn [existsb]. unfold sameObj at 1.
  destruct (Nat.eqb (fst x) (fst o)) eqn:E; [|reflexivity].
  apply Nat.eqb_eq in E. contradiction.
Qed.

(** The objects not among the first [j] of the catalog are the ones after
    them. *)
Lemma remaining_after_prefix (objs : list Obj) (j : nat) :
  NoDup (map fst objs) ->
  filter (fun o => negb (includesObj (firstn j objs) o)) objs = skipn j objs.
Proof.
  revert j; induction objs as [|o rest IH]; intros j Hnd.
  - now destruct j.
  - destruct j as [|j]; cbn [firstn skipn].
    + clear. generalize (o :: rest). intros l.
      induction l as [|x l IHl]; [reflexivity|].
      cbn [filter]. change (includesObj [] x) with false.
      cbn [negb]. now rewrite IHl.
    + inversion Hnd as [|? ? Ho Hrest]; subst. cbn [filter].
      assert (Hself : includesObj (o :: firstn j rest) o = true).
      { unfold includesObj. cbn [existsb]. unfold sameObj at 1.
        now rewrite Nat.eqb_refl. }
      rewrite Hself. cbn [negb]. rewrite <- (IH j Hrest).
      apply filter_ext_in. intros x Hx. f_equal. apply includesObj_prefix.
      intros E. apply Ho. rewrite <- E. now apply in_map.
Qed.

Lemma firstn_snoc (A : Type) (j : nat) (l : list A) (x : A) (xs : list A) :
  skipn j l = x :: xs -> firstn j l ++ [x] = firstn (S j) l.
Proof.
  revert l; induction j as [|j IH]; intros l E.
  - simpl in E. now subst.
  - destruct l as [|y l]; [discriminate|]. cbn [skipn] in E.
    cbn [firstn app]. f_equal. now apply IH.
Qed.

Lemma fill_prefix (fuel j : nat) (objs : list Obj) :
  NoDup (map fst objs) ->
  (j <= Nat.min 4 (List.length objs))%nat ->
  fill fuel objs (firstn j objs) =
  firstn (Nat.min (j + fuel) (Nat.min 4 (List.length objs))) objs.
Proof.
  intros Hnd. revert j; induction fuel as [|fuel IH]; intros j Hj; cbn [fill].
  - f_equal. lia.
  - assert (Hlen : List.length (firstn j objs) = j).
    { rewrite length_firstn. lia. }
    rewrite Hlen. destruct (_ && _) eqn:E.
    + apply andb_true_iff in E as [E4 En].
      apply Nat.ltb_lt in E4. apply Nat.ltb_lt in En.
      rewrite (@remaining_after_prefix objs j Hnd).
      destruct (skipn j objs) as [|x xs] eqn:Es.
      * exfalso. assert (Hs : List.length (skipn j objs) = 0%nat) by now rewrite Es.
        rewrite length_skipn in Hs. lia.
      * rewrite (@firstn_snoc _ j objs x xs Es), IH by lia. f_equal. lia.
    + f_equal. apply andb_false_iff in E as [E|E]; apply Nat.ltb_ge in E; lia.
Qed.

(** X4: when no display name contains a keyword of the four categories,
    the category fallback is the first four wines of the catalog, in
    catalog order. *)
Theorem getIntelligentFallback_plain {rt : Runtime} (wines : list Wine) :
  (forall w key,
      In w wines ->
      In key [str "rouge"; str "red"; str "merlot"; str "cabernet"; str "syrah";
              str "blanc"; str "white"; str "chardonnay"; str "sauvignon";
              str "champagne"; str "mousseux"; str "brut";
              str "ros" ++ [233%N]; str "rose"; str "gris"] ->
      includes (toLowerCase (Product_name w)) key = false) ->
  getIntelligentFallback wines = firstn 4 wines.
Proof.
  intros Hplain. unfold getIntelligentFallback, getIntelligentFallbackObjs.
  assert (Hnone : forall keys,
             incl keys [str "rouge"; str "red"; str "merlot"; str "cabernet"; str "syrah";
                        str "blanc"; str "white"; str "chardonnay"; str "sauvignon";
                        str "champagne"; str "mousseux"; str "brut";
                        str "ros" ++ [233%N]; str "rose"; str "gris"] ->
             filter (nameHas keys) (objects wines) = []).
  { intros keys Hk.
    destruct (filter (nameHas keys) (objects wines)) as [|o os] eqn:E; [reflexivity|].
    exfalso. assert (Ho : In o (filter (nameHas keys) (objects wines))).
    { rewrite E. now left. }
    apply filter_In in Ho as [Ho Hn]. apply objects_snd in Ho.
    unfold nameHas in Hn. apply existsb_exists in Hn as (k & Hkin & Hinc).
    rewrite (Hplain (snd o) k Ho (Hk k Hkin)) in Hinc. discriminate. }
  rewrite !Hnone.
  - cbn [firstOf app].
    change (@nil Obj) with (firstn 0 (objects wines)).
    rewrite (@fill_prefix 4 0 (objects wines) (objects_distinct wines)) by lia.
    rewrite firstn_firstn, <- firstn_map, objects_wines.
    assert (Hn : List.length (objects wines) = List.length wines).
    { transitivity (List.length (map fst (objects wines)));
        [symmetry; apply length_map | rewrite objects_refs; apply length_seq]. }
    rewrite Hn.
    destruct (Nat.le_ge_cases 4 (List.length wines)) as [H|H].
    + f_equal. lia.
    + replace (Nat.min 4 (Nat.min (0 + 4) (Nat.min 4 (List.length wines))))
        with (List.length wines) by lia.
      now rewrite firstn_all, firstn_all2.
  - intros k Hk. simpl in Hk. simpl. tauto.
  - intros k Hk. simpl in Hk. simpl. tauto.
  - intros k Hk. simpl in Hk. simpl. tauto.
  - intros k Hk. simpl in Hk. simpl. tauto.
Qed.

Lemma getIntelligentFallback_plain_witness :
  getIntelligentFallback (rt := asciiRuntime)
    [Examples.chablis; Examples.riesling; Examples.chablis] =
  [Examples.chablis; Examples.riesling; Examples.chablis].
Proof.
  apply (@getIntelligentFallback_plain asciiRuntime
           [Examples.chablis; Examples.riesling; Examples.chablis]).
  intros w key Hw Hkey.
  repeat (destruct Hw as [<-|Hw]; [
    repeat (destruct Hkey as [<-|Hkey]; [vm_compute; reflexivity|]);
    destruct Hkey |]).
  destruct Hw.
Defined.

(** ** The pre-filter applied again *)

Lemma filter_idem (A : Type) (f : A -> bool) (l : list A) :
  filter f (filter f l) = filter f l.
Proof.
  induction l as [|x l IH]; simpl; [reflexivity|].
  destruct (f x) eqn:E; simpl; [rewrite E|]; now rewrite IH.
Qed.

Lemma filter_comm (A : Type) (f g : A -> bool) (l : list A) :
  filter f (filter g l) = filter g (filter f l).
Proof.
  induction l as [|x l IH]; simpl; [reflexivity|].
  destruct (f x) eqn:Ef, (g x) eqn:Eg; simpl; rewrite ?Ef, ?Eg, IH; reflexivity.
Qed.

(** X5: filtering the filtered candidates again changes nothing, for the
    same query and the same excluded ids, unless the query is in the
    premium class, whose threshold is taken anew from what is left. *)
Theorem dataset_idempotent {rt : Runtime} (msg : jsstring) (wines : list Wine)
        (excludeIds : list jsstring) :
  Spec.intent (toLowerCase msg) <> Spec.Premium ->
  dataset msg (dataset msg wines (Some excludeIds)) (Some excludeIds) =
  dataset msg wines (Some excludeIds).
Proof.
  intros Hi. unfold dataset. rewrite !excluded_filter, !priceFilter_spec.
  destruct (Spec.intent (toLowerCase msg)) as [n|n| |].
  - now rewrite filter_comm, filter_idem, filter_comm, filter_idem.
  - now rewrite filter_comm, filter_idem, filter_comm, filter_idem.
  - contradiction.
  - apply filter_idem.
Qed.

Lemma dataset_idempotent_witness :
  dataset (rt := asciiRuntime) (str "a red under 15")
    (dataset (rt := asciiRuntime) (str "a red under 15") Examples.cellar
       (Some [str "w-05"]))
    (Some [str "w-05"]) =
  [Examples.merlot; Examples.syrah].
Proof.
  rewrite (@dataset_idempotent asciiRuntime (str "a red under 15") Examples.cellar
             [str "w-05"]).
  - vm_compute. reflexivity.
  - vm_compute. discriminate.
Defined.

(** The premium class is the exception: of five prices the first pass
    keeps the two highest, the second pass the highest only. *)
Example premium_twice :
  dataset (rt := asciiRuntime) (str "premium") Examples.cellar None =
    [Examples.merlotReserve; Examples.chablis] /\
  dataset (rt := asciiRuntime) (str "premium")
    (dataset (rt := asciiRuntime) (str "premium") Examples.cellar None) None =
    [Examples.chablis].
Proof. split; vm_compute; reflexivity. Qed.

(** X6: the premium filter always keeps a wine that is at least as
    expensive as every candidate. *)
Theorem premium_keeps_dearest (text : jsstring) (candidates : list Wine) (w : Wine) :
  matchAbove text = None ->
  matchUnder text = None ->
  testPremium text = true ->
  In w candidates ->
  (forall v, In v candidates ->
             ge (parsePrice (Price w)) (parsePrice (Price v)) = true) ->
  In w (priceFilter text candidates).
Proof.
  intros Ha Hu Hp Hw Hmax. unfold priceFilter. rewrite Ha, Hu, Hp.
  unfold percentileFilter.
  assert (Hne : candidates <> []) by (intros E; rewrite E in Hw; contradiction).
  destruct (threshold_attained Hne) as (v & Hv & Hprice). cbv zeta in Hprice.
  destruct (sort _ _) as [|p ps] eqn:Es; [assumption|].
  apply filter_In. split; [assumption|].
  rewrite <- Hprice. now apply Hmax.
Qed.

Lemma premium_keeps_dearest_witness :
  In Examples.chablis (priceFilter (str "a luxury bottle") Examples.cellar).
Proof.
  apply (@premium_keeps_dearest (str "a luxury bottle") Examples.cellar Examples.chablis);
    try reflexivity.
  - simpl. tauto.
  - intros v Hv. simpl in Hv.
    repeat (destruct Hv as [<-|Hv]; [vm_compute; reflexivity|]). destruct Hv.
Defined.

(** ** The price normalizer and foreign characters *)

(** X7: characters other than digits, comma, dot and minus do not change
    the parsed price, wherever they stand in the string. *)
Theorem parsePrice_ignores (a junk b : jsstring) :
  Forall (fun c => priceChar c = false) junk ->
  parsePrice (a ++ junk ++ b) = parsePrice (a ++ b).
Proof.
  intros H. unfold parsePrice. f_equal. f_equal.
  rewrite !cleanPrice_keeps, !filter_app. f_equal. f_equal.
  replace (filter priceChar junk) with (@nil N); [reflexivity|].
  induction H as [|c l Hc _ IH]; simpl; [reflexivity|]. now rewrite Hc.
Qed.

Lemma parsePrice_ignores_witness :
  parsePrice (str "13" ++ (str " EUR " ++ [8364%N; 160%N]) ++ str ",99") =
  parsePrice (str "13" ++ str ",99").
Proof.
  apply (@parsePrice_ignores (str "13") (str " EUR " ++ [8364%N; 160%N]) (str ",99")).
  repeat constructor.
Defined.

(** ** The marker line as the prompt asks for it *)

Lemma matchLiteral_i_nth (lit s r : jsstring) (i : nat) :
  matchLiteral_i lit s = Some r -> i < List.length lit ->
  code_eqb_i (nth i s 0%N) (nth i lit 0%N) = true.
Proof.
  revert s i. induction lit as [|p lit IH]; intros s i H Hi; [cbn in Hi; lia|].
  destruct s as [|c s]; [discriminate|]. cbn [matchLiteral_i] in H.
  destruct (code_eqb_i c p) eqn:E; [|discriminate].
  destruct i; [exact E|]. cbn [nth]. apply IH; [exact H | cbn in Hi; lia].
Qed.

Lemma code_eqb_i_underscore (c : N) : code_eqb_i c 95 = true -> c = 95%N.
Proof.
  unfold code_eqb_i, foldCase. change (isLower 95) with false. cbv iota.
  destruct (isLower c) eqn:E; intros H; apply N.eqb_eq in H; [|exact H].
  unfold isLower in E. apply andb_true_iff in E. destruct E as [_ E].
  apply N.leb_le in E. lia.
Qed.

(** The keyword is not found at a position of the prose before it when
    the prose has no underscore: the keyword would have to overlap
    itself, and it has no border. *)
Lemma idSectionAt_prose (t rest : jsstring) :
  t <> [] -> Forall (fun c => c <> 95%N) t ->
  idSectionAt (t ++ str "RECOMMENDED_IDS" ++ rest) = None.
Proof.
  intros Hne Ht. unfold idSectionAt.
  destruct (matchLiteral_i _ _) as [r|] eqn:E; [exfalso|reflexivity].
  assert (H14 := @matchLiteral_i_nth _ _ _ 14 E).
  assert (H11 := @matchLiteral_i_nth _ _ _ 11 E).
  destruct t as [|c1 t]; [contradiction|].
  do 11 (destruct t as [|? t];
         [specialize (H14 ltac:(cbn; lia)); cbn in H14; discriminate|]).
  specialize (H11 ltac:(cbn; lia)). cbn [nth app] in H11.
  change (nth 11 (str "RECOMMENDED_IDS") 0%N) with 95%N in H11.
  apply code_eqb_i_underscore in H11.
  do 11 (apply Forall_inv_tail in Ht). apply Forall_inv in Ht. contradiction.
Qed.

Lemma idSection_prose (t rest : jsstring) :
  Forall (fun c => c <> 95%N) t ->
  idSection (t ++ str "RECOMMENDED_IDS" ++ rest) =
  idSection (str "RECOMMENDED_IDS" ++ rest).
Proof.
  intros Ht. induction Ht as [|c t Hc Ht IH]; [reflexivity|].
  unfold idSection.
  assert (E : idSectionAt ((c :: t) ++ str "RECOMMENDED_IDS" ++ rest) = None)
    by (apply idSectionAt_prose; [discriminate | now constructor]).
  cbn [app] in *. cbn [search]. rewrite E. exact IH.
Qed.

Lemma idSectionAt_marker (ws body rest : jsstring) :
  Forall (fun c => isWhiteSpace c = true) ws ->
  body <> [] ->
  Forall (fun c => c <> 93%N) body ->
  idSectionAt (str "RECOMMENDED_IDS" ++ [58%N] ++ ws ++ [91%N] ++ body ++ [93%N] ++ rest) =
  Some body.
Proof.
  intros Hws Hne Hb. unfold idSectionAt. rewrite matchLiteral_i_self.
  cbn [app]. unfold dropWhile. rewrite span_stop; [|exact Hws|reflexivity].
  cbn [snd]. rewrite span_stop.
  - destruct body; [contradiction|reflexivity].
  - eapply Forall_impl; [|exact Hb]. intros c Hc. cbn beta.
    destruct (N.eqb_spec c 93); [contradiction|reflexivity].
  - reflexivity.
Qed.

Lemma markerBody_nonempty (ids : list jsstring) : ids <> [] -> Spec.markerBody ids <> [].
Proof. destruct ids as [|i [|j ids]]; [contradiction| |]; discriminate. Qed.

Lemma markerBody_no_bracket (ids : list jsstring) :
  Forall (Forall (fun c => c <> 93%N)) ids ->
  Forall (fun c => c <> 93%N) (Spec.markerBody ids).
Proof.
  induction 1 as [|i ids Hi Hids IH]; [constructor|].
  destruct ids as [|j ids].
  - cbn [Spec.markerBody]. repeat (apply Forall_app; split); try assumption;
      repeat constructor; discriminate.
  - assert (E : Spec.markerBody (i :: j :: ids) =
                [34%N] ++ i ++ [34%N] ++ [44%N; 32%N] ++ Spec.markerBody (j :: ids))
      by reflexivity.
    rewrite E. repeat (apply Forall_app; split); try assumption;
      repeat constructor; discriminate.
Qed.

(** X8: a reply written as the prompt asks, some prose without
    underscore, then the keyword with its colon, white space, and the
    bracketed list of quoted ids separated by comma and space, is read back
    as exactly these ids, in order, whatever follows the closing
    bracket. *)
Theorem marker_round_trip (prose ws rest : jsstring) (ids : list jsstring) :
  Forall (fun c => c <> 95%N) prose ->
  Forall (fun c => isWhiteSpace c = true) ws ->
  ids <> [] ->
  Forall Spec.plainId ids ->
  Forall (Forall (fun c => c <> 93%N)) ids ->
  option_map parseIds
    (idSection (prose ++ str "RECOMMENDED_IDS:" ++ ws ++ str "[" ++
                Spec.markerBody ids ++ str "]" ++ rest)) = Some ids.
Proof.
  intros Hp Hws Hne Hplain Hbr.
  change (str "RECOMMENDED_IDS:" ++ ws ++ str "[" ++ Spec.markerBody ids ++ str "]" ++ rest)
    with (str "RECOMMENDED_IDS" ++
          ([58%N] ++ ws ++ [91%N] ++ Spec.markerBody ids ++ [93%N] ++ rest)).
  rewrite idSection_prose by exact Hp.
  unfold idSection.
  assert (E := @idSectionAt_marker ws (Spec.markerBody ids) rest Hws
                 (markerBody_nonempty Hne) (markerBody_no_bracket Hbr)).
  destruct (str "RECOMMENDED_IDS" ++ _) eqn:Es; cbn [search]; rewrite E;
    cbn [option_map]; now rewrite parseIds_markerBody.
Qed.

Lemma marker_round_trip_witness :
  option_map parseIds
    (idSection (str "Try the Chablis [2019] with fish." ++ str "RECOMMENDED_IDS:" ++
                str " " ++ str "[" ++ Spec.markerBody [str "w-03"; str "w-01"] ++
                str "]" ++ str " RECOMMENDED_IDS: [x]")) =
  Some [str "w-03"; str "w-01"].
Proof.
  apply (@marker_round_trip (str "Try the Chablis [2019] with fish.") (str " ")
           (str " RECOMMENDED_IDS: [x]") [str "w-03"; str "w-01"]).
  - repeat constructor; discriminate.
  - repeat constructor.
  - discriminate.
  - repeat constructor; try discriminate.
  - repeat constructor; discriminate.
Defined.

(** ** The cart store and its queries *)

Import CartQueries.


Lemma isInCart_findIndex (u : jsstring) (items : list CartItem) :
  isInCart u items = match findIndex u items with Some _ => true | None => false end.
Proof.
  induction items as [|item rest IH]; [reflexivity|].
  cbn [isInCart existsb findIndex]. fold (isInCart u rest).
  destruct (string_eqb (URL (wine item)) u); [reflexivity|].
  rewrite IH. now destruct (findIndex u rest).
Qed.

Lemma find_absent (u : jsstring) (items : list CartItem) :
  findIndex u items = None ->
  find (fun item => string_eqb (URL (wine item)) u) items = None.
Proof.
  induction items as [|item rest IH]; [reflexivity|]. cbn [findIndex find].
  destruct (string_eqb (URL (wine item)) u); [discriminate|].
  destruct (findIndex u rest); [discriminate|]. intros _. now apply IH.
Qed.

(** The entry [findIndex] points at is the first one with the URL. *)
Lemma findIndex_split (u : jsstring) (i : nat) (f : CartItem -> CartItem)
      (items : list CartItem) :
  findIndex u items = Some i ->
  exists pre item post,
    items = pre ++ item :: post /\
    URL (wine item) = u /\
    findIndex u pre = None /\
    updateAt i f items = pre ++ f item :: post.
Proof.
  revert i; induction items as [|x rest IH]; intros i; [discriminate|].
  cbn [findIndex]. destruct (string_eqb (URL (wine x)) u) eqn:E.
  - intros [= <-]. exists [], x, rest. apply string_eqb_eq in E. now repeat split.
  - destruct (findIndex u rest) as [j|]; [|discriminate]. intros [= <-].
    destruct (IH j eq_refl) as (pre & item & post & -> & Hu & Hpre & Hupd).
    exists (x :: pre), item, post. repeat split; try assumption.
    + cbn [findIndex]. now rewrite E, Hpre.
    + cbn [updateAt app]. now rewrite Hupd.
Qed.

Lemma getItemQuantity_at (u : jsstring) (pre post : list CartItem) (item : CartItem) :
  findIndex u pre = None -> URL (wine item) = u ->
  getItemQuantity u (pre ++ item :: post) = quantity item.
Proof.
  intros Hpre Hu. unfold getItemQuantity.
  rewrite find_app, (find_absent _ _ Hpre). cbn [find].
  now rewrite <- Hu, string_eqb_refl.
Qed.

Lemma isInCart_at (u : jsstring) (pre post : list CartItem) (item : CartItem) :
  URL (wine item) = u -> isInCart u (pre ++ item :: post) = true.
Proof.
  intros Hu. unfold isInCart. rewrite existsb_app. cbn [existsb].
  rewrite <- Hu, string_eqb_refl. now rewrite orb_true_r.
Qed.





Lemma removeItem_absent (u : jsstring) (items : list CartItem) :
  isInCart u items = false -> removeItem u items = items.
Proof.
  induction items as [|item rest IH]; [reflexivity|].
  cbn [isInCart existsb removeItem filter]. fold (isInCart u rest). fold (removeItem u rest).
  destruct (string_eqb (URL (wine item)) u); [discriminate|].
  cbn [orb negb]. intros H. now rewrite IH.
Qed.

Lemma removeItem_gone (u : jsstring) (items : list CartItem) :
  isInCart u (removeItem u items) = false.
Proof.
  induction items as [|item rest IH]; [reflexivity|].
  cbn [removeItem filter]. fold (removeItem u rest).
  destruct (string_eqb (URL (wine item)) u) eqn:E; cbn [negb]; [exact IH|].
  cbn [isInCart existsb]. fold (isInCart u (removeItem u rest)).
  now rewrite E, IH.
Qed.






(** X12: adding a wine that was not in the cart and removing it again
    gives the cart back as it was, entry for entry, whether the cart was
    full or not. *)
Theorem add_then_remove (now : nat) (w : Wine) (q : number) (items : list CartItem) :
  isInCart (URL w) items = false ->
  removeItem (URL w) (fst (addItem now w q items)) = items.
Proof.
  intros H. unfold addItem. pose proof H as H'. rewrite isInCart_findIndex in H'.
  destruct (findIndex (URL w) items); [discriminate|].
  destruct (MAX_CART_ITEMS <=? List.length items)%nat; cbn [fst].
  - now apply removeItem_absent.
  - unfold removeItem. rewrite filter_app. cbn [filter wine].
    rewrite string_eqb_refl. cbn [negb]. rewrite app_nil_r.
    now apply removeItem_absent.
Qed.

Lemma add_then_remove_witness :
  removeItem (URL Examples.syrah)
    (fst (addItem 7 Examples.syrah (ofZ 3) [MoreExamples.item Examples.merlot 2])) =
  [MoreExamples.item Examples.merlot 2].
Proof.
  apply (@add_then_remove 7 Examples.syrah (ofZ 3) [MoreExamples.item Examples.merlot 2]).
  vm_compute. reflexivity.
Defined.

(** ** The product popup and the cart *)

Lemma getItemQuantity_holds (P : number -> Prop) (u : jsstring) (items : list CartItem) :
  Forall (fun item => P (quantity item)) items ->
  isInCart u items = true -> P (getItemQuantity u items).
Proof.
  intros Hall Hin. unfold getItemQuantity.
  destruct (find _ items) as [item|] eqn:E.
  - apply find_some in E as [E _]. revert item E. now apply Forall_forall.
  - unfold isInCart in Hin. apply existsb_exists in Hin as (item & Hi & Hu).
    now rewrite (find_none _ _ E item Hi) in Hu.
Qed.

Lemma getItemQuantity_absent (u : jsstring) (items : list CartItem) :
  isInCart u items = false -> getItemQuantity u items = zero.
Proof.
  intros H. unfold getItemQuantity. rewrite find_absent; [reflexivity|].
  rewrite isInCart_findIndex in H. now destruct (findIndex u items).
Qed.

(** A Number that is at least 1 is truthy. *)
Lemma orElse_positive (q d : number) : le one q = true -> orElse q d = q.
Proof.
  destruct q as [[|]|[|]| |[|] m e]; intros H; try discriminate H; reflexivity.
Qed.

Lemma openEffect_inSync (w : Wine) (st : WinePopup.State) :
  Forall (fun item => le one (quantity item) = true) (WinePopup.items st) ->
  WinePopup.inSync (WinePopup.openEffect w st).
Proof.
  intros Hpos. unfold WinePopup.inSync, WinePopup.openEffect.
  cbn [WinePopup.items WinePopup.wine WinePopup.isAddedToCart WinePopup.quantity].
  destruct (isInCart (URL w) (WinePopup.items st)) eqn:E.
  - pose proof (@getItemQuantity_holds (fun q => le one q = true) _ _ Hpos E) as Hq.
    cbv beta in Hq. rewrite (@orElse_positive _ one Hq).
    split; [reflexivity|]. split; [reflexivity|]. split; assumption.
  - rewrite (getItemQuantity_absent _ _ E).
    split; [reflexivity|]. split; [discriminate|]. split; [reflexivity|assumption].
Qed.

Lemma openEffect_inRange (w : Wine) (st : WinePopup.State) :
  Forall (fun item => le (quantity item) ten = true) (WinePopup.items st) ->
  WinePopup.inRange (WinePopup.openEffect w st).
Proof.
  intros Hmax. unfold WinePopup.inRange, WinePopup.openEffect.
  cbn [WinePopup.items WinePopup.quantity]. split; [|assumption].
  destruct (isInCart (URL w) (WinePopup.items st)) eqn:E.
  - pose proof (@getItemQuantity_holds (fun q => le q ten = true) _ _ Hmax E) as Hq.
    cbv beta in Hq. unfold orElse.
    destruct (truthy (getItemQuantity (URL w) (WinePopup.items st)));
      [exact Hq|reflexivity].
  - now rewrite (getItemQuantity_absent _ _ E).
Qed.

(** What [updateQuantity] with a Number that is not [<= 0] does to a wine
    of the cart, in the terms of the invariants. *)
Lemma updateQuantity_present (P : number -> Prop) (u : jsstring) (q : number)
      (items : list CartItem) :
  le q zero = false -> isInCart u items = true -> P q ->
  Forall (fun item => P (quantity item)) items ->
  isInCart u (updateQuantity u q items) = true /\
  getItemQuantity u (updateQuantity u q items) = q /\
  Forall (fun item => P (quantity item)) (updateQuantity u q items).
Proof.
  intros Hq Hin HP Hall. unfold updateQuantity.
  rewrite isInCart_findIndex in Hin.
  destruct (findIndex u items) as [i|] eqn:Ei; [|discriminate].
  rewrite Hq.
  split; [|split].
  - destruct (@findIndex_split u i
                (fun item => {| wine := wine item; quantity := q;
                                addedAt := addedAt item |}) items Ei)
      as (pre & item & post & -> & Hu & Hpre & ->).
    now apply isInCart_at.
  - destruct (@findIndex_split u i
                (fun item => {| wine := wine item; quantity := q;
                                addedAt := addedAt item |}) items Ei)
      as (pre & item & post & -> & Hu & Hpre & ->).
    now rewrite getItemQuantity_at.
  - apply updateAt_Forall; [|assumption]. intros item _. exact HP.
Qed.

Lemma handleQuantityChange_inSync (n : number) (st : WinePopup.State) :
  WinePopup.inSync st -> WinePopup.inSync (WinePopup.handleQuantityChange n st).
Proof.
  intros (Hflag & Hq & H1 & Hpos). unfold WinePopup.handleQuantityChange.
  destruct (ge n one && le n ten)%bool eqn:G;
    [|split; [assumption|]; split; [assumption|]; split; assumption].
  apply andb_true_iff in G as [G1 G2]. change (ge n one) with (le one n) in G1.
  unfold WinePopup.inSync.
  cbn [WinePopup.items WinePopup.wine WinePopup.isAddedToCart WinePopup.quantity].
  destruct (WinePopup.isAddedToCart st) eqn:Ea.
  - destruct (@updateQuantity_present (fun q => le one q = true)
                (URL (WinePopup.wine st)) n (WinePopup.items st))
      as (Hin & Hget & Hall); try assumption;
      [now apply le_one_positive | now symmetry |].
    split; [now symmetry|]. split; [now intros _|]. split; assumption.
  - split; [assumption|]. split; [discriminate|]. split; assumption.
Qed.

Lemma handleQuantityChange_inRange (n : number) (st : WinePopup.State) :
  WinePopup.inSync st -> WinePopup.inRange st ->
  WinePopup.inRange (WinePopup.handleQuantityChange n st).
Proof.
  intros (Hflag & _) (Hq & Hmax). unfold WinePopup.handleQuantityChange.
  destruct (ge n one && le n ten)%bool eqn:G; [|now split].
  apply andb_true_iff in G as [G1 G2]. change (ge n one) with (le one n) in G1.
  unfold WinePopup.inRange. cbn [WinePopup.items WinePopup.quantity].
  split; [assumption|].
  destruct (WinePopup.isAddedToCart st) eqn:Ea; [|assumption].
  destruct (@updateQuantity_present (fun q => le q ten = true)
              (URL (WinePopup.wine st)) n (WinePopup.items st))
    as (_ & _ & Hall); try assumption; [now apply le_one_positive | now symmetry].
Qed.

(** The add button, which is rendered while the flag is off. *)
Lemma handleAddToCart_inSync (now : nat) (st : WinePopup.State) :
  WinePopup.isAddedToCart st = false ->
  WinePopup.inSync st ->
  WinePopup.inSync (WinePopup.handleAddToCart now st) /\
  (WinePopup.inRange st -> WinePopup.inRange (WinePopup.handleAddToCart now st)).
Proof.
  intros Ea (Hflag & Hq & H1 & Hpos). rewrite Ea in Hflag. symmetry in Hflag.
  pose proof Hflag as Hnone. rewrite isInCart_findIndex in Hnone.
  unfold WinePopup.handleAddToCart, addItem.
  destruct (findIndex (URL (WinePopup.wine st)) (WinePopup.items st)) eqn:Ef;
    [discriminate|].
  destruct (MAX_CART_ITEMS <=? List.length (WinePopup.items st))%nat.
  - unfold WinePopup.inSync, WinePopup.inRange.
    cbn [WinePopup.items WinePopup.wine WinePopup.isAddedToCart WinePopup.quantity].
    rewrite Ea. split; [|tauto].
    split; [now symmetry|]. split; [discriminate|]. split; assumption.
  - unfold WinePopup.inSync, WinePopup.inRange.
    cbn [WinePopup.items WinePopup.wine WinePopup.isAddedToCart WinePopup.quantity].
    split.
    + split; [symmetry; now apply isInCart_at|].
      split; [intros _; now rewrite getItemQuantity_at|].
      split; [assumption|].
      apply Forall_app. split; [assumption|]. constructor; [exact H1|constructor].
    + intros [Hq10 Hmax]. split; [assumption|].
      apply Forall_app. split; [assumption|]. constructor; [exact Hq10|constructor].
Qed.

Lemma handleRemoveFromCart_inSync (st : WinePopup.State) :
  WinePopup.inSync st ->
  WinePopup.inSync (WinePopup.handleRemoveFromCart st) /\
  (WinePopup.inRange st -> WinePopup.inRange (WinePopup.handleRemoveFromCart st)).
Proof.
  intros (Hflag & Hq & H1 & Hpos).
  unfold WinePopup.inSync, WinePopup.inRange, WinePopup.handleRemoveFromCart.
  cbn [WinePopup.items WinePopup.wine WinePopup.isAddedToCart WinePopup.quantity].
  split.
  - split; [symmetry; apply removeItem_gone|]. split; [discriminate|].
    split; [reflexivity|]. now apply removeItem_Forall.
  - intros [_ Hmax]. split; [reflexivity|]. now apply removeItem_Forall.
Qed.

Lemma step_inSync (st : WinePopup.State) (ev : WinePopup.Event) :
  WinePopup.inSync st ->
  WinePopup.inSync (WinePopup.step st ev) /\
  (WinePopup.inRange st -> WinePopup.inRange (WinePopup.step st ev)).
Proof.
  intros H. destruct ev as [w|now| | |]; cbn [WinePopup.step].
  - destruct H as (_ & _ & _ & Hpos).
    split; [now apply openEffect_inSync|].
    intros [_ Hmax]. now apply openEffect_inRange.
  - destruct (WinePopup.isAddedToCart st) eqn:Ea; [tauto|].
    now apply handleAddToCart_inSync.
  - destruct (le (WinePopup.quantity st) one); [tauto|].
    split; [now apply handleQuantityChange_inSync|].
    now apply handleQuantityChange_inRange.
  - destruct (ge (WinePopup.quantity st) ten); [tauto|].
    split; [now apply handleQuantityChange_inSync|].
    now apply handleQuantityChange_inRange.
  - destruct (WinePopup.isAddedToCart st); [|tauto].
    now apply handleRemoveFromCart_inSync.
Qed.

Lemma fold_inSync (events : list WinePopup.Event) (st : WinePopup.State) :
  WinePopup.inSync st ->
  WinePopup.inSync (fold_left WinePopup.step events st) /\
  (WinePopup.inRange st -> WinePopup.inRange (fold_left WinePopup.step events st)).
Proof.
  revert st; induction events as [|ev events IH]; intros st H; [tauto|].
  cbn [fold_left]. destruct (step_inSync ev H) as [H1 H2].
  destruct (IH _ H1) as [H3 H4]. split; [assumption|]. auto.
Qed.

(** X13: over a cart whose quantities are all at least 1, a popup that
    has been opened stays in agreement with the cart whatever is clicked
    and whichever wines it is opened for next: its flag tells whether the
    wine is in the cart, its selector shows a quantity of at least 1,
    which is the quantity of the wine in the cart when the flag is on, and
    the quantities of the cart stay at least 1; when the quantities of the
    cart were at most 10 they and the selector stay so. Quantities are
    Numbers and the comparisons are those of Numbers. *)
Theorem popup_in_sync (cart : list CartItem) (w : Wine)
        (events : list WinePopup.Event) :
  Forall (fun item => le one (quantity item) = true) cart ->
  let st :=
    fold_left WinePopup.step events
      (WinePopup.openEffect w (WinePopup.closed cart w)) in
  WinePopup.isAddedToCart st = isInCart (URL (WinePopup.wine st)) (WinePopup.items st) /\
  (WinePopup.isAddedToCart st = true ->
   getItemQuantity (URL (WinePopup.wine st)) (WinePopup.items st) =
   WinePopup.quantity st) /\
  le one (WinePopup.quantity st) = true /\
  Forall (fun item => le one (quantity item) = true) (WinePopup.items st) /\
  (Forall (fun item => le (quantity item) ten = true) cart ->
   le (WinePopup.quantity st) ten = true /\
   Forall (fun item => le (quantity item) ten = true) (WinePopup.items st)).
Proof.
  intros Hpos st.
  assert (H0 : WinePopup.inSync (WinePopup.openEffect w (WinePopup.closed cart w)))
    by now apply openEffect_inSync.
  destruct (fold_inSync events H0) as [(Ha & Hb & Hc & Hd) He]. fold st in Ha, Hb, Hc, Hd, He.
  split; [exact Ha|]. split; [exact Hb|]. split; [exact Hc|]. split; [exact Hd|].
  intros Hmax. apply He. now apply openEffect_inRange.
Qed.

Lemma popup_in_sync_witness :
  let st :=
    fold_left WinePopup.step
      [WinePopup.ClickPlus; WinePopup.ClickAdd 5; WinePopup.ClickPlus;
       WinePopup.Open Examples.merlot; WinePopup.ClickMinus]
      (WinePopup.openEffect Examples.syrah
         (WinePopup.closed [MoreExamples.item Examples.merlot 2] Examples.syrah)) in
  WinePopup.items st =
    [MoreExamples.item Examples.merlot 1;
     {| wine := Examples.syrah; quantity := ofZ 3; addedAt := 5 |}] /\
  WinePopup.isAddedToCart st = true /\
  WinePopup.quantity st = one.
Proof.
  cbv zeta.
  pose proof (@popup_in_sync [MoreExamples.item Examples.merlot 2] Examples.syrah
                [WinePopup.ClickPlus; WinePopup.ClickAdd 5; WinePopup.ClickPlus;
                 WinePopup.Open Examples.merlot; WinePopup.ClickMinus]) as H.
  cbv zeta in H. destruct H as (Ha & _ & _ & _ & _).
  - constructor; [reflexivity|constructor].
  - split; [vm_compute; reflexivity|]. split; [|vm_compute; reflexivity].
    rewrite Ha. vm_compute. reflexivity.
Defined.

(** ** The list kept for pagination *)

Section PaddingFacts.
Context {rt : Runtime}.

Lemma existsb_id (recs : list Wine) (w : Wine) :
  existsb (fun r => string_eqb (id r) (id w)) recs = true <-> In (id w) (map id recs).
Proof.
  rewrite existsb_exists. split.
  - intros (r & Hr & E). apply string_eqb_eq in E. rewrite <- E. now apply in_map.
  - intros H. apply in_map_iff in H as (r & E & Hr). exists r.
    split; [assumption|]. now apply string_eqb_eq.
Qed.

(** X14: the list kept for pagination starts with the recommendations of
    the response; when these are fewer than 16 it goes on with catalog
    wines whose ids are not among them, of the colour the query names if
    it names one, up to 16 wines in all; it stays
    shorter than 16 only when no such catalog wine is left out; and its
    ids are distinct when those of the recommendations and of the catalog
    are. *)
Theorem fullRecs_padding (userQuery : jsstring) (catalog recs : list Wine) :
  let fresh := fun w =>
    ~ In (id w) (map id recs) /\
    forall k, colorKey (toLowerCase userQuery) = Some k -> colorIs k w = true in
  exists padding,
    fullRecs userQuery catalog recs = recs ++ padding /\
    (List.length (recs ++ padding) <= Nat.max 16 (List.length recs))%nat /\
    (forall w, In w padding -> In w catalog /\ fresh w) /\
    ((16 <= List.length recs)%nat -> padding = []) /\
    ((List.length (recs ++ padding) < 16)%nat ->
     forall w, In w catalog -> fresh w -> In w padding) /\
    (NoDup (map id recs) -> NoDup (map id catalog) ->
     NoDup (map id (recs ++ padding))).
Proof.
  cbv zeta.
  set (keep := fun w =>
         negb (existsb (fun r => string_eqb (id r) (id w)) recs) &&
         match colorKey (toLowerCase userQuery) with
         | Some k => colorIs k w
         | None => true
         end).
  assert (Hkeep : forall w, keep w = true <->
            ~ In (id w) (map id recs) /\
            forall k, colorKey (toLowerCase userQuery) = Some k -> colorIs k w = true).
  { intros w. unfold keep. rewrite andb_true_iff, negb_true_iff.
    rewrite <- not_true_iff_false, existsb_id.
    destruct (colorKey (toLowerCase userQuery)) as [k|].
    - split; intros [H1 H2]; (split; [assumption|]).
      + now intros k' [= <-].
      + now apply H2.
    - split; intros [H1 H2]; (split; [assumption|]); [discriminate | reflexivity]. }
  pose proof (@fullRecs_ids_unique rt userQuery catalog recs) as Hnd.
  unfold fullRecs in *. fold keep in Hnd |- *.
  destruct (List.length recs <? 16)%nat eqn:E.
  - apply Nat.ltb_lt in E.
    exists (firstn (16 - List.length recs) (filter keep catalog)).
    split; [reflexivity|]. split; [rewrite length_app, length_firstn; lia|].
    split.
    { intros w Hw. apply firstn_incl_in, filter_In in Hw as [Hc Hk].
      split; [assumption | now apply Hkeep]. }
    split; [lia|]. split; [|exact Hnd].
    intros Hshort w Hc Hf. rewrite length_app, length_firstn in Hshort.
    rewrite firstn_all2 by lia. apply filter_In. split; [assumption|].
    now apply Hkeep.
  - apply Nat.ltb_ge in E. exists []. rewrite app_nil_r.
    split; [reflexivity|]. split; [lia|]. split; [intros w []|].
    split; [reflexivity|]. split; [lia | exact Hnd].
Qed.
End PaddingFacts.

(** ** A query without recommendations *)

Section QueryFacts.
Context {rt : Runtime}.

(** X15: a query whose fetch fails, or whose response recommends
    nothing, costs one fetch, keeps the list prefetched for the previous
    query and the messages, and clears the shown ids; a show-more action
    after it shows the first four wines of the previous list again, from
    index 0. *)
Theorem failed_query_replays (catalog : list Wine) (input : jsstring)
        (result : option Response) (st : State) :
  trim input <> [] ->
  match result with Some res => recommendations res = [] | None => True end ->
  let st' := handleSubmit catalog input result st in
  lastRecs st' = lastRecs st /\
  shownIds st' = [] /\
  fetches st' = S (fetches st) /\
  messages st' = messages st ++ [UserText; AssistantText] /\
  shownIds (handleShowMore st') = map id (firstn 4 (lastRecs st)) /\
  (lastRecs st <> [] ->
   messages (handleShowMore st') =
   (messages st' ++ [WineRecommendations (firstn 4 (lastRecs st)) 0]) ++
   (if (4 <? List.length (lastRecs st))%nat then [ShowMore] else [])).
Proof.
  intros Hi Hr st'.
  assert (E : st' = {| messages := (messages st ++ [UserText]) ++ [AssistantText];
                       shownIds := []; lastRecs := lastRecs st;
                       fetches := S (fetches st) |}).
  { unfold st', handleSubmit. destruct (trim input); [contradiction|].
    destruct result as [res|]; [|reflexivity]. now rewrite Hr. }
  rewrite E. cbn [lastRecs shownIds fetches messages].
  split; [reflexivity|]. split; [reflexivity|]. split; [reflexivity|].
  split; [now rewrite <- app_assoc|].
  unfold handleShowMore. cbn [lastRecs shownIds fetches messages List.length].
  unfold slice. cbn [Nat.add Nat.sub skipn].
  destruct (firstn 4 (lastRecs st)) as [|w ws] eqn:Ef.
  - split; [reflexivity|]. intros Hne. destruct (lastRecs st); [contradiction|discriminate].
  - cbn [shownIds messages]. split; [now rewrite app_nil_l|]. intros _.
    assert (El : List.length (w :: ws) = Nat.min 4 (List.length (lastRecs st)))
      by (rewrite <- Ef; apply length_firstn).
    destruct (Nat.ltb_spec (List.length (w :: ws)) (List.length (lastRecs st)));
      destruct (Nat.ltb_spec 4 (List.length (lastRecs st))); try reflexivity; lia.
Qed.




(** X17: a query answered through the endpoint, the completion call
    succeeding: the response recommends at most 8 catalog wines, none of
    them with an id shown for the previous query, and none at all only
    when the pre-filter leaves no candidate; with recommendations the list
    kept is their padded list and its first four wines are shown; without,
    the previous list is kept and no id is shown; one fetch is made. *)
Theorem ask_excludes_shown (language : Language) (catalog : list Wine)
        (text input : jsstring) (st : State) :
  trim input <> [] ->
  let st' := Session.ask true language catalog [Some text] input st in
  exists recs,
    (forall w, In w recs -> In w catalog /\ ~ In (id w) (shownIds st)) /\
    (List.length recs <= 8)%nat /\
    (recs = [] <-> dataset (trim input) catalog (Some (shownIds st)) = []) /\
    fetches st' = S (fetches st) /\
    (recs <> [] ->
     lastRecs st' = fullRecs (trim input) catalog recs /\
     shownIds st' = map id (firstn 4 (lastRecs st'))) /\
    (recs = [] -> lastRecs st' = lastRecs st /\ shownIds st' = []).
Proof.
  intros Hi st'.
  destruct (post_answer (trim input) language catalog (shownIds st) text)
    as (res & Hrun & _ & Hin & Hlen & Hnil).
  exists (recommendations res).
  split; [exact Hin|]. split; [exact Hlen|]. split; [exact Hnil|].
  unfold st', Session.ask. rewrite Hrun.
  destruct (recommendations res) as [|r rs] eqn:Er.
  - unfold handleSubmit. rewrite Er.
    destruct (trim input); [contradiction|]. cbn [fetches lastRecs shownIds].
    split; [reflexivity|]. split; [intros H; now contradiction H | now intros _].
  - assert (Hr : recommendations res <> []) by (rewrite Er; discriminate).
    destruct (@handleSubmit_paged rt catalog input res st Hi Hr) as [(HL & Hs & _) Hf].
    rewrite Er in HL, Hs. split; [exact Hf|]. split; [|discriminate].
    intros _. split; [exact HL|]. rewrite Hs, HL.
    destruct (Nat.le_ge_cases 4 (List.length (fullRecs (trim input) catalog (r :: rs))))
      as [H|H].
    + now rewrite (Nat.min_l _ _ H).
    + rewrite (Nat.min_r _ _ H). now rewrite !firstn_all2 by lia.
Qed.
End QueryFacts.

Lemma failed_query_replays_witness :
  shownIds
    (handleShowMore
       (handleSubmit (rt := asciiRuntime) Examples.tenWines (str "and now?") None
          MoreExamples.afterFirstQuery)) =
  map id (firstn 4 Examples.tenWines).
Proof.
  pose proof (@failed_query_replays asciiRuntime Examples.tenWines (str "and now?")
                None MoreExamples.afterFirstQuery) as H.
  cbv zeta in H. destruct H as (_ & _ & _ & _ & H & _).
  - vm_compute. discriminate.
  - exact I.
  - rewrite H. vm_compute. reflexivity.
Defined.


Lemma ask_excludes_shown_witness :
  exists recs,
    (forall w, In w recs ->
               In w Examples.tenWines /\
               ~ In (id w) (shownIds MoreExamples.afterFirstQuery)) /\
    (List.length recs <= 8)%nat /\
    lastRecs
      (Session.ask (rt := asciiRuntime) true en Examples.tenWines
         [Some (str "Take the Cuvee a.")] (str "one more")
         MoreExamples.afterFirstQuery) =
    fullRecs (rt := asciiRuntime) (str "one more") Examples.tenWines recs.
Proof.
  destruct (@ask_excludes_shown asciiRuntime en Examples.tenWines
              (str "Take the Cuvee a.") (str "one more") MoreExamples.afterFirstQuery)
    as (recs & Hin & Hlen & Hnil & _ & Hfull & _).
  - vm_compute. discriminate.
  - exists recs. split; [exact Hin|]. split; [exact Hlen|].
    apply Hfull. intros E. apply Hnil in E. vm_compute in E. discriminate.
Defined.

(** ** The suggestion chips *)

Lemma NoDup_map_filter (A B : Type) (g : A -> B) (p : A -> bool) (l : list A) :
  NoDup (map g l) -> NoDup (map g (filter p l)).
Proof.
  induction l as [|x l IH]; simpl; intros H; [constructor|].
  inversion H as [|? ? Hn Hr]; subst.
  destruct (p x); simpl; [|now apply IH].
  constructor; [|now apply IH].
  intros Hin. apply Hn. apply in_map_iff in Hin as (y & Hy & Hf).
  apply filter_In in Hf as [Hf _]. apply in_map_iff. now exists y.
Qed.

Section SuggestionFacts.
Context {rt : Runtime}.

(** Fallbacks with distinct keys: at most as many of them are stored as
    there are stored suggestions. *)
Lemma stored_fallbacks (topSuggestions fallbackSuggestions : list jsstring) :
  NoDup (map (fun s => trim (toLowerCase s)) fallbackSuggestions) ->
  (List.length
     (filter
        (fun fallback =>
           existsb (fun stored => Suggestions.sameSuggestion stored fallback)
             topSuggestions)
        fallbackSuggestions) <= List.length topSuggestions)%nat.
Proof.
  intros Hnd.
  rewrite <- (length_map (fun s => trim (toLowerCase s)) (filter _ _)).
  rewrite <- (length_map (fun s => trim (toLowerCase s)) topSuggestions).
  apply NoDup_incl_length; [now apply NoDup_map_filter|].
  intros k Hk. apply in_map_iff in Hk as (fb & <- & Hfb).
  apply filter_In in Hfb as [_ Hfb]. apply existsb_exists in Hfb as (stored & Hs & E).
  unfold Suggestions.sameSuggestion in E. apply string_eqb_eq in E. rewrite <- E.
  apply in_map_iff. now exists stored.
Qed.

(** X18: when the fallback suggestions of the language are at least 6
    and differ from one another after lower-casing and trimming, exactly 6
    suggestions are shown: the stored ones first, at most 6 of them, then
    fallbacks that no stored suggestion equals after lower-casing and
    trimming. *)
Theorem updateSuggestions_six (topSuggestions fallbackSuggestions : list jsstring) :
  NoDup (map (fun s => trim (toLowerCase s)) fallbackSuggestions) ->
  (6 <= List.length fallbackSuggestions)%nat ->
  exists padding,
    Suggestions.updateSuggestions topSuggestions fallbackSuggestions =
      firstn 6 topSuggestions ++ padding /\
    List.length (firstn 6 topSuggestions ++ padding) = 6%nat /\
    forall s, In s padding ->
              In s fallbackSuggestions /\
              forall stored, In stored topSuggestions ->
                             trim (toLowerCase stored) <> trim (toLowerCase s).
Proof.
  intros Hnd Hlen. unfold Suggestions.updateSuggestions.
  assert (Hslice : forall (l : list jsstring) n, slice l 0 n = firstn n l).
  { intros l n. unfold slice. now rewrite Nat.sub_0_r. }
  rewrite !Hslice.
  destruct (Nat.leb_spec 6 (List.length topSuggestions)) as [H6|H6].
  - exists []. rewrite app_nil_r.
    assert (E : List.length (firstn 6 topSuggestions) = 6%nat)
      by (rewrite length_firstn; lia).
    rewrite E. cbn [Nat.ltb Nat.leb]. rewrite firstn_all2 by lia.
    split; [reflexivity|]. split; [first [exact E | reflexivity] | intros s []].
  - set (available :=
           filter
             (fun fallback =>
                negb (existsb (fun stored => Suggestions.sameSuggestion stored fallback)
                        topSuggestions))
             fallbackSuggestions).
    pose proof (@stored_fallbacks topSuggestions fallbackSuggestions Hnd) as Hs.
    pose proof (filter_length
                  (fun fallback =>
                     existsb (fun stored => Suggestions.sameSuggestion stored fallback)
                       topSuggestions)
                  fallbackSuggestions) as Hf.
    cbv beta in Hf. fold available in Hf.
    set (final := topSuggestions ++
                  firstn (6 - List.length topSuggestions) available).
    assert (E : List.length final = 6%nat).
    { unfold final. rewrite length_app, length_firstn. lia. }
    rewrite E. cbn [Nat.ltb Nat.leb]. rewrite firstn_all2 by lia.
    exists (firstn (6 - List.length topSuggestions) available).
    rewrite (firstn_all2 (n := 6) topSuggestions) by lia.
    split; [reflexivity|]. split; [first [exact E | reflexivity]|].
    intros s Hin. apply firstn_incl_in in Hin. apply filter_In in Hin as [Hin Hno].
    split; [assumption|]. intros stored Hst Heq.
    apply negb_true_iff in Hno.
    assert (Hex : existsb (fun stored => Suggestions.sameSuggestion stored s)
                    topSuggestions = true).
    { apply existsb_exists. exists stored. split; [assumption|].
      unfold Suggestions.sameSuggestion. now apply string_eqb_eq. }
    congruence.
Qed.
End SuggestionFacts.

Lemma updateSuggestions_six_witness :
  List.length
    (Suggestions.updateSuggestions (rt := asciiRuntime)
       [str "  WHICH WINE PAIRS WELL WITH CHEESE? "; str "a dry white"]
       MoreExamples.fallbacksEn) = 6%nat.
Proof.
  destruct (@updateSuggestions_six asciiRuntime
              [str "  WHICH WINE PAIRS WELL WITH CHEESE? "; str "a dry white"]
              MoreExamples.fallbacksEn) as (padding & -> & H & _).
  - vm_compute. repeat (constructor; [simpl; intuition discriminate|]). constructor.
  - vm_compute. lia.
  - exact H.
Defined.

(** ** The item count *)

Lemma getItemCount_map (items : list CartItem) :
  getItemCount items = fold_left add (map quantity items) zero.
Proof.
  unfold getItemCount. generalize zero.
  induction items as [|item rest IH]; intros a; [reflexivity|].
  cbn [fold_left map]. apply IH.
Qed.

(** X19: in a cart of at most 2^49 entries whose quantities are all
    Numbers between 1 and 10, as the popup leaves them, the item count,
    which is a sum of Numbers with every addition rounded, lies between
    the number of entries and ten times that number, and it is 0 only for
    the empty cart. *)
Theorem getItemCount_bounds (items : list CartItem) :
  Forall (fun item => valid (quantity item) = true /\ Spec.inRange (quantity item))
    items ->
  (Z.of_nat (List.length items) <= 2 ^ 49)%Z ->
  le (ofZ (Z.of_nat (List.length items))) (getItemCount items) = true /\
  le (getItemCount items) (ofZ (10 * Z.of_nat (List.length items))) = true /\
  (getItemCount items = zero <-> items = []).
Proof.
  intros H Hlen. rewrite getItemCount_map.
  assert (Hs : Binary64.sumInv (Z.of_nat (List.length (map quantity items)))
                 (fold_left add (map quantity items) zero)).
  { apply sum_bounds; [|now rewrite length_map].
    apply Forall_map. revert H. apply Forall_impl.
    intros item (Hv & H1 & H10). split; [split|]; assumption. }
  rewrite length_map in Hs.
  destruct (@sumInv_le (Z.of_nat (List.length items))
              (fold_left add (map quantity items) zero)) as (H1 & H2 & H3);
    [lia | lia | exact Hs |].
  split; [exact H1|]. split; [exact H2|].
  unfold zero. rewrite H3. split.
  - intros E. destruct items; [reflexivity|discriminate E].
  - now intros ->.
Qed.

Lemma getItemCount_bounds_witness :
  le (ofZ 2)
     (getItemCount
        [MoreExamples.item Examples.merlot 2; MoreExamples.item Examples.syrah 10]) =
    true /\
  le (getItemCount
        [MoreExamples.item Examples.merlot 2; MoreExamples.item Examples.syrah 10])
     (ofZ 20) = true.
Proof.
  destruct (@getItemCount_bounds
              [MoreExamples.item Examples.merlot 2; MoreExamples.item Examples.syrah 10])
    as (H1 & H2 & _).
  - constructor; [|constructor; [|constructor]];
      (split; [reflexivity|split; reflexivity]).
  - cbn [List.length]. lia.
  - split; [exact H1|exact H2].
Defined.

(** ** A numbered list as the titles layer reads it *)

Lemma titlesFrom_skip (a : jsstring) (prev : option N) (s : jsstring) :
  titlesFrom (List.length a) prev (a ++ s) =
  titlesFrom 0 (match rev a with c :: _ => Some c | [] => prev end) s.
Proof.
  revert prev; induction a as [|x a IH]; intros prev; [reflexivity|].
  cbn [List.length app titlesFrom]. rewrite IH. cbn [rev].
  destruct (rev a); reflexivity.
Qed.

(** No title starts in a text without digits. *)
Lemma titlesFrom_prose (p : jsstring) (prev : option N) (s : jsstring) :
  Forall (fun c => isDigit c = false) p ->
  titlesFrom 0 prev (p ++ s) =
  titlesFrom 0 (match rev p with c :: _ => Some c | [] => prev end) s.
Proof.
  intros H. revert prev; induction H as [|c p Hc _ IH]; intros prev; [reflexivity|].
  cbn [app titlesFrom].
  assert (E : titleAt (c :: p ++ s) = None).
  { unfold titleAt. cbn [span]. now rewrite Hc. }
  rewrite E. replace (if lineStart prev then _ else _)
    with (titlesFrom 0 (Some c) (p ++ s)) by now destruct (lineStart prev).
  rewrite IH. cbn [rev]. destruct (rev p) as [|x l] eqn:Er; reflexivity.
Qed.

Lemma titleAt_line (n t rest : jsstring) :
  ReplyFormat.wellFormedLine (n, t) ->
  titleAt (n ++ str ". " ++ t ++ 10%N :: rest) =
  Some (t, (List.length n + 1 + 1 + List.length t)%nat).
Proof.
  intros (Hn & Hd & (c & t' & Et & Hc) & Hlt). cbn [fst snd] in *.
  unfold titleAt. change (str ". " ++ t ++ 10%N :: rest)
    with (46%N :: 32%N :: t ++ 10%N :: rest).
  rewrite span_stop; [|exact Hd|reflexivity].
  destruct n as [|d n']; [contradiction|].
  assert (Ews : span isWhiteSpace (32%N :: t ++ 10%N :: rest) = ([32%N], t ++ 10%N :: rest)).
  { rewrite Et. cbn [span app]. change (isWhiteSpace 32) with true. cbv iota.
    now rewrite Hc. }
  rewrite Ews.
  rewrite span_stop; [reflexivity| |reflexivity].
  eapply Forall_impl; [|exact Hlt]. intros x Hx. cbn beta. now rewrite Hx.
Qed.

Lemma titles_of_lines (lines : list (jsstring * jsstring)) (closing : jsstring)
      (prev : option N) :
  Forall ReplyFormat.wellFormedLine lines ->
  Forall (fun c => isDigit c = false) closing ->
  lineStart prev = true ->
  titlesFrom 0 prev (ReplyFormat.numberedLines lines ++ closing) =
  map (fun line => trim (snd line)) lines.
Proof.
  intros Hl Hc. revert prev; induction Hl as [|[n t] lines Hline _ IH]; intros prev Hp.
  - cbn [ReplyFormat.numberedLines flat_map app map].
    rewrite <- (app_nil_r closing), titlesFrom_prose by assumption.
    reflexivity.
  - cbn [ReplyFormat.numberedLines flat_map map snd].
    fold (ReplyFormat.numberedLines lines).
    unfold ReplyFormat.numberedLine. cbn [fst snd].
    rewrite <- !app_assoc.
    pose proof (@titleAt_line n t (ReplyFormat.numberedLines lines ++ closing) Hline) as Et.
    destruct Hline as (Hn & Hd & (c & t' & Ec & Hws) & Hlt). cbn [fst snd] in *.
    destruct n as [|d n']; [contradiction|].
    cbn [app] in Et |- *. cbn [titlesFrom]. rewrite Hp.
    change ([10%N] ++ ReplyFormat.numberedLines lines ++ closing)
      with (10%N :: ReplyFormat.numberedLines lines ++ closing).
    rewrite Et. f_equal.
    replace (List.length (d :: n') + 1 + 1 + List.length t - 1)%nat
      with (List.length (n' ++ str ". " ++ t))
      by (rewrite !length_app; change (List.length (str ". ")) with 2%nat;
          cbn [List.length]; lia).
    replace (n' ++ str ". " ++ t ++ 10%N :: ReplyFormat.numberedLines lines ++ closing)
      with ((n' ++ str ". " ++ t) ++ 10%N :: ReplyFormat.numberedLines lines ++ closing)
      by now rewrite <- !app_assoc.
    rewrite titlesFrom_skip.
    assert (El : exists e, match rev (n' ++ str ". " ++ t) with
                           | x :: _ => Some x
                           | [] => Some d
                           end = Some e /\ isLineTerminator e = false).
    { rewrite !rev_app_distr. destruct (rev t) as [|e l] eqn:Er.
      - apply (f_equal (@rev N)) in Er. rewrite rev_involutive in Er. subst t.
        discriminate.
      - exists e. split; [reflexivity|].
        assert (Hin : In e t) by (apply in_rev; rewrite Er; now left).
        clear Er. revert e Hin. now apply Forall_forall. }
    destruct El as (e & -> & He).
    cbn [titlesFrom lineStart]. rewrite He. now apply IH.
Qed.

(** X20: a reply whose prose and closing text hold no digit and whose
    numbered list has one line per title, a run of digits, a dot, a space
    and the title, gives the titles layer exactly these titles, trimmed
    and in order. *)
Theorem numbered_list_round_trip (prose closing : jsstring)
        (lines : list (jsstring * jsstring)) :
  Forall (fun c => isDigit c = false) prose ->
  Forall (fun c => isDigit c = false) closing ->
  Forall ReplyFormat.wellFormedLine lines ->
  titles (prose ++ [10%N] ++ ReplyFormat.numberedLines lines ++ closing) =
  map (fun line => trim (snd line)) lines.
Proof.
  intros Hp Hc Hl. unfold titles.
  replace (prose ++ [10%N] ++ ReplyFormat.numberedLines lines ++ closing)
    with ((prose ++ [10%N]) ++ ReplyFormat.numberedLines lines ++ closing)
    by now rewrite <- app_assoc.
  rewrite titlesFrom_prose.
  - apply titles_of_lines; try assumption.
    rewrite rev_app_distr. reflexivity.
  - apply Forall_app. split; [assumption|]. now repeat constructor.
Qed.

Lemma numbered_list_round_trip_witness :
  titles (str "My picks:" ++ [10%N] ++
          ReplyFormat.numberedLines
            [(str "1", str "Merlot Reserve "); (str "12", str "Syrah (2019 vintage)")] ++
          str "Enjoy!") =
  [str "Merlot Reserve"; str "Syrah (2019 vintage)"].
Proof.
  rewrite (@numbered_list_round_trip (str "My picks:") (str "Enjoy!")
             [(str "1", str "Merlot Reserve "); (str "12", str "Syrah (2019 vintage)")]).
  - vm_compute. reflexivity.
  - repeat constructor.
  - repeat constructor.
  - repeat constructor; try discriminate; try (do 2 eexists; split; reflexivity).
Defined.

(** ** Price queries *)

(** A match of a keyword pattern: the keyword in some case, white space,
    and a digit. *)
Lemma keyword_shape (kws : list jsstring) (s x : jsstring) :
  keywordNumberAt kws s = Some x ->
  exists kw m w d r,
    In kw kws /\ s = m ++ w ++ d :: r /\
    map foldCase m = map foldCase kw /\
    Forall (fun c => isWhiteSpace c = true) w /\
    isDigit d = true.
Proof.
  induction kws as [|kw kws IH]; [discriminate|]. cbn [keywordNumberAt].
  destruct (matchLiteral_i kw s) as [r0|] eqn:Em.
  - destruct (fst (span isDigit (dropWhile isWhiteSpace r0))) as [|d0 ds0] eqn:Ed.
    + intros H. destruct (IH H) as (kw1 & m & w & d & r & Hin & rest).
      exists kw1, m, w, d, r. split; [now right | exact rest].
    + intros _. destruct (matchLiteral_i_split _ _ Em) as (m & -> & Hm).
      destruct (span_split isWhiteSpace r0) as (Hs1 & Hs2 & _).
      unfold dropWhile in Ed.
      destruct (snd (span isWhiteSpace r0)) as [|d r] eqn:Esnd; [discriminate|].
      assert (Hd : isDigit d = true).
      { cbn [span] in Ed. destruct (isDigit d); [reflexivity | discriminate]. }
      exists kw, m, (fst (span isWhiteSpace r0)), d, r.
      split; [now left|]. split; [now rewrite Hs1 at 1|]. now repeat split.
  - intros H. destruct (IH H) as (kw1 & m & w & d & r & Hin & rest).
    exists kw1, m, w, d, r. split; [now right | exact rest].
Qed.

Lemma first_split_unique (p : N -> bool) (u1 u2 z1 z2 : jsstring) (d1 d2 : N) :
  u1 ++ d1 :: z1 = u2 ++ d2 :: z2 ->
  Forall (fun c => p c = false) u1 -> Forall (fun c => p c = false) u2 ->
  p d1 = true -> p d2 = true ->
  u1 = u2 /\ d1 :: z1 = d2 :: z2.
Proof.
  revert u2; induction u1 as [|c u1 IH]; intros [|c2 u2] E H1 H2 P1 P2; cbn [app] in E.
  - now split.
  - injection E as -> _. inversion H2; subst. congruence.
  - injection E as -> _. inversion H1; subst. congruence.
  - injection E as -> E. inversion H1; inversion H2; subst.
    destruct (IH u2 E) as [-> ?]; auto.
Qed.

Lemma folded_plain (m kw : jsstring) :
  map foldCase m = map foldCase kw ->
  Forall (fun c => isDigit c = false) kw ->
  Forall (fun c => isDigit c = false) m.
Proof.
  revert kw; induction m as [|c m IH]; intros [|p kw] E H; try discriminate;
    [constructor|].
  cbn [map] in E. injection E as Ec E. inversion H; subst.
  constructor; [now apply (@foldCase_plain c p Ec) | now apply (IH kw)].
Qed.

Lemma folded_last (m k : jsstring) (c : N) :
  map foldCase m = map foldCase (k ++ [c]) ->
  isWhiteSpace c = false ->
  exists m1 cm, m = m1 ++ [cm] /\ isWhiteSpace cm = false.
Proof.
  intros E Hc. rewrite map_app in E. apply map_eq_app in E as (m1 & m2 & -> & _ & E2).
  destruct m2 as [|cm [|? ?]]; try discriminate. cbn [map] in E2. injection E2 as E2.
  exists m1, cm. split; [reflexivity|]. now apply (@foldCase_plain cm c E2).
Qed.

(** The keyword that a match ends with, just before the white space and
    the digits, is a suffix of the text before them. *)
Lemma suffix_agree (kw kw0 pre t1 tail : jsstring) :
  t1 ++ tail = pre ++ kw0 ->
  map foldCase tail = map foldCase kw ->
  let n := Nat.min (List.length kw) (List.length kw0) in
  firstn n (rev (map foldCase kw)) = firstn n (rev (map foldCase kw0)).
Proof.
  intros E H n. rewrite <- H.
  apply (f_equal (map foldCase)) in E. rewrite !map_app in E.
  apply (f_equal (@rev N)) in E. rewrite !rev_app_distr in E.
  assert (Hl : List.length (map foldCase tail) = List.length kw)
    by (rewrite H; apply length_map).
  transitivity (firstn n (rev (map foldCase tail) ++ rev (map foldCase t1))).
  - rewrite firstn_app.
    replace (n - List.length (rev (map foldCase tail)))%nat with 0%nat
      by (rewrite length_rev; lia).
    cbn [firstn]. now rewrite app_nil_r.
  - rewrite E, firstn_app.
    replace (n - List.length (rev (map foldCase kw0)))%nat with 0%nat
      by (rewrite length_rev, length_map; lia).
    cbn [firstn]. now rewrite app_nil_r.
Qed.

Lemma no_match_before (kws : list jsstring) (kw0 pre t1 tail ws z : jsstring) (d0 : N) :
  t1 ++ tail = pre ++ kw0 ->
  tail <> [] ->
  Forall (fun c => isDigit c = false) (pre ++ kw0) ->
  (exists k c, kw0 = k ++ [c] /\ isWhiteSpace c = false) ->
  Forall (fun c => isWhiteSpace c = true) ws ->
  isDigit d0 = true ->
  (forall kw, In kw kws ->
     Forall (fun c => isDigit c = false) kw /\
     (exists k c, kw = k ++ [c] /\ isWhiteSpace c = false) /\
     (firstn (Nat.min (List.length kw) (List.length kw0)) (rev (map foldCase kw)) <>
      firstn (Nat.min (List.length kw) (List.length kw0)) (rev (map foldCase kw0)) \/
      List.length kw <> List.length tail)) ->
  keywordNumberAt kws (tail ++ ws ++ d0 :: z) = None.
Proof.
  intros E Hne Hnd (k0 & c0 & Ek0 & Hc0) Hws Hd0 Hk.
  destruct (keywordNumberAt kws _) as [x|] eqn:Ex; [exfalso|reflexivity].
  apply keyword_shape in Ex as (kw & m & w & d & r & Hin & Es & Hm & Hw & Hd).
  destruct (Hk kw Hin) as (Hkd & (k & c & Ek & Hc) & Hcompat).
  assert (Htail : Forall (fun c => isDigit c = false) tail).
  { rewrite <- E in Hnd. now apply Forall_app in Hnd. }
  assert (E1 : tail ++ ws = m ++ w).
  { apply (@first_split_unique isDigit (tail ++ ws) (m ++ w) z r d0 d);
      try assumption.
    - now rewrite <- !app_assoc.
    - apply Forall_app. split; [assumption|].
      eapply Forall_impl; [|exact Hws]. intros ? ?. now apply ws_not_digit.
    - apply Forall_app. split; [now apply (@folded_plain m kw Hm)|].
      eapply Forall_impl; [|exact Hw]. intros ? ?. now apply ws_not_digit. }
  assert (E2 : tail = m).
  { rewrite Ek in Hm. destruct (@folded_last m k c Hm Hc) as (m1 & cm & -> & Hcm).
    assert (Et : exists tl, tail = tl ++ [c0]).
    { destruct (rev tail) as [|e l] eqn:Er.
      - apply (f_equal (@rev N)) in Er. rewrite rev_involutive in Er. contradiction.
      - apply (f_equal (@rev N)) in E. rewrite Ek0, !rev_app_distr, Er in E.
        cbn [rev app] in E. injection E as -> _.
        exists (rev l). apply (f_equal (@rev N)) in Er.
        rewrite rev_involutive in Er. now rewrite Er. }
    destruct Et as (tl & ->).
    apply (f_equal (@rev N)) in E1. rewrite !rev_app_distr in E1. cbn [rev app] in E1.
    destruct (@first_split_unique (fun c => negb (isWhiteSpace c))
                (rev ws) (rev w) (rev tl) (rev m1) c0 cm) as [_ E3].
    - exact E1.
    - apply Forall_rev. eapply Forall_impl; [|exact Hws]. intros ? H. now rewrite H.
    - apply Forall_rev. eapply Forall_impl; [|exact Hw]. intros ? H. now rewrite H.
    - now rewrite Hc0.
    - now rewrite Hcm.
    - injection E3 as -> E3. apply (f_equal (@rev N)) in E3.
      rewrite !rev_involutive in E3. now rewrite E3. }
  subst m. destruct Hcompat as [Hdiff|Hlen].
  - apply Hdiff. exact (@suffix_agree kw kw0 pre t1 tail E Hm).
  - apply Hlen. apply (f_equal (@List.length N)) in Hm. now rewrite !length_map in Hm.
Qed.

(** No keyword pattern matches at white space or at a digit, nor in a
    text without digits. *)
Lemma no_match_at (kws : list jsstring) (c : N) (s : jsstring) :
  (isWhiteSpace c || isDigit c)%bool = true ->
  (forall kw, In kw kws ->
     exists p k, kw = p :: k /\ isWhiteSpace p = false /\ isDigit p = false) ->
  keywordNumberAt kws (c :: s) = None.
Proof.
  intros Hc Hk.
  destruct (keywordNumberAt kws _) as [x|] eqn:Ex; [exfalso|reflexivity].
  apply keyword_shape in Ex as (kw & m & w & d & r & Hin & Es & Hm & _).
  destruct (Hk kw Hin) as (p & k & -> & Hp1 & Hp2).
  destruct m as [|cm m]; [discriminate|]. cbn [map app] in Hm, Es.
  injection Hm as Hm _. injection Es as -> _.
  destruct (@foldCase_plain cm p Hm) as [H1 H2].
  rewrite (H1 Hp2), (H2 Hp1) in Hc. discriminate.
Qed.

Lemma no_match_plain (kws : list jsstring) (s : jsstring) :
  Forall (fun c => isDigit c = false) s -> keywordNumberAt kws s = None.
Proof.
  intros Hs.
  destruct (keywordNumberAt kws _) as [x|] eqn:Ex; [exfalso|reflexivity].
  apply keyword_shape in Ex as (kw & m & w & d & r & _ & -> & _ & _ & Hd).
  apply Forall_app in Hs as [_ Hs]. apply Forall_app in Hs as [_ Hs].
  inversion Hs; subst. congruence.
Qed.

Lemma search_plain (kws : list jsstring) (s : jsstring) :
  Forall (fun c => isDigit c = false) s -> search (keywordNumberAt kws) s = None.
Proof.
  induction 1 as [|c s Hc Hs IH]; cbn [search].
  - now rewrite no_match_plain.
  - rewrite no_match_plain by now constructor. exact IH.
Qed.

(** The keyword that stands before the first digits of the text, after
    prose without digits, is where the search first matches. *)
Lemma match_after_prose (kws : list jsstring) (kw0 pre ws ds rest : jsstring) :
  Forall (fun c => isDigit c = false) (pre ++ kw0) ->
  (exists k c, kw0 = k ++ [c] /\ isWhiteSpace c = false) ->
  Forall (fun c => isWhiteSpace c = true) ws ->
  ds <> [] ->
  Forall (fun c => isDigit c = true) ds ->
  (forall kw, In kw kws ->
     Forall (fun c => isDigit c = false) kw /\
     (exists k c, kw = k ++ [c] /\ isWhiteSpace c = false) /\
     (firstn (Nat.min (List.length kw) (List.length kw0)) (rev (map foldCase kw)) <>
      firstn (Nat.min (List.length kw) (List.length kw0)) (rev (map foldCase kw0)) \/
      (List.length kw <= List.length kw0)%nat)) ->
  search (keywordNumberAt kws) (pre ++ kw0 ++ ws ++ ds ++ rest) =
  search (keywordNumberAt kws) (kw0 ++ ws ++ ds ++ rest).
Proof.
  intros Hnd Hlast Hws Hne Hds Hk. destruct ds as [|d0 ds']; [contradiction|].
  apply search_skip. intros t1 t2 -> Ht2.
  replace (t2 ++ kw0 ++ ws ++ (d0 :: ds') ++ rest)
    with ((t2 ++ kw0) ++ ws ++ d0 :: (ds' ++ rest))
    by now rewrite <- !app_assoc.
  apply (@no_match_before kws kw0 (t1 ++ t2) t1 (t2 ++ kw0)); try assumption.
  - now rewrite app_assoc.
  - destruct t2; [contradiction | discriminate].
  - now inversion Hds.
  - intros kw Hin. destruct (Hk kw Hin) as (H1 & H2 & [H3|H3]).
    + split; [assumption|]. split; [assumption|]. now left.
    + split; [assumption|]. split; [assumption|]. right.
      rewrite length_app. destruct t2; [contradiction|]. cbn [List.length]. lia.
Qed.

(** No keyword of the other class matches anywhere when the only digits
    of the text follow the keyword. *)
Lemma no_match_elsewhere (kws : list jsstring) (kw0 pre ws ds rest : jsstring) :
  Forall (fun c => isDigit c = false) (pre ++ kw0) ->
  (exists k c, kw0 = k ++ [c] /\ isWhiteSpace c = false) ->
  Forall (fun c => isWhiteSpace c = true) ws ->
  ds <> [] ->
  Forall (fun c => isDigit c = true) ds ->
  Forall (fun c => isDigit c = false) rest ->
  (forall kw, In kw kws ->
     Forall (fun c => isDigit c = false) kw /\
     (exists k c, kw = k ++ [c] /\ isWhiteSpace c = false) /\
     (exists p k, kw = p :: k /\ isWhiteSpace p = false /\ isDigit p = false) /\
     firstn (Nat.min (List.length kw) (List.length kw0)) (rev (map foldCase kw)) <>
     firstn (Nat.min (List.length kw) (List.length kw0)) (rev (map foldCase kw0))) ->
  search (keywordNumberAt kws) (pre ++ kw0 ++ ws ++ ds ++ rest) = None.
Proof.
  intros Hnd Hlast Hws Hne Hds Hrest Hk.
  destruct ds as [|d0 ds'] eqn:Eds; [contradiction|]. rewrite <- Eds in *.
  replace (pre ++ kw0 ++ ws ++ ds ++ rest) with ((pre ++ kw0) ++ (ws ++ ds) ++ rest)
    by now rewrite <- !app_assoc.
  rewrite search_skip.
  - rewrite search_skip; [now apply search_plain|].
    intros t1 t2 E Hne2. destruct t2 as [|c t2]; [contradiction|].
    cbn [app]. apply no_match_at.
    + assert (Hin : In c (ws ++ ds)) by (rewrite E; apply in_or_app; right; now left).
      apply in_app_or in Hin as [Hin|Hin].
      * rewrite Forall_forall in Hws. now rewrite (Hws c Hin).
      * rewrite Forall_forall in Hds. rewrite (Hds c Hin). apply orb_true_r.
    + intros kw Hin. now destruct (Hk kw Hin) as (_ & _ & H & _).
  - intros t1 t2 E Hne2. rewrite Eds.
    replace (t2 ++ (ws ++ d0 :: ds') ++ rest) with (t2 ++ ws ++ d0 :: (ds' ++ rest))
      by now rewrite <- !app_assoc.
    apply (@no_match_before kws kw0 pre t1 t2); try assumption.
    + now symmetry.
    + rewrite Eds in Hds. now inversion Hds.
    + intros kw Hin. destruct (Hk kw Hin) as (H1 & H2 & _ & H3).
      split; [assumption|]. split; [assumption|]. now left.
Qed.

Ltac keyword_facts :=
  repeat match goal with
    | |- _ /\ _ => split
    | |- Forall _ _ => repeat constructor
    | |- exists k c, ?kw = k ++ [c] /\ _ =>
        exists (removelast kw), (last kw 0%N); split; reflexivity
    | |- exists p k, ?kw = p :: k /\ _ =>
        exists (hd 0%N kw), (tl kw); repeat split; reflexivity
    | |- _ <> _ => vm_compute; discriminate
    end.

(** X21: a query whose only digits follow one of the words under, less
    than and below, after optional white space, keeps exactly the
    candidates whose parsed price is below the number these digits
    spell. *)
Theorem under_query (kw pre ws ds rest : jsstring) (candidates : list Wine) :
  In kw [str "under"; str "less than"; str "below"] ->
  Forall (fun c => isDigit c = false) pre ->
  Forall (fun c => isWhiteSpace c = true) ws ->
  ds <> [] ->
  Forall (fun c => isDigit c = true) ds ->
  Forall (fun c => isDigit c = false) rest ->
  priceFilter (pre ++ kw ++ ws ++ ds ++ rest) candidates =
  filter (fun w => lt (parsePrice (Price w)) (parseFloat ds)) candidates.
Proof.
  intros Hkw Hpre Hws Hne Hds Hrest.
  assert (Hr : match rest with [] => True | c :: _ => isDigit c = false end).
  { destruct rest; [exact I | now inversion Hrest]. }
  pose proof (digits_after rest Hws Hne Hds Hr) as Hdig.
  assert (Ha : matchAbove (pre ++ kw ++ ws ++ ds ++ rest) = None).
  { unfold matchAbove. apply no_match_elsewhere; try assumption.
    - apply Forall_app. split; [assumption|].
      destruct Hkw as [<-|[<-|[<-|[]]]]; repeat constructor.
    - destruct Hkw as [<-|[<-|[<-|[]]]]; keyword_facts.
    - intros kw1 Hin.
      destruct Hkw as [<-|[<-|[<-|[]]]]; destruct Hin as [<-|[<-|[<-|[]]]];
        keyword_facts. }
  assert (Hu : matchUnder (pre ++ kw ++ ws ++ ds ++ rest) = Some ds).
  { unfold matchUnder. rewrite match_after_prose; try assumption.
    - apply search_here.
      destruct Hkw as [<-|[<-|[<-|[]]]]; cbn [keywordNumberAt];
        repeat match goal with
          | |- context [matchLiteral_i ?a (?a ++ ?r)] => rewrite (matchLiteral_i_self a r)
          | |- context [matchLiteral_i ?a (?b ++ ?r)] =>
              change (matchLiteral_i a (b ++ r)) with (@None jsstring)
          end;
        rewrite Hdig; destruct ds; [contradiction | reflexivity | contradiction
                                   | reflexivity | contradiction | reflexivity].
    - apply Forall_app. split; [assumption|].
      destruct Hkw as [<-|[<-|[<-|[]]]]; repeat constructor.
    - destruct Hkw as [<-|[<-|[<-|[]]]]; keyword_facts.
    - intros kw1 Hin.
      destruct Hkw as [<-|[<-|[<-|[]]]]; destruct Hin as [<-|[<-|[<-|[]]]];
        (split; [repeat constructor|]); (split; [keyword_facts|]);
        first [ right; vm_compute; lia | left; vm_compute; discriminate ]. }
  unfold priceFilter. now rewrite Ha, Hu.
Qed.

Lemma under_query_witness :
  priceFilter (str "a red under 15 euros") Examples.cellar =
  [Examples.merlot; Examples.syrah; Examples.riesling].
Proof.
  change (str "a red under 15 euros")
    with (str "a red " ++ str "under" ++ str " " ++ str "15" ++ str " euros").
  rewrite (@under_query (str "under") (str "a red ") (str " ") (str "15")
             (str " euros") Examples.cellar).
  - vm_compute. reflexivity.
  - simpl. tauto.
  - repeat constructor.
  - repeat constructor.
  - discriminate.
  - repeat constructor.
  - repeat constructor.
Defined.

(** X22: a query in which the first digits follow one of the words
    above, over and greater than, after optional white space, keeps
    exactly the candidates whose parsed price is above the number these
    digits spell, whatever the rest of the query says. *)
Theorem above_query (kw pre ws ds rest : jsstring) (candidates : list Wine) :
  In kw [str "above"; str "over"; str "greater than"] ->
  Forall (fun c => isDigit c = false) pre ->
  Forall (fun c => isWhiteSpace c = true) ws ->
  ds <> [] ->
  Forall (fun c => isDigit c = true) ds ->
  match rest with [] => True | c :: _ => isDigit c = false end ->
  priceFilter (pre ++ kw ++ ws ++ ds ++ rest) candidates =
  filter (fun w => gt (parsePrice (Price w)) (parseFloat ds)) candidates.
Proof.
  intros Hkw Hpre Hws Hne Hds Hr.
  pose proof (digits_after rest Hws Hne Hds Hr) as Hdig.
  assert (Ha : matchAbove (pre ++ kw ++ ws ++ ds ++ rest) = Some ds).
  { unfold matchAbove. rewrite match_after_prose; try assumption.
    - apply search_here.
      destruct Hkw as [<-|[<-|[<-|[]]]]; cbn [keywordNumberAt];
        repeat match goal with
          | |- context [matchLiteral_i ?a (?a ++ ?r)] => rewrite (matchLiteral_i_self a r)
          | |- context [matchLiteral_i ?a (?b ++ ?r)] =>
              change (matchLiteral_i a (b ++ r)) with (@None jsstring)
          end;
        rewrite Hdig; destruct ds; [contradiction | reflexivity | contradiction
                                   | reflexivity | contradiction | reflexivity].
    - apply Forall_app. split; [assumption|].
      destruct Hkw as [<-|[<-|[<-|[]]]]; repeat constructor.
    - destruct Hkw as [<-|[<-|[<-|[]]]]; keyword_facts.
    - intros kw1 Hin.
      destruct Hkw as [<-|[<-|[<-|[]]]]; destruct Hin as [<-|[<-|[<-|[]]]];
        (split; [repeat constructor|]); (split; [keyword_facts|]);
        first [ right; vm_compute; lia | left; vm_compute; discriminate ]. }
  unfold priceFilter. now rewrite Ha.
Qed.

Lemma above_query_witness :
  priceFilter (str "something over 14 but under 20") Examples.cellar =
  [Examples.merlotReserve; Examples.chablis].
Proof.
  change (str "something over 14 but under 20")
    with (str "something " ++ str "over" ++ str " " ++ str "14" ++
          str " but under 20").
  rewrite (@above_query (str "over") (str "something ") (str " ") (str "14")
             (str " but under 20") Examples.cellar).
  - vm_compute. reflexivity.
  - simpl. tauto.
  - repeat constructor.
  - repeat constructor.
  - discriminate.
  - repeat constructor.
  - reflexivity.
Defined.

Lemma testWord_skip (alts : list jsstring) (prev : option N) (a s : jsstring) :
  wordAt alts (match rev a with c :: _ => Some c | [] => prev end) s = true ->
  testWord alts prev (a ++ s) = true.
Proof.
  revert prev; induction a as [|c a IH]; intros prev H.
  - cbn [rev app] in *. destruct s; cbn [testWord]; now rewrite H.
  - cbn [app testWord]. rewrite IH; [apply orb_true_r|].
    cbn [rev] in H. destruct (rev a); exact H.
Qed.

Lemma firstn_own_length (a b : jsstring) : firstn (List.length a) (a ++ b) = a.
Proof.
  rewrite firstn_app, Nat.sub_diag, firstn_all. cbn [firstn]. apply app_nil_r.
Qed.

(** X23: a query without digits in which one of the words expensive,
    premium, high-end, high end and luxury stands between code units that
    are not word characters, or at an end of the text, is filtered by the
    75th percentile. *)
Theorem premium_query (word pre post : jsstring) (candidates : list Wine) :
  In word [str "expensive"; str "premium"; str "high-end"; str "high end";
           str "luxury"] ->
  Forall (fun c => isDigit c = false) pre ->
  Forall (fun c => isDigit c = false) post ->
  match rev pre with [] => True | c :: _ => isWordChar c = false end ->
  match post with [] => True | c :: _ => isWordChar c = false end ->
  priceFilter (pre ++ word ++ post) candidates = percentileFilter candidates.
Proof.
  intros Hw Hpre Hpost Hb1 Hb2.
  assert (Hplain : Forall (fun c => isDigit c = false) (pre ++ word ++ post)).
  { apply Forall_app. split; [assumption|]. apply Forall_app. split; [|assumption].
    destruct Hw as [<-|[<-|[<-|[<-|[<-|[]]]]]]; repeat constructor. }
  assert (Hp : testPremium (pre ++ word ++ post) = true).
  { unfold testPremium. apply testWord_skip. unfold wordAt.
    apply andb_true_iff. split.
    - assert (E : isWordOpt (match rev pre with c :: _ => Some c | [] => None end) = false).
      { destruct (rev pre); [reflexivity | exact Hb1]. }
      unfold wordBoundary. rewrite E.
      destruct Hw as [<-|[<-|[<-|[<-|[<-|[]]]]]]; reflexivity.
    - apply existsb_exists. exists word. split; [exact Hw|].
      rewrite matchLiteral_i_self, firstn_own_length.
      assert (E : isWordOpt (hd_error post) = false).
      { destruct post; [reflexivity | exact Hb2]. }
      unfold wordBoundary. rewrite E.
      destruct Hw as [<-|[<-|[<-|[<-|[<-|[]]]]]]; reflexivity. }
  unfold priceFilter, matchAbove, matchUnder.
  now rewrite !search_plain, Hp by assumption.
Qed.

Lemma premium_query_witness :
  priceFilter (str "a high-end white, please") Examples.cellar =
  [Examples.merlotReserve; Examples.chablis].
Proof.
  change (str "a high-end white, please")
    with (str "a " ++ str "high-end" ++ str " white, please").
  rewrite (@premium_query (str "high-end") (str "a ") (str " white, please")
             Examples.cellar).
  - vm_compute. reflexivity.
  - simpl. tauto.
  - repeat constructor.
  - repeat constructor.
  - reflexivity.
  - reflexivity.
Defined.

(** ** The comparison table and the popup *)




(** What the controls of the popup compare, for a Number of 12 or more. *)
Lemma above_twelve (q : number) :
  valid q = true -> le (ofZ 12) q = true ->
  truthy q = true /\ le q one = false /\ ge q ten = true /\
  le (sub q one) ten = false.
Proof.
  intros V L. split; [|split; [|split]].
  - destruct q as [[|]|[|]| |[|] m e]; try discriminate L; reflexivity.
  - destruct q as [[|]|[|]| |[|] m e]; try discriminate L; try reflexivity.
    destruct (ofZ_spec 12 ltac:(lia)) as (m12 & e12 & E12 & B12 & _ & W12).
    destruct (ofZ_spec 1 ltac:(lia)) as (m1 & e1 & E1 & B1 & _ & W1).
    unfold le, one, valid in *. cbn [valid_binary] in V.
    rewrite E12, SFleb_W in L by assumption. rewrite E1, SFleb_W by assumption.
    apply Z.leb_le in L. apply Z.leb_gt. rewrite W12 in L. rewrite W1.
    assert (0 < 2 ^ 1074)%Z by (apply pow_pos; lia).
    set (a := (2 ^ 1074)%Z) in *. clearbody a. lia.
  - destruct q as [[|]|[|]| |[|] m e]; try discriminate L; try reflexivity.
    destruct (ofZ_spec 12 ltac:(lia)) as (m12 & e12 & E12 & B12 & _ & W12).
    destruct (ofZ_spec 10 ltac:(lia)) as (m10 & e10 & E10 & B10 & _ & W10).
    unfold ge, le, ten, valid in *. cbn [valid_binary] in V.
    rewrite E12, SFleb_W in L by assumption. rewrite E10, SFleb_W by assumption.
    apply Z.leb_le in L. apply Z.leb_le. rewrite W12 in L. rewrite W10.
    assert (0 < 2 ^ 1074)%Z by (apply pow_pos; lia).
    set (a := (2 ^ 1074)%Z) in *. clearbody a. lia.
  - now apply sub_one_above.
Qed.

(** X25: the popup of a wine whose quantity in the cart is a Number of 12
    or more opens with that quantity in its selector, beyond the range of
    the selector, and no click on the plus, minus or add control changes
    the selector or the cart. *)
Theorem selector_stuck (cart : list CartItem) (w : Wine)
        (events : list WinePopup.Event) :
  valid (getItemQuantity (URL w) cart) = true ->
  le (ofZ 12) (getItemQuantity (URL w) cart) = true ->
  Forall (fun ev => match ev with
                    | WinePopup.ClickPlus | WinePopup.ClickMinus
                    | WinePopup.ClickAdd _ => True
                    | _ => False
                    end) events ->
  let st := WinePopup.openEffect w (WinePopup.closed cart w) in
  WinePopup.quantity st = getItemQuantity (URL w) cart /\
  WinePopup.isAddedToCart st = true /\
  fold_left WinePopup.step events st = st.
Proof.
  intros Hv Hq Hev st.
  destruct (@above_twelve _ Hv Hq) as (Ht & Hminus & Hplus & Hstuck).
  assert (Hin : isInCart (URL w) cart = true).
  { destruct (isInCart (URL w) cart) eqn:E; [reflexivity|].
    rewrite (getItemQuantity_absent _ _ E) in Hq. discriminate Hq. }
  assert (Eq : WinePopup.quantity st = getItemQuantity (URL w) cart).
  { unfold st, WinePopup.openEffect, WinePopup.closed.
    cbn [WinePopup.quantity WinePopup.items]. unfold orElse. now rewrite Ht. }
  assert (Ea : WinePopup.isAddedToCart st = true) by exact Hin.
  split; [exact Eq|]. split; [exact Ea|].
  induction Hev as [|ev events Hev _ IH]; [reflexivity|].
  cbn [fold_left].
  replace (WinePopup.step st ev) with st; [exact IH|].
  destruct ev as [?|now| | |]; try contradiction; cbn [WinePopup.step].
  - now rewrite Ea.
  - rewrite Eq, Hminus. unfold WinePopup.handleQuantityChange.
    now rewrite Hstuck, andb_false_r.
  - now rewrite Eq, Hplus.
Qed.


Lemma selector_stuck_witness :
  let cart :=
    ComparePopup.handleAddClicks Examples.syrah (seq 0 12)
      [MoreExamples.item Examples.merlot 2] in
  let st := WinePopup.openEffect Examples.syrah (WinePopup.closed cart Examples.syrah) in
  WinePopup.quantity st = ofZ 12 /\
  fold_left WinePopup.step
    [WinePopup.ClickMinus; WinePopup.ClickPlus; WinePopup.ClickMinus] st = st.
Proof.
  cbv zeta.
  destruct (@selector_stuck
              (ComparePopup.handleAddClicks Examples.syrah (seq 0 12)
                 [MoreExamples.item Examples.merlot 2])
              Examples.syrah
              [WinePopup.ClickMinus; WinePopup.ClickPlus; WinePopup.ClickMinus])
    as (H1 & _ & H2).
  - vm_compute. reflexivity.
  - vm_compute. reflexivity.
  - repeat constructor.
  - split; [rewrite H1; vm_compute; reflexivity | exact H2].
Defined.

(** ** Sessions of the chat widget *)

Section ChatSessionFacts.
Context {rt : Runtime}.






End ChatSessionFacts.

(** ** The size of the simple fallback *)

(** X27: the simple fallback always returns min(3, n) wines of a list of
    n wines, whatever the message: three as soon as the list has three. *)
Theorem getSimpleFallback_size {rt : Runtime} (msg : jsstring) (wines : list Wine) :
  List.length (getSimpleFallback msg wines) = Nat.min 3 (List.length wines) /\
  (forall w, In w (getSimpleFallback msg wines) -> In w wines).
Proof.
  split; [|intros w; apply getSimpleFallback_incl].
  rewrite getSimpleFallback_spec.
  destruct (Spec.keywordColor _) as [c|]; [|apply length_firstn].
  destruct (Nat.leb_spec 3 (List.length (filter (colorIs c) wines))) as [H|H];
    [|apply length_firstn].
  pose proof (filter_length_le (colorIs c) wines). rewrite length_firstn. lia.
Qed.
